(** * Frequency response data models (frdata.py)

    A shallow embedding of the [FRD] class of python-control and of the
    module-level [_convertToFRD], followed by the properties of the
    specification that can be stated over it.

    Conventions of the embedding.
    - Python floats are idealised as exact rationals ([Q]), complex numbers
      as pairs of rationals ([C]).  Nothing proved below depends on rounding.
    - numpy arrays that the program shares and mutates (the frequency axes,
      sorted in place) live in a heap and are named by locations; so do the
      response tensors and the [FRD] instances, whose identity matters.
    - A Python exception is an error result; the state reached when it is
      raised is kept, as in Python, where mutations are not rolled back.
    - The numerical routines of scipy and numpy that the program calls but
      does not define (FITPACK splines, magnitude and angle of a complex
      number, the linear solver) are the fields of the class [Numerics]. *)

From Stdlib Require Import QArith Qabs ZArith Lia Sorted Permutation.
From stdpp Require Import base list strings pretty.

Local Open Scope string_scope.
Local Open Scope nat_scope.

(** ** Numbers *)

Record C := Cplx { re : Q; im : Q }.

Definition C0 : C := Cplx 0 0.
Definition C1 : C := Cplx 1 0.
Definition C_of_Q (x : Q) : C := Cplx x 0.
Definition Cadd (a b : C) : C := Cplx (re a + re b) (im a + im b).
Definition Copp (a : C) : C := Cplx (- re a) (- im a).
Definition Cmul (a b : C) : C :=
  Cplx (re a * re b - im a * im b) (re a * im b + im a * re b).

Definition Qltb (x y : Q) : bool := negb (Qle_bool y x).

(** Python 2 numbers, as far as the program tells them apart:
    [isinstance(x, (int, float, long, complex))] and [type(x) == int]. *)
Inductive pynum :=
| PyInt (n : Z)
| PyLong (n : Z)
| PyFloat (x : Q)
| PyComplex (z : C).

Definition complex_of (x : pynum) : C :=
  match x with
  | PyInt n | PyLong n => C_of_Q (inject_Z n)
  | PyFloat q => C_of_Q q
  | PyComplex z => z
  end.

(** ** Exceptions

    The classes are Python's.  The error names of the specification stand
    for: ShapeMismatch, the [TypeError] of the constructor ([shape_error]
    below); DimensionMismatch, the [ValueError]s of [__add__], [__mul__] and
    [feedback] on sizes; InvalidExponent, the [ValueError] of [__pow__];
    NotImplemented, [NotImplementedError]; NoOverlap, the [ValueError] of
    [_convertToFRD]; UnsupportedConversion, its [TypeError]. *)

Inductive exn :=
| TypeError (msg : string)
| ValueError (msg : string)
| NotImplementedError (msg : string)
| AttributeError (msg : string)
| NameError (msg : string)
| IndexError (msg : string)
| LinAlgError (msg : string)
| RuntimeError (msg : string)
| DanglingReference.
(* [DanglingReference] has no Python counterpart: it is the result of reading
   a location that holds no value of the expected kind, which no state built
   by the program's own constructors allows. *)

Definition res (A : Type) : Type := exn + A.

Definition bindE {A B} (m : res A) (k : A -> res B) : res B :=
  match m with inl e => inl e | inr a => k a end.

Declare Scope res_scope.
Delimit Scope res_scope with E.
Notation "x <- m ;; k" := (bindE m (fun x => k))
  (at level 63, m at next level, right associativity) : res_scope.

(** [mapE f l] runs [f] over [l] from left to right and stops at the first
    exception, as a Python [for] loop that fills a list does. *)
Fixpoint mapE {A B} (f : A -> res B) (l : list A) : res (list B) :=
  match l with
  | [] => inr []
  | a :: l' => (b <- f a ;; bs <- mapE f l' ;; inr (b :: bs))%E
  end.

Fixpoint foldE {A S} (f : S -> A -> res S) (s : S) (l : list A) : res S :=
  match l with
  | [] => inr s
  | a :: l' => (s' <- f s a ;; foldE f s' l')%E
  end.

(** [enumerate(l)] *)
Definition enumerate {A} (l : list A) : list (nat * A) := imap (fun k a => (k, a)) l.

(** ** numpy arrays *)

(** A nested Python sequence, the argument of [numpy.array]. *)
#[warnings="-register-all"] Inductive pyseq (A : Type) :=
| Leaf (a : A)
| Node (xs : list (pyseq A)).
Arguments Leaf {A} a.
Arguments Node {A} xs.

Definition children {A} (d : pyseq A) : list (pyseq A) :=
  match d with Leaf _ => [] | Node xs => xs end.

Fixpoint leaves {A} (d : pyseq A) : list A :=
  match d with
  | Leaf a => [a]
  | Node xs => flat_map leaves xs
  end.

(** The shape numpy discovers: the lengths met going down the first items. *)
Fixpoint seq_shape {A} (d : pyseq A) : list nat :=
  match d with
  | Leaf _ => []
  | Node xs => length xs :: match xs with [] => [] | x :: _ => seq_shape x end
  end.

Fixpoint regular {A} (d : pyseq A) : bool :=
  match d with
  | Leaf _ => true
  | Node xs =>
      forallb regular xs &&
      match xs with
      | [] => true
      | x :: xs' => forallb (fun y => bool_decide (seq_shape y = seq_shape x)) xs'
      end
  end.

Definition vector {A} (l : list A) : pyseq A := Node (map Leaf l).

(** An array of any number of dimensions: its shape and its items in row
    order.  The frequency vector given to the constructor is one. *)
Record ndarray (A : Type) := Ndarray {
  nd_shape : list nat;
  nd_items : list A
}.
Arguments Ndarray {A} _ _.
Arguments nd_shape {A} _.
Arguments nd_items {A} _.

(** A 1-d array. *)
Definition vec {A} (l : list A) : ndarray A := Ndarray [length l] l.

(** [numpy.array] of a nested sequence that is regular. *)
Definition of_seq {A} (d : pyseq A) : ndarray A := Ndarray (seq_shape d) (leaves d).

(** A 3-dimensional array, indexed [output, input, frequency index].  The
    shape is kept beside the items because numpy keeps it when a dimension
    is zero. *)
Record tensor (A : Type) := Tensor {
  t_shape : nat * nat * nat;
  t_items : list (list (list A))
}.
Arguments Tensor {A} _ _.
Arguments t_shape {A} _.
Arguments t_items {A} _.

(** A 2-dimensional array. *)
Record matrix (A : Type) := Matrix {
  m_shape : nat * nat;
  m_rows : list (list A)
}.
Arguments Matrix {A} _ _.
Arguments m_shape {A} _.
Arguments m_rows {A} _.

Definition tensor_wf {A} (t : tensor A) : Prop :=
  let '(p, m, n) := t_shape t in
  length (t_items t) = p /\
  Forall (fun row => length row = m /\ Forall (fun col => length col = n) row) (t_items t).

Definition matrix_wf {A} (a : matrix A) : Prop :=
  let '(r, c) := m_shape a in
  length (m_rows a) = r /\ Forall (fun row => length row = c) (m_rows a).

(** [numpy.empty(shape)]: the contents are unspecified; zeros stand for them. *)
Definition empty3 {A} (z : A) (shape : nat * nat * nat) : tensor A :=
  let '(p, m, n) := shape in Tensor shape (replicate p (replicate m (replicate n z))).

(** An array filled with one value, as [numpy.ones(shape) * z]. *)
Definition constant3 {A} (z : A) (shape : nat * nat * nat) : tensor A :=
  let '(p, m, n) := shape in Tensor shape (replicate p (replicate m (replicate n z))).

(** What [numpy.array] receives for a response: a nested sequence or an
    array that is already 3-dimensional. *)
Inductive array_like :=
| OfSeq (d : pyseq C)
| OfTensor (t : tensor C).

Definition shape_of (a : array_like) : list nat :=
  match a with
  | OfSeq d => seq_shape d
  | OfTensor t => let '(p, m, n) := t_shape t in [p; m; n]
  end.

Definition tensor_of_seq {A} (d : pyseq A) : tensor A :=
  Tensor match seq_shape d with [p; m; n] => (p, m, n) | _ => (0, 0, 0) end
         (map (fun row => map leaves (children row)) (children d)).

Definition tensor_of (a : array_like) : tensor C :=
  match a with
  | OfSeq d => tensor_of_seq d
  | OfTensor t => t
  end.

(** [a.reshape(1, 1, len(a))] for a 1-d array: a new array with the same
    items; [a] keeps its shape. *)
Definition reshape_1_1_n (a : array_like) : tensor C :=
  let items := match a with
               | OfSeq d => leaves d
               | OfTensor t => concat (concat (t_items t))
               end in
  Tensor (1, 1, length items) [[items]].

(** [numpy.array(d, dtype=...)] of ragged data cannot fill a numeric array. *)
Definition np_array {A} (d : pyseq A) : res (pyseq A) :=
  if regular d then inr d
  else inl (ValueError "setting an array element with a sequence.").

Definition np_array_like (a : array_like) : res array_like :=
  match a with
  | OfSeq d => (d' <- np_array d ;; inr (OfSeq d'))%E
  | OfTensor t => inr a
  end.

(** *** Broadcasting *)

Definition bshape (n1 n2 : nat) : option nat :=
  if n1 =? n2 then Some n1
  else if n1 =? 1 then Some n2
  else if n2 =? 1 then Some n1
  else None.

Definition stretch {A} (n : nat) (l : list A) : list A :=
  if length l =? n then l
  else match l with x :: _ => replicate n x | [] => [] end.

Definition bzip {A B R} (n : nat) (f : A -> B -> R) (l1 : list A) (l2 : list B) : list R :=
  zip_with f (stretch n l1) (stretch n l2).

Definition broadcast_error : exn :=
  ValueError "operands could not be broadcast together".

(** An elementwise binary operation on 1-d arrays. *)
Definition elementwise1 {A B R} (f : A -> B -> R) (l1 : list A) (l2 : list B) : res (list R) :=
  match bshape (length l1) (length l2) with
  | Some n => inr (bzip n f l1 l2)
  | None => inl broadcast_error
  end.

(** An elementwise binary operation on 2-d arrays. *)
Definition elementwise2 {A B R} (f : A -> B -> R) (a : matrix A) (b : matrix B) : res (matrix R) :=
  let '(r1, c1) := m_shape a in
  let '(r2, c2) := m_shape b in
  match bshape r1 r2, bshape c1 c2 with
  | Some r, Some c => inr (Matrix (r, c) (bzip r (bzip c f) (m_rows a) (m_rows b)))
  | _, _ => inl broadcast_error
  end.

(** An elementwise binary operation on 3-d arrays. *)
Definition elementwise3 {A B R} (f : A -> B -> R) (a : tensor A) (b : tensor B) : res (tensor R) :=
  let '(p1, m1, n1) := t_shape a in
  let '(p2, m2, n2) := t_shape b in
  match bshape p1 p2, bshape m1 m2, bshape n1 n2 with
  | Some p, Some m, Some n =>
      inr (Tensor (p, m, n) (bzip p (bzip m (bzip n f)) (t_items a) (t_items b)))
  | _, _, _ => inl broadcast_error
  end.

Definition tmap {A B} (f : A -> B) (t : tensor A) : tensor B :=
  Tensor (t_shape t) (map (map (map f)) (t_items t)).

Definition mmap {A B} (f : A -> B) (a : matrix A) : matrix B :=
  Matrix (m_shape a) (map (map f) (m_rows a)).

(** *** Slices along the frequency axis *)

(** [t[i, j, :]] *)
Definition column {A} (t : tensor A) (i j : nat) : res (list A) :=
  let '(p, m, _) := t_shape t in
  if (i <? p) && (j <? m) then
    match t_items t !! i ≫= (.!! j) with
    | Some col => inr col
    | None => inl (IndexError "index out of bounds")
    end
  else inl (IndexError "index out of bounds").

(** [t[:, :, k]] *)
Definition slice {A} (z : A) (t : tensor A) (k : nat) : res (matrix A) :=
  let '(p, m, n) := t_shape t in
  if k <? n then inr (Matrix (p, m) (map (map (fun col => nth k col z)) (t_items t)))
  else inl (IndexError "index out of bounds").

(** [t[:, :, k] = a]: the value is broadcast to the slice. *)
Definition set_slice {A} (t : tensor A) (k : nat) (a : matrix A) : res (tensor A) :=
  let '(p, m, _) := t_shape t in
  let '(r, c) := m_shape a in
  if ((r =? p) || (r =? 1)) && ((c =? m) || (c =? 1)) then
    inr (Tensor (t_shape t)
           (zip_with (fun row arow => zip_with (fun col v => <[k:=v]> col) row (stretch m arow))
                     (t_items t) (stretch p (m_rows a))))
  else inl (ValueError "could not broadcast input array into shape").

(** *** Matrices ([numpy.matrix] products, [numpy.eye]) *)

Definition eye (n : nat) : matrix C :=
  Matrix (n, n) (map (fun i => map (fun j => if i =? j then C1 else C0) (seq 0 n)) (seq 0 n)).

Definition Csum (l : list C) : C := foldr Cadd C0 l.

Definition mcol {A} (z : A) (rows : list (list A)) (j : nat) : list A :=
  map (fun row => nth j row z) rows.

(** [a * b] for two [numpy.matrix] operands *)
Definition matmul (a b : matrix C) : res (matrix C) :=
  let '(r1, c1) := m_shape a in
  let '(r2, c2) := m_shape b in
  if c1 =? r2 then
    inr (Matrix (r1, c2)
           (map (fun arow => map (fun j => Csum (zip_with Cmul arow (mcol C0 (m_rows b) j)))
                                 (seq 0 c2))
                (m_rows a)))
  else inl (ValueError "matrices are not aligned").

(** *** Sorting ([ndarray.sort], ascending, in place where the array is shared) *)

Fixpoint insert_asc (x : Q) (l : list Q) : list Q :=
  match l with
  | [] => [x]
  | y :: l' => if Qle_bool x y then x :: l else y :: insert_asc x l'
  end.

Definition sort_asc (l : list Q) : list Q := foldr insert_asc [] l.

Fixpoint ascending (l : list Q) : bool :=
  match l with
  | [] => true
  | x :: l' => match l' with [] => true | y :: _ => Qle_bool x y end && ascending l'
  end.

(** Python's [min] and [max] over a sequence. *)
Definition py_min (l : list Q) : res Q :=
  match l with
  | [] => inl (ValueError "min() arg is an empty sequence")
  | x :: l' => inr (foldl (fun m y => if Qltb y m then y else m) x l')
  end.

Definition py_max (l : list Q) : res Q :=
  match l with
  | [] => inl (ValueError "max() arg is an empty sequence")
  | x :: l' => inr (foldl (fun m y => if Qltb m y then y else m) x l')
  end.

(** The truth value of a 1-d array. *)
Definition array_truth (l : list Q) : res bool :=
  match l with
  | [] => inr false
  | [x] => inr (negb (Qeq_bool x 0))
  | _ => inl (ValueError "The truth value of an array with more than one element is ambiguous.")
  end.

(** [l[0]] and [l[-1]] *)
Definition first_item (l : list Q) : res Q :=
  match l with x :: _ => inr x | [] => inl (IndexError "index out of bounds") end.

Definition last_item (l : list Q) : res Q :=
  match last l with Some x => inr x | None => inl (IndexError "index out of bounds") end.

(** ** The numerical routines the module imports *)

(** FITPACK's representation of a spline: knots, coefficients, degree. *)
Definition tck : Type := list Q * list (list Q) * nat.

Class Numerics := {
  (** [scipy.interpolate.splprep(x=…, w=…, u=…, s=…)], first component *)
  splprep : list (list Q) -> list Q -> list Q -> Q -> res tck;
  (** [scipy.interpolate.splev(u, tck, der=0)], the two coordinates *)
  splev : Q -> tck -> Q * Q;
  (** [numpy.absolute] and [numpy.angle] of a complex number *)
  absolute : C -> Q;
  angle : C -> Q;
  (** [numpy.linalg.solve] *)
  linalg_solve : matrix C -> matrix C -> res (matrix C)
}.

(** ** Objects and the heap *)

Definition loc := nat.

(** Modelled from the spec: the base class [Lti] (lti.py), of which only the
    import is in the sources.  It provides the input and output counts, set
    by [Lti.__init__(self, inputs, outputs)], and the contract that a system
    evaluates to a complex matrix at a frequency; it gives its instances no
    other attribute. *)
Record Lti := {
  lti_inputs : nat;
  lti_outputs : nat;
  lti_evalfr : Q -> res (matrix C)
}.

(** An [FRD] instance: the attributes [__init__] assigns ([omega], [fresp],
    [ifunc]) and those [Lti.__init__] assigns ([inputs], [outputs]). *)
Record FRD := {
  omega : loc;
  fresp : loc;
  ifunc : list (list tck);
  inputs : nat;
  outputs : nat
}.

Inductive cell :=
| RealVec (ws : list Q)
| CplxTensor (t : tensor C)
| Instance_ (o : FRD).

Record state := State {
  heap : list cell;
  stdout : list string
}.

(** Operands of the operators and of [_convertToFRD]. *)
Inductive pyval :=
| VNum (x : pynum)
| VFRD (r : loc)
| VLti (s : Lti)
| VSeq (d : pyseq Q)
| VNone.

(** ** Stateful computations that may raise *)

Definition M (A : Type) : Type := state -> state * res A.

Definition ret {A} (a : A) : M A := fun st => (st, inr a).
Definition raise {A} (e : exn) : M A := fun st => (st, inl e).
Definition bind {A B} (m : M A) (k : A -> M B) : M B :=
  fun st => match m st with
            | (st', inr a) => k a st'
            | (st', inl e) => (st', inl e)
            end.
Definition lift {A} (r : res A) : M A := fun st => (st, r).

Declare Scope M_scope.
Delimit Scope M_scope with M.
Bind Scope M_scope with M.
Notation "x <- m ;; k" := (bind m (fun x => k))
  (at level 63, m at next level, right associativity) : M_scope.
Notation "m ;;; k" := (bind m (fun _ => k))
  (at level 63, right associativity) : M_scope.

(** What a location holds, by kind. *)
Definition axis (st : state) (l : loc) : option (list Q) :=
  match heap st !! l with Some (RealVec ws) => Some ws | _ => None end.

Definition tensor_at (st : state) (l : loc) : option (tensor C) :=
  match heap st !! l with Some (CplxTensor t) => Some t | _ => None end.

Definition instance (st : state) (l : loc) : option FRD :=
  match heap st !! l with Some (Instance_ o) => Some o | _ => None end.

Definition deref {A} (read : state -> option A) : M A :=
  fun st => match read st with
            | Some a => (st, inr a)
            | None => (st, inl DanglingReference)
            end.

Definition get_vec (l : loc) : M (list Q) := deref (fun st => axis st l).
Definition get_tensor (l : loc) : M (tensor C) := deref (fun st => tensor_at st l).
Definition get_obj (l : loc) : M FRD := deref (fun st => instance st l).

Definition alloc (c : cell) : M loc :=
  fun st => (State (heap st ++ [c]) (stdout st), inr (length (heap st))).

Definition print (s : string) : M unit :=
  fun st => (State (heap st) (stdout st ++ [s]), inr tt).

(** [omega.sort()]: the array at [l] is replaced by its sorted contents. *)
Definition sort_at (l : loc) (st : state) : state :=
  match axis st l with
  | Some ws => State (<[l := RealVec (sort_asc ws)]> (heap st)) (stdout st)
  | None => st
  end.

Definition sort_inplace (l : loc) : M unit :=
  fun st => match axis st l with
            | Some _ => (sort_at l st, inr tt)
            | None => (st, inl DanglingReference)
            end.

(** [try: m  except: h] with a bare [except]. *)
Definition try_except {A} (m : M A) (h : M A) : M A :=
  fun st => match m st with
            | (st', inr a) => (st', inr a)
            | (st', inl _) => h st'
            end.

(** ** class FRD(Lti)

    Methods take [self] as a location and read the instance there; the
    attributes of an instance are never reassigned after [__init__]. *)

Section FRD.
Context `{Numerics}.

Local Open Scope M_scope.

Definition shape_error : exn :=
  TypeError "The frequency data constructor needs a 1-d or 3-d response data array and a matching frequency vector size".

(** What [__init__] is called with: [FRD(sys, omega)] for an [Lti] that is
    not an [FRD], with the frequency range as a sequence; [FRD(d, w)] for
    response data and a frequency vector, an array of reals; one argument;
    any other number. *)
Inductive init_args :=
| Args_lti (otherlti : Lti) (w : list Q)
| Args_data (d : array_like) (w : ndarray Q)
| Args_one (a : pyval)
| Args_other (n : nat).

(** The interpolation functions: for [i] in [range(fresp.shape[1])] and [j]
    in [range(fresp.shape[0])], a spline through [fresp[i, j, :]]. *)
Definition build_ifunc (t : tensor C) (om : list Q) : res (list (list tck)) :=
  let '(s0, s1, _) := t_shape t in
  mapE (fun i =>
    mapE (fun j =>
      (col <- column t i j ;;
       splprep [map re col; map im col]
               (map (fun z => 1 / (absolute z + 0.001))%Q col) om 0%Q)%E)
      (seq 0 s0))
    (seq 0 s1).

(** The end of [__init__]: the splines, then [Lti.__init__(self,
    fresp.shape[1], fresp.shape[0])].  The arrays are reachable only through
    the instance, so the heap receives them when the construction succeeds. *)
Definition finish_init (om : loc + list Q) (fr : loc + tensor C) : M loc :=
  ws <- match om with inl l => get_vec l | inr ws => ret ws end ;;
  t <- match fr with inl l => get_tensor l | inr t => ret t end ;;
  f <- lift (build_ifunc t ws) ;;
  lo <- match om with inl l => ret l | inr ws => alloc (RealVec ws) end ;;
  lf <- match fr with inl l => ret l | inr t => alloc (CplxTensor t) end ;;
  let '(s0, s1, _) := t_shape t in
  alloc (Instance_ {| omega := lo; fresp := lf; ifunc := f; inputs := s1; outputs := s0 |}).

(** Sampling a system along an axis:
    [for k, w in enumerate(omega): fresp[:, :, k] = sys.evalfr(w)] *)
Definition sample (ev : Q -> res (matrix C)) (shape : nat * nat * nat) (ws : list Q)
  : res (tensor C) :=
  foldE (fun t kw => (a <- ev kw.2 ;; set_slice t kw.1 a)%E) (empty3 C0 shape) (enumerate ws).

Definition __init__ (args : init_args) : M loc :=
  match args with
  | Args_lti otherlti w =>
      (* self.omega = array(args[1], dtype=float); self.omega.sort() *)
      let om := sort_asc w in
      let numfreq := length om in
      t <- lift (sample (lti_evalfr otherlti)
                        (lti_outputs otherlti, lti_inputs otherlti, numfreq) om) ;;
      finish_init (inr om) (inr t)
  | Args_data d w =>
      a <- lift (np_array_like d) ;;
      (* if len(self.fresp.shape) == 1: self.fresp.reshape(1, 1, len(args[0]))
         the reshaped array is computed and dropped: self.fresp is not rebound *)
      let _ := if length (shape_of a) =? 1 then Some (reshape_1_1_n a) else None in
      (* self.omega = array(args[1]) *)
      if negb (length (shape_of a) =? 3) then raise shape_error else
      match last (shape_of a), last (nd_shape w) with
      | _, None => raise (IndexError "tuple index out of range")
      | n, Some n' =>
          if negb (bool_decide (n = Some n')) || negb (length (nd_shape w) =? 1)
          then raise shape_error
          else finish_init (inr (nd_items w)) (inr (tensor_of a))
      end
  | Args_one (VFRD r) =>
      o <- get_obj r ;;
      finish_init (inl (omega o)) (inl (fresp o))
  | Args_one _ =>
      raise (TypeError "The one-argument constructor can only take in an FRD object.  Received %s.")
  | Args_other n =>
      raise (ValueError "Needs 1 or 2 arguments; receivd %i.")
  end.

(** [self.evalfr(omega)] *)
Definition evalfr (self : FRD) (w : Q) : res (matrix C) :=
  (rows <- mapE (fun i =>
             mapE (fun j =>
               match ifunc self !! i ≫= (.!! j) with
               | Some f => let frraw := splev w f in inr (Cplx frraw.1 frraw.2)
               | None => inl (IndexError "index out of bounds")
               end)
               (seq 0 (inputs self)))
             (seq 0 (outputs self)) ;;
   inr (Matrix (outputs self, inputs self) rows))%E.

(** [self.freqresp(omega)]: [omega] is the caller's sequence. *)
Definition freqresp (self : loc) (omega_ : loc) : M (tensor Q * tensor Q * loc) :=
  me <- get_obj self ;;
  ws <- get_vec omega_ ;;
  let numfreq := length ws in
  let mag := empty3 0%Q (outputs me, inputs me, numfreq) in
  let phase := empty3 0%Q (outputs me, inputs me, numfreq) in
  sort_inplace omega_ ;;;
  ws <- get_vec omega_ ;;
  mp <- lift (foldE (fun (mp : tensor Q * tensor Q) kw =>
                 (fr <- evalfr me kw.2 ;;
                  mag <- set_slice mp.1 kw.1 (mmap absolute fr) ;;
                  phase <- set_slice mp.2 kw.1 (mmap angle fr) ;;
                  inr (mag, phase))%E)
               (mag, phase) (enumerate ws)) ;;
  ret (mp.1, mp.2, omega_).

Definition epsw : Q := 0.00000001.

Definition _convertToFRD (sys : pyval) (omega_ : loc) (inputs_ outputs_ : nat) : M loc :=
  match sys with
  | VFRD r =>
      sort_inplace omega_ ;;;
      ws <- get_vec omega_ ;;
      s <- get_obj r ;;
      sws <- get_vec (omega s) ;;
      close <- lift (elementwise1 (fun a b => Qltb (Qabs (a - b)) epsw) ws sws) ;;
      if forallb id close then
        (* frequencies match, and system was already frd; simply use *)
        ret r
      else
        (* omega becomes lowest common range *)
        lo <- lift (py_min sws) ;;
        let om1 := List.filter (fun w => Qle_bool lo w) ws in
        hi <- lift (py_max sws) ;;
        let om2 := List.filter (fun w => Qle_bool w hi) om1 in
        some <- lift (array_truth om2) ;;
        if negb some then raise (ValueError "Frequency ranges of FRD do not overlap") else
        w0 <- lift (first_item om2) ;;
        s0 <- lift (first_item sws) ;;
        if Qltb epsw (w0 - s0) then
          raise (AttributeError "'numpy.ndarray' object has no attribute 'insert'")
        else
        sl <- lift (last_item sws) ;;
        wl <- lift (last_item om2) ;;
        if Qltb epsw (sl - wl) then
          raise (AttributeError "'numpy.ndarray' object has no attribute 'append'")
        else
        print "Adjusting frequency range in FRD" ;;;
        t <- lift (sample (evalfr s) (outputs s, inputs s, length om2) om2) ;;
        __init__ (Args_data (OfTensor t) (vec om2))
  | VLti s =>
      sort_inplace omega_ ;;;
      ws <- get_vec omega_ ;;
      t <- lift (sample (lti_evalfr s) (lti_outputs s, lti_inputs s, length ws) ws) ;;
      __init__ (Args_data (OfTensor t) (vec ws))
  | VNum x =>
      ws <- get_vec omega_ ;;
      (* ones((outputs, inputs, len(omega)), dtype=float)*sys *)
      __init__ (Args_data (OfTensor (constant3 (complex_of x) (outputs_, inputs_, length ws)))
                          (vec ws))
  | VSeq d =>
      (* try converting constant matrices *)
      try_except
        (ws <- get_vec omega_ ;;
         match (if regular d then seq_shape d else [length (children d)]) with
         | [outputs_; inputs_] =>
             let t := Tensor (outputs_, inputs_, length ws)
                        (map (fun row => map (fun x => replicate (length ws) (C_of_Q x))
                                             (leaves row))
                             (children d)) in
             __init__ (Args_data (OfTensor t) (vec ws))
         | _ => raise (ValueError "need more than 1 value to unpack")
         end)
        (raise (TypeError "Can't convert given type %s to FRD system."))
  | VNone =>
      raise (TypeError "Can't convert given type %s to FRD system.")
  end.

(** *** Operators *)

(** [self.num], [self.den]: an instance has the attributes of the record
    [FRD], the class attribute [epsw] and the methods of the class; [Lti]
    adds none, so that looking up any other name raises. *)
Definition no_attribute (name : string) : exn :=
  AttributeError ("FRD instance has no attribute '" ++ name ++ "'").

Definition is_number (v : pyval) : bool :=
  match v with VNum _ => true | _ => false end.

Definition __neg__ (self : loc) : M loc :=
  me <- get_obj self ;;
  t <- get_tensor (fresp me) ;;
  ws <- get_vec (omega me) ;;
  __init__ (Args_data (OfTensor (tmap Copp t)) (vec ws)).

Definition __add__ (self : loc) (other : pyval) : M loc :=
  me <- get_obj self ;;
  match other with
  | VFRD r =>
      (* verify that the frequencies match *)
      o <- get_obj r ;;
      ows <- get_vec (omega o) ;;
      ws <- get_vec (omega me) ;;
      match bshape (length ows) (length ws) with
      | Some n =>
          if existsb id (bzip n (fun a b => negb (Qeq_bool a b)) ows ws)
          then print "Warning: frequency points do not match; expect truncation and interpolation"
          else ret tt
      | None =>
          (* the comparison of arrays that do not broadcast is the bool True *)
          raise (AttributeError "'bool' object has no attribute 'any'")
      end
  | _ => ret tt
  end ;;;
  (* Convert the second argument to a frequency response function,
     or re-base the frd to the current omega (if needed) *)
  other <- _convertToFRD other (omega me) 1 1 ;;
  o <- get_obj other ;;
  (* Check that the input-output sizes are consistent. *)
  if negb (inputs me =? inputs o) then
    raise (ValueError "The first summand has %i input(s), but the second has %i.")
  else if negb (outputs me =? outputs o) then
    raise (ValueError "The first summand has %i output(s), but the second has %i.")
  else
    t1 <- get_tensor (fresp me) ;;
    t2 <- get_tensor (fresp o) ;;
    t <- lift (elementwise3 Cadd t1 t2) ;;
    ws <- get_vec (omega o) ;;
    __init__ (Args_data (OfTensor t) (vec ws)).

Definition __radd__ (self : loc) (other : pyval) : M loc := __add__ self other.

(** [[[v] for j in range(inputs)] for i in range(outputs)] *)
Definition prealloc {A} (v : A) (outputs_ inputs_ : nat) : pyseq A :=
  Node (map (fun _ => Node (map (fun _ => Node [Leaf v]) (seq 0 inputs_))) (seq 0 outputs_)).

(** A [for] loop run for its effects. *)
Fixpoint for_ {A} (l : list A) (body : A -> M unit) : M unit :=
  match l with
  | [] => ret tt
  | a :: l' => body a ;;; for_ l' body
  end.

Definition __mul__ (self : loc) (other : pyval) : M loc :=
  me <- get_obj self ;;
  (* Convert the second argument to a transfer function. *)
  other <- (if is_number other
            then _convertToFRD other (omega me) (inputs me) (inputs me)
            else _convertToFRD other (omega me) 1 1) ;;
  o <- get_obj other ;;
  (* Check that the input-output sizes are consistent. *)
  if negb (inputs me =? outputs o) then
    raise (ValueError "C = A * B: A has %i column(s) (input(s)), but B has %i row(s) (output(s)).")
  else
    let inputs_ := inputs o in
    let outputs_ := outputs me in
    (* Preallocate the numerator and denominator of the sum. *)
    let num := prealloc C0 outputs_ inputs_ in
    let den := prealloc 1%Q outputs_ inputs_ in
    for_ (seq 0 outputs_) (fun i =>
      for_ (seq 0 inputs_) (fun j =>
        for_ (seq 0 (inputs me)) (fun k =>
          (* num_summand[k] = polymul(self.num[i][k], other.num[k][j]): the
             first argument is evaluated first and its attribute lookup
             raises; nothing after it in the body is reached *)
          raise (no_attribute "num")))) ;;;
    __init__ (Args_data (OfSeq num) (of_seq den)).

Definition __rmul__ (self : loc) (other : pyval) : M loc := __mul__ self other.

Definition __div__ (self : loc) (other : pyval) : M loc :=
  me <- get_obj self ;;
  other <- (if is_number other
            then _convertToFRD other (omega me) (inputs me) (inputs me)
            else _convertToFRD other (omega me) 1 1) ;;
  o <- get_obj other ;;
  if (1 <? inputs me) || (1 <? outputs me) || (1 <? inputs o) || (1 <? outputs o) then
    raise (NotImplementedError "FRD.__div__ is currently implemented only for SISO systems.")
  else
    (* num = polymul(self.num[0][0], other.den[0][0]) *)
    raise (no_attribute "num").

Definition __rdiv__ (self : loc) (other : pyval) : M loc :=
  me <- get_obj self ;;
  other <- (if is_number other
            then _convertToFRD other (omega me) (inputs me) (inputs me)
            else _convertToFRD other (omega me) 1 1) ;;
  o <- get_obj other ;;
  if (1 <? inputs me) || (1 <? outputs me) || (1 <? inputs o) || (1 <? outputs o) then
    raise (NotImplementedError "FRD.__rdiv__ is currently implemented only for SISO systems.")
  else
    __div__ other (VFRD self).

(** [FRD([1],[1])] *)
Definition unity_args : init_args := Args_data (OfSeq (vector [C1])) (vec [1%Q]).

(** [__pow__] for an exponent of type [int].  The recursion is on the
    distance of the exponent to zero; [fuel] bounds its depth. *)
Fixpoint pow_int (fuel : nat) (self : loc) (other : Z) : M loc :=
  if (other =? 0)%Z then
    __init__ unity_args (* unity *)
  else
    match fuel with
    | O => raise (RuntimeError "maximum recursion depth exceeded")
    | S fuel' =>
        if (0 <? other)%Z then
          rhs <- pow_int fuel' self (other - 1) ;;
          __mul__ self (VFRD rhs)
        else
          unity <- __init__ unity_args ;;
          lhs <- __div__ unity (VFRD self) ;;
          rhs <- pow_int fuel' self (other + 1) ;;
          __mul__ lhs (VFRD rhs)
    end.

Definition __pow__ (self : loc) (other : pyval) : M loc :=
  match other with
  | VNum (PyInt n) => pow_int (Z.abs_nat n) self n
  | _ => raise (ValueError "Exponent must be an integer")
  end.

(** [linalg.solve(eye(n) + p * c, eye(n)) * p], the value that the loop of
    [feedback] stores at a sample, for [n = self.inputs] and the matrices
    [p] and [c] of the two responses at that sample. *)
Definition feedback_sample (n : nat) (p c : matrix C) : res (matrix C) :=
  (pc <- matmul p c ;;
   a <- elementwise2 Cadd (eye n) pc ;;
   x <- linalg_solve a (eye n) ;;
   matmul x p)%E.

(** The body of the loop of [feedback],
    [fresp[:, :, k] = linalg.solve(...) * self.fresp[:, :, k]], for the pair
    [(k, w)] that [enumerate(other.omega)] yields. *)
Definition feedback_loop (n : nat) (t1 t2 : tensor C) (t : tensor C) (kw : nat * Q)
  : res (tensor C) :=
  (p <- slice C0 t1 kw.1 ;;
   c <- slice C0 t2 kw.1 ;;
   y <- feedback_sample n p c ;;
   set_slice t kw.1 y)%E.

(** [self.feedback(other, sign=-1)] *)
Definition feedback (self : loc) (other : pyval) (sign : pynum) : M loc :=
  me <- get_obj self ;;
  other <- _convertToFRD other (omega me) 1 1 ;;
  o <- get_obj other ;;
  if negb (outputs me =? inputs o) || negb (inputs me =? outputs o) then
    raise (ValueError "FRD.feedback, inputs/outputs mismatch")
  else
    ows <- get_vec (omega o) ;;
    t1 <- get_tensor (fresp me) ;;
    t2 <- get_tensor (fresp o) ;;
    t <- lift (foldE (feedback_loop (inputs me) t1 t2)
                     (empty3 C0 (outputs me, inputs me, length ows)) (enumerate ows)) ;;
    __init__ (Args_data (OfTensor t) (vec ows)).

End FRD.

(** ** A kernel for concrete runs

    The properties below hold for every instance of [Numerics].  To run the
    program on concrete inputs an instance is needed; this one asks for more
    than three samples, as a cubic fit does, and interpolates by holding the
    last sample at or below the query (so it passes through every sample),
    measures a complex number by the sum of the magnitudes of its parts and
    gives every number the angle zero (both exact on the non-negative reals
    used in the runs), and solves 1x1 systems. *)

Definition hold_splprep (x : list (list Q)) (w u : list Q) (s : Q) : res tck :=
  if length u <=? 3 then inl (TypeError "m > k must hold") else inr (u, x, 3).

Fixpoint hold (w : Q) (t xs ys : list Q) (cur : Q * Q) : Q * Q :=
  match t, xs, ys with
  | u :: t', x :: xs', y :: ys' => hold w t' xs' ys' (if Qle_bool u w then (x, y) else cur)
  | _, _, _ => cur
  end.

Definition hold_splev (w : Q) (f : tck) : Q * Q :=
  let xs := nth 0 f.1.2 [] in
  let ys := nth 1 f.1.2 [] in
  hold w f.1.1 xs ys (nth 0 xs 0%Q, nth 0 ys 0%Q).

Definition Cinv (a : C) : C :=
  let d := (re a * re a + im a * im a)%Q in Cplx (re a / d) (- im a / d).

Definition solve1 (a b : matrix C) : res (matrix C) :=
  match m_rows a with
  | [[x]] =>
      if Qeq_bool (re x) 0 && Qeq_bool (im x) 0 then inl (LinAlgError "Singular matrix")
      else inr (mmap (Cmul (Cinv x)) b)
  | _ => inl (LinAlgError "only 1x1 systems are solved by this kernel")
  end.

Definition hold_kernel : Numerics := {|
  splprep := hold_splprep;
  splev := hold_splev;
  absolute := fun z => (Qabs (re z) + Qabs (im z))%Q;
  angle := fun _ => 0%Q;
  linalg_solve := solve1
|}.

Definition empty_state : state := State [] [].

(** Two SISO models on the axis [1, 2, 3, 4] with constant responses 2 and 4,
    as built by [FRD(2 * ones((1, 1, 4)), [1, 2, 3, 4])] and the like: the
    first is at location 2, the second at location 5. *)
Definition two_models : state :=
  let k := hold_kernel in
  let st1 := (__init__ (Args_data (OfTensor (constant3 (Cplx 2 0) (1, 1, 4)))
                                  (vec [1; 2; 3; 4]%Q)) empty_state).1 in
  (__init__ (Args_data (OfTensor (constant3 (Cplx 4 0) (1, 1, 4)))
                       (vec [1; 2; 3; 4]%Q)) st1).1.


(** ** Notions used to state the properties *)

(** [(abs(ws - sws) < FRD.epsw).all()], false when the arrays do not broadcast *)
Definition allclose (ws sws : list Q) : bool :=
  match elementwise1 (fun a b => Qltb (Qabs (a - b)) epsw) ws sws with
  | inr close => forallb id close
  | inl _ => false
  end.

(** Every value of [st] is still in [st'], at the same location. *)
Definition extends (st st' : state) : Prop :=
  forall l c, heap st !! l = Some c -> heap st' !! l = Some c.

(** A computation that only allocates and prints. *)
Definition stable {A} (m : M A) : Prop := forall st, extends st (m st).1.

(** [r] names a model of [st] with axis [ws] and response tensor [t]: an
    instance in the state that [__init__] leaves it in. *)
Record model (st : state) (r : loc) (me : FRD) (ws : list Q) (t : tensor C) : Prop := {
  model_instance : instance st r = Some me;
  model_axis : axis st (omega me) = Some ws;
  model_tensor : tensor_at st (fresp me) = Some t;
  model_wf : tensor_wf t;
  model_shape : t_shape t = (outputs me, inputs me, length ws);
  model_square : inputs me = outputs me \/ inputs me = 0 \/ outputs me = 0;
  model_ifunc : length (ifunc me) = inputs me /\
                Forall (fun row => length row = outputs me) (ifunc me)
}.

(** The element-wise sum of two response tensors of one shape. *)
Definition tensor_add (ta tb : tensor C) : tensor C :=
  Tensor (t_shape ta) (zip_with (zip_with (zip_with Cadd)) (t_items ta) (t_items tb)).

(** Shapes of nested lists: [p] rows of [m] columns of [n] items. *)
Definition items_wf {A} (p m n : nat) (items : list (list (list A))) : Prop :=
  length items = p /\
  Forall (fun row => length row = m /\ Forall (fun col => length col = n) row) items.

Definition rows_wf {A} (p m : nat) (rows : list (list A)) : Prop :=
  length rows = p /\ Forall (fun row => length row = m) rows.

(** The items of [t] after [t[:, :, k] = a], without broadcasting, and the
    rows of [t[:, :, k]]. *)
Definition put_slice {A} (k : nat) (items : list (list (list A))) (rows : list (list A))
  : list (list (list A)) :=
  zip_with (fun row arow => zip_with (fun col v => <[k:=v]> col) row arow) items rows.

Definition get_slice {A} (z : A) (k : nat) (items : list (list (list A))) : list (list A) :=
  map (map (fun col => nth k col z)) items.

(** The state after a successful construction from fresh arrays. *)
Definition constructed (st : state) (ws : list Q) (t : tensor C) (f : list (list tck)) : state :=
  State (heap st ++ [RealVec ws; CplxTensor t;
                     Instance_ {| omega := length (heap st); fresp := S (length (heap st));
                                  ifunc := f; inputs := (t_shape t).1.2;
                                  outputs := (t_shape t).1.1 |}])
        (stdout st).

Section Notions.
Context `{Numerics}.

(** [(I + P C)^-1 P] by a linear solve: with [I] the identity of the size of
    [P C], the solution [X] of [(I + P C) X = I], multiplied by [P]. *)
Definition closed_loop (p c : matrix C) : res (matrix C) :=
  (pc <- matmul p c ;;
   a <- elementwise2 Cadd (eye (m_shape pc).1) pc ;;
   x <- linalg_solve a (eye (m_shape pc).1) ;;
   matmul x p)%E.

(** What holds of the tensor that [feedback] fills, after [k] samples. *)
Definition filled (po m n : nat) (ta tb : tensor C) (k : nat) (t : tensor C) : Prop :=
  t_shape t = (po, m, n) /\ items_wf po m n (t_items t) /\
  forall k', k' < k ->
    exists p c y, slice C0 ta k' = inr p /\ slice C0 tb k' = inr c /\
                  closed_loop p c = inr y /\ slice C0 t k' = inr y.

(** What the properties need of [numpy.linalg.solve]: a solution of
    [a x = b] has the shape of [b]. *)
Definition solve_keeps_shape : Prop :=
  forall a b x, matrix_wf b -> linalg_solve a b = inr x ->
                m_shape x = m_shape b /\ matrix_wf x.

End Notions.

(** The state of the two models with a caller's sequence [3, 1, 2], at
    location 6. *)
Definition with_sweep : state :=
  State (heap two_models ++ [RealVec [3; 1; 2]%Q]) (stdout two_models).

(** ** The remaining methods of the class *)

(** [-x] for a number; the negative keeps the type of [x]. *)
Definition pynum_neg (x : pynum) : pynum :=
  match x with
  | PyInt n => PyInt (- n)
  | PyLong n => PyLong (- n)
  | PyFloat q => PyFloat (- q)
  | PyComplex z => PyComplex (Copp z)
  end.

Section Subtraction.
Context `{Numerics}.

(** The other system classes are not in the sources: what [-sys] and
    [sys + frd] do for an [Lti] that is not an [FRD] is left open. *)
Variable lti_neg : Lti -> M pyval.
Variable lti_add : Lti -> loc -> M pyval.

Local Open Scope M_scope.

(** [-other]: [FRD.__neg__] for a model, the negative of a number; a list
    and [None] have no negative. *)
Definition negative (other : pyval) : M pyval :=
  match other with
  | VNum x => ret (VNum (pynum_neg x))
  | VFRD r => r' <- __neg__ r ;; ret (VFRD r')
  | VLti s => lti_neg s
  | VSeq _ => raise (TypeError "bad operand type for unary -: 'list'")
  | VNone => raise (TypeError "bad operand type for unary -: 'NoneType'")
  end.

(** [self + (-other)] *)
Definition __sub__ (self : loc) (other : pyval) : M loc :=
  nother <- negative other ;;
  __add__ self nother.

(** [other + (-self)]: the negative of [self] is computed first.  The sum
    is [FRD.__add__] of [other] when that is a model; a number, a list and
    [None] cannot add a model themselves, and Python calls the reflected
    [__radd__] of the right operand. *)
Definition __rsub__ (self : loc) (other : pyval) : M pyval :=
  nself <- __neg__ self ;;
  match other with
  | VFRD r => r' <- __add__ r (VFRD nself) ;; ret (VFRD r')
  | VLti s => lti_add s nself
  | _ => r' <- __radd__ nself other ;; ret (VFRD r')
  end.

End Subtraction.

(** A [for] loop that collects a value from each round. *)
Fixpoint mapM {A B} (f : A -> M B) (l : list A) : M (list B) :=
  match l with
  | [] => ret []
  | a :: l' => (b <- f a ;; bs <- mapM f l' ;; ret (b :: bs))%M
  end.

Definition newline : string := String (Ascii.ascii_of_nat 10) EmptyString.

Section Listing.
Context `{Numerics}.

(** ['%12.3f  %10.4g + %10.4g' % (w, m, p)]: how Python renders the three
    floats is left open. *)
Variable format_row : Q -> Q -> Q -> string.

Local Open Scope M_scope.

(** [self.__str__()].  The magnitudes and phases that [freqresp] returns are
    not used; the frequencies listed are those of the array it returns,
    which is [self.omega] itself. *)
Definition __str__ (self : loc) : M string :=
  me <- get_obj self ;;
  let mimo := (1 <? inputs me) || (1 <? outputs me) in
  let outstr := ["frequency response data "] in
  mpw <- freqresp self (omega me) ;;
  let wt := mpw.2 in
  blocks <- mapM (fun i =>
    mapM (fun j =>
      let title :=
        if mimo
        then ["Input " ++ pretty (i + 1) ++ " to output " ++ pretty (j + 1) ++ ":"]
        else [] in
      t <- get_tensor (fresp me) ;;
      col <- lift (column t i j) ;;
      ws <- get_vec wt ;;
      ret (title ++
           ["Freq [rad/s]  Magnitude    Phase";
            "------------  -----------  -----------"] ++
           zip_with (fun (mp : Q * Q) w => format_row w mp.1 mp.2)
                    (zip (map re col) (map im col)) ws)%list)
      (seq 0 (outputs me)))
    (seq 0 (inputs me)) ;;
  ret (String.concat newline (outstr ++ concat (concat blocks))).

End Listing.

(** ** Further notions used to state the properties *)

(** What may become of a state when a method runs: an axis is replaced by
    its ascending sort at most, every other value stays where it is, and
    nothing is freed. *)
Definition evolves (st st' : state) : Prop :=
  forall (l : loc) c, heap st !! l = Some c ->
    match c with
    | RealVec ws => heap st' !! l = Some (RealVec ws) \/
                    heap st' !! l = Some (RealVec (sort_asc ws))
    | _ => heap st' !! l = Some c
    end.

(** A computation under which every state evolves. *)
Definition tame {A} (m : M A) : Prop := forall st, evolves st (m st).1.

(** The element-wise opposite, and the sum with a constant, of a tensor. *)
Definition tensor_neg (t : tensor C) : tensor C := tmap Copp t.

Definition tensor_shift (c : C) (t : tensor C) : tensor C := tmap (fun z => Cadd z c) t.

(** [(other.omega != self.omega).any()] for two axes of one length, and the
    warning that [__add__] prints when it holds. *)
Definition mismatch (ows ws : list Q) : bool :=
  existsb id (zip_with (fun a b => negb (Qeq_bool a b)) ows ws).

Definition frequency_warning : string :=
  "Warning: frequency points do not match; expect truncation and interpolation".

(** The frequencies of [ws] inside the range of the axis [sws]:
    [omega[omega >= min(sys.omega)]], then [omega[omega <= max(sys.omega)]]. *)
Definition in_range (sws ws : list Q) : list Q :=
  match py_min sws, py_max sws with
  | inr lo, inr hi =>
      List.filter (fun w => Qle_bool w hi) (List.filter (fun w => Qle_bool lo w) ws)
  | _, _ => []
  end.

(** A response that is zero at every sample. *)
Definition zero_response (t : tensor C) : Prop :=
  Forall (Forall (Forall (fun z => re z == 0 /\ im z == 0)%Q)) (t_items t).

Section Interpolation.
Context `{Numerics}.

(** The spline routines interpolate on the axis [ws]: a curve fitted through
    samples at the parameter values [ws] takes, at each of these values, the
    sample given for it. *)
Definition interpolates (ws : list Q) : Prop :=
  forall xs ys wt f k w x y,
    splprep [xs; ys] wt ws 0%Q = inr f ->
    ws !! k = Some w -> xs !! k = Some x -> ys !! k = Some y ->
    splev w f = (x, y).

(** The spline routines accept every data set on the axis [ws]. *)
Definition fits (ws : list Q) : Prop :=
  forall x wt, exists f, splprep x wt ws 0%Q = inr f.

End Interpolation.

(** A system that evaluates, at every frequency of [ws], to a matrix of its
    own sizes. *)
Definition evaluates (s : Lti) (ws : list Q) : Prop :=
  forall w, w ∈ ws ->
    exists a, lti_evalfr s w = inr a /\
              m_shape a = (lti_outputs s, lti_inputs s) /\ matrix_wf a.

(** ** Further values and states for the concrete runs *)

(** A generic system with one input and one output, whose response at the
    frequency [w] is [w]. *)
Definition ramp : Lti :=
  {| lti_inputs := 1; lti_outputs := 1;
     lti_evalfr := fun w => inr (Matrix (1, 1) [[Cplx w 0]]) |}.


(** The runs involve no other system class. *)
Definition no_lti_neg : Lti -> M pyval :=
  fun _ => raise (NotImplementedError "no other system class is loaded").

Definition no_lti_add : Lti -> loc -> M pyval :=
  fun _ _ => raise (NotImplementedError "no other system class is loaded").

(** A rendering of the rows of a listing: the frequency and the real part,
    for integers. *)
Definition plain_row (w m p : Q) : string := pretty (Qnum w) ++ " " ++ pretty (Qnum m).

(** The two models with a caller's sequence [4, 2, 1, 3], at location 6. *)
Definition with_sweep4 : state :=
  State (heap two_models ++ [RealVec [4; 2; 1; 3]%Q]) (stdout two_models).

(** A model with two inputs and two outputs and the response 1 everywhere,
    on the axis [1, 2, 3, 4]: the instance is at location 2. *)
Definition square_model : state :=
  let k := hold_kernel in
  (__init__ (Args_data (OfTensor (constant3 C1 (2, 2, 4))) (vec [1; 2; 3; 4]%Q)) empty_state).1.

(** Two SISO models with the responses 2 and 4 whose axes differ in the last
    frequency by less than [epsw]: the instances are at locations 2 and 5. *)
Definition close_models : state :=
  let k := hold_kernel in
  let st1 := (__init__ (Args_data (OfTensor (constant3 (Cplx 2 0) (1, 1, 4)))
                                  (vec [1; 2; 3; 4]%Q)) empty_state).1 in
  (__init__ (Args_data (OfTensor (constant3 (Cplx 4 0) (1, 1, 4)))
                       (vec [1; 2; 3; 4.000000001]%Q)) st1).1.

(** Two SISO models with the responses 2 and 4 on the axes [1, 2, 3, 4] and
    [1, 2, 3, 5]: the instances are at locations 2 and 5. *)
Definition differing_models : state :=
  let k := hold_kernel in
  let st1 := (__init__ (Args_data (OfTensor (constant3 (Cplx 2 0) (1, 1, 4)))
                                  (vec [1; 2; 3; 4]%Q)) empty_state).1 in
  (__init__ (Args_data (OfTensor (constant3 (Cplx 4 0) (1, 1, 4)))
                       (vec [1; 2; 3; 5]%Q)) st1).1.

(** A SISO model whose frequencies are not ascending, [FRD(d, [2, 1, 4, 3])]
    with the samples 1, 2, 3, 4: the instance is at location 2. *)
Definition unsorted_model : state :=
  let k := hold_kernel in
  (__init__ (Args_data
               (OfTensor (Tensor (1, 1, 4) [[[Cplx 1 0; Cplx 2 0; Cplx 3 0; Cplx 4 0]]]))
               (vec [2; 1; 4; 3]%Q)) empty_state).1.

(** * Properties *)

(** ** Sorting *)

Lemma Qle_bool_false x y : Qle_bool x y = false -> (y <= x)%Q.
Proof.
  intros E. apply Qlt_le_weak, Qnot_le_lt. intros L.
  apply Qle_bool_iff in L. congruence.
Qed.

Lemma insert_asc_perm x l : Permutation (insert_asc x l) (x :: l).
Proof.
  induction l as [|y l IH]; simpl; [done|].
  destruct (Qle_bool x y); [done|].
  rewrite IH. apply perm_swap.
Qed.

Lemma sort_asc_perm l : Permutation (sort_asc l) l.
Proof.
  induction l as [|x l IH]; simpl; [done|].
  rewrite insert_asc_perm. by constructor.
Qed.

Lemma sort_asc_length l : length (sort_asc l) = length l.
Proof. apply Permutation_length, sort_asc_perm. Qed.

Lemma insert_asc_hd y x l : (y <= x)%Q -> HdRel Qle y l -> HdRel Qle y (insert_asc x l).
Proof.
  intros Hyx Hl. destruct l as [|z l]; simpl; [by constructor|].
  destruct (Qle_bool x z); constructor; [done|]. by inversion Hl.
Qed.

Lemma insert_asc_sorted x l : Sorted Qle l -> Sorted Qle (insert_asc x l).
Proof.
  induction 1 as [|y l Hl IH Hy]; simpl; [by repeat constructor|].
  destruct (Qle_bool x y) eqn:E.
  - apply Qle_bool_iff in E. by repeat constructor.
  - apply Qle_bool_false in E. constructor; [done|]. by apply insert_asc_hd.
Qed.

Lemma sort_asc_sorted l : Sorted Qle (sort_asc l).
Proof.
  induction l as [|x l IH]; simpl; [constructor|]. by apply insert_asc_sorted.
Qed.

Lemma sort_asc_ascending l : ascending l = true -> sort_asc l = l.
Proof.
  induction l as [|x l IH]; simpl; [done|].
  intros [Hx Hl]%andb_true_iff. rewrite (IH Hl).
  destruct l as [|y l]; simpl; [done|]. by rewrite Hx.
Qed.

Lemma ascending_sorted l : Sorted Qle l -> ascending l = true.
Proof.
  induction 1 as [|x l Hl IH Hx]; simpl; [done|].
  rewrite IH, andb_true_r. destruct Hx; [done|]. by apply Qle_bool_iff.
Qed.

Lemma sort_asc_idemp l : sort_asc (sort_asc l) = sort_asc l.
Proof. apply sort_asc_ascending, ascending_sorted, sort_asc_sorted. Qed.

(** ** The heap *)

Lemma axis_lookup st l ws : axis st l = Some ws <-> heap st !! l = Some (RealVec ws).
Proof. unfold axis. destruct (heap st !! l) as [[]|]; naive_solver. Qed.

Lemma tensor_at_lookup st l t : tensor_at st l = Some t <-> heap st !! l = Some (CplxTensor t).
Proof. unfold tensor_at. destruct (heap st !! l) as [[]|]; naive_solver. Qed.

Lemma instance_lookup st l o : instance st l = Some o <-> heap st !! l = Some (Instance_ o).
Proof. unfold instance. destruct (heap st !! l) as [[]|]; naive_solver. Qed.

Lemma sort_at_length w st : length (heap (sort_at w st)) = length (heap st).
Proof. unfold sort_at. destruct (axis st w); simpl; [apply length_insert|done]. Qed.

Lemma sort_at_stdout w st : stdout (sort_at w st) = stdout st.
Proof. unfold sort_at. by destruct (axis st w). Qed.

Lemma sort_at_ne w st l : l <> w -> heap (sort_at w st) !! l = heap st !! l.
Proof.
  intros Hne. unfold sort_at. destruct (axis st w); simpl; [|done].
  by apply list_lookup_insert_ne.
Qed.

Lemma sort_at_axis w st ws : axis st w = Some ws -> axis (sort_at w st) w = Some (sort_asc ws).
Proof.
  intros Hw. unfold sort_at. rewrite Hw. apply axis_lookup; simpl.
  apply list_lookup_insert_eq. apply axis_lookup in Hw. by eapply lookup_lt_Some.
Qed.

Lemma sort_at_tensor w st l : tensor_at (sort_at w st) l = tensor_at st l.
Proof.
  destruct (decide (l = w)) as [->|Hne].
  - unfold sort_at. destruct (axis st w) as [ws|] eqn:Hw; [|done].
    pose proof (sort_at_axis _ _ _ Hw) as Hs. unfold sort_at in Hs. rewrite Hw in Hs.
    apply axis_lookup in Hs, Hw. unfold tensor_at. by rewrite Hs, Hw.
  - unfold tensor_at. by rewrite sort_at_ne.
Qed.

Lemma sort_at_instance w st l : instance (sort_at w st) l = instance st l.
Proof.
  destruct (decide (l = w)) as [->|Hne].
  - unfold sort_at. destruct (axis st w) as [ws|] eqn:Hw; [|done].
    pose proof (sort_at_axis _ _ _ Hw) as Hs. unfold sort_at in Hs. rewrite Hw in Hs.
    apply axis_lookup in Hs, Hw. unfold instance. by rewrite Hs, Hw.
  - unfold instance. by rewrite sort_at_ne.
Qed.

Lemma sort_at_ascending w st ws : axis st w = Some ws -> ascending ws = true -> sort_at w st = st.
Proof.
  intros Hw Ha. unfold sort_at. rewrite Hw, sort_asc_ascending by done.
  apply axis_lookup in Hw. rewrite list_insert_id by done. by destruct st.
Qed.

Lemma extends_refl st : extends st st.
Proof. by intros l c. Qed.

Lemma extends_trans st1 st2 st3 : extends st1 st2 -> extends st2 st3 -> extends st1 st3.
Proof. intros H12 H23 l c Hl. by apply H23, H12. Qed.

Lemma extends_axis st st' l ws : extends st st' -> axis st l = Some ws -> axis st' l = Some ws.
Proof. intros He Hl. apply axis_lookup. by apply He, axis_lookup. Qed.

Lemma extends_tensor st st' l t :
  extends st st' -> tensor_at st l = Some t -> tensor_at st' l = Some t.
Proof. intros He Hl. apply tensor_at_lookup. by apply He, tensor_at_lookup. Qed.

Lemma extends_instance st st' l o :
  extends st st' -> instance st l = Some o -> instance st' l = Some o.
Proof. intros He Hl. apply instance_lookup. by apply He, instance_lookup. Qed.

(** ** Computations *)

Lemma bind_ok {A B} (m : M A) (k : A -> M B) st st' a :
  m st = (st', inr a) -> bind m k st = k a st'.
Proof. unfold bind. by intros ->. Qed.

Lemma bind_err {A B} (m : M A) (k : A -> M B) st st' e :
  m st = (st', inl e) -> bind m k st = (st', inl e).
Proof. unfold bind. by intros ->. Qed.

Lemma get_vec_ok st l ws : axis st l = Some ws -> get_vec l st = (st, inr ws).
Proof. unfold get_vec, deref. by intros ->. Qed.

Lemma get_tensor_ok st l t : tensor_at st l = Some t -> get_tensor l st = (st, inr t).
Proof. unfold get_tensor, deref. by intros ->. Qed.

Lemma get_obj_ok st l o : instance st l = Some o -> get_obj l st = (st, inr o).
Proof. unfold get_obj, deref. by intros ->. Qed.

Lemma sort_inplace_ok st l ws : axis st l = Some ws -> sort_inplace l st = (sort_at l st, inr tt).
Proof. unfold sort_inplace. by intros ->. Qed.

Lemma stable_ret {A} (a : A) : stable (ret a).
Proof. intros st. apply extends_refl. Qed.

Lemma stable_raise {A} e : stable (@raise A e).
Proof. intros st. apply extends_refl. Qed.

Lemma stable_lift {A} (r : res A) : stable (lift r).
Proof. intros st. apply extends_refl. Qed.

Lemma stable_deref {A} (read : state -> option A) : stable (deref read).
Proof. intros st. unfold deref. destruct (read st); apply extends_refl. Qed.

Lemma stable_alloc c : stable (alloc c).
Proof. intros st l c' Hl. simpl. by apply lookup_app_l_Some. Qed.

Lemma stable_print s : stable (print s).
Proof. by intros st l c. Qed.

Lemma stable_bind {A B} (m : M A) (k : A -> M B) :
  stable m -> (forall a, stable (k a)) -> stable (bind m k).
Proof.
  intros Hm Hk st. unfold bind. specialize (Hm st).
  destruct (m st) as [st' [e|a]]; simpl in *; [done|].
  eapply extends_trans; [done|]. apply Hk.
Qed.

Lemma stable_try {A} (m h : M A) : stable m -> stable h -> stable (try_except m h).
Proof.
  intros Hm Hh st. unfold try_except. specialize (Hm st).
  destruct (m st) as [st' [e|a]]; simpl in *; [|done].
  eapply extends_trans; [done|]. apply Hh.
Qed.

Lemma stable_for {A} (l : list A) body : (forall a, stable (body a)) -> stable (for_ l body).
Proof.
  intros Hb. induction l as [|a l IH]; simpl; [apply stable_ret|].
  apply stable_bind; [done|]. by intros _.
Qed.

Create HintDb stable discriminated.
#[local] Hint Resolve stable_ret stable_raise stable_lift stable_deref stable_alloc
  stable_print stable_for : stable.

Ltac stable_step :=
  match goal with
  | |- stable (bind _ _) => apply stable_bind; [|intros ?]
  | |- stable (try_except _ _) => apply stable_try
  | |- stable (get_vec _) => apply stable_deref
  | |- stable (get_tensor _) => apply stable_deref
  | |- stable (get_obj _) => apply stable_deref
  | |- stable (match ?x with _ => _ end) => destruct x
  | |- stable (if ?b then _ else _) => destruct b
  | |- stable (let '(_, _) := ?x in _) => destruct x
  | |- _ => solve [auto with stable]
  end.

Section Properties.
Context `{Numerics}.

Lemma stable_finish_init om fr : stable (finish_init om fr).
Proof. unfold finish_init. repeat stable_step. Qed.

Lemma stable_init args : stable (__init__ args).
Proof.
  unfold __init__. destruct args as [s w|d w|a|n]; repeat stable_step;
    auto using stable_finish_init with stable.
Qed.

Lemma stable_evolve {A} (m : M A) st : stable m -> extends st (m st).1.
Proof. intros Hm. apply Hm. Qed.

(** After its in-place sort, [_convertToFRD] only allocates and prints. *)
Lemma convert_after_sort sys w i o st ws :
  axis st w = Some ws ->
  match sys with VFRD _ | VLti _ => True | _ => False end ->
  extends (sort_at w st) (_convertToFRD sys w i o st).1.
Proof.
  intros Hw Hsys. destruct sys as [x|r|s|d|]; try done; unfold _convertToFRD;
    rewrite (bind_ok _ _ _ _ _ (sort_inplace_ok _ _ _ Hw));
    apply stable_evolve; repeat stable_step; auto using stable_init with stable.
Qed.

Lemma convert_stable_number x w i o : stable (_convertToFRD (VNum x) w i o).
Proof. unfold _convertToFRD. repeat stable_step; auto using stable_init with stable. Qed.

(** The fast path of [_convertToFRD]. *)
Lemma convert_fast st sys s target ws sws i o :
  instance st sys = Some s ->
  axis st target = Some ws ->
  axis (sort_at target st) (omega s) = Some sws ->
  allclose (sort_asc ws) sws = true ->
  _convertToFRD (VFRD sys) target i o st = (sort_at target st, inr sys).
Proof.
  intros Hs Hw Hsw Hc. unfold _convertToFRD.
  rewrite (bind_ok _ _ _ _ _ (sort_inplace_ok _ _ _ Hw)).
  rewrite (bind_ok _ _ _ _ _ (get_vec_ok _ _ _ (sort_at_axis _ _ _ Hw))).
  rewrite <- (sort_at_instance target) in Hs.
  rewrite (bind_ok _ _ _ _ _ (get_obj_ok _ _ _ Hs)).
  rewrite (bind_ok _ _ _ _ _ (get_vec_ok _ _ _ Hsw)).
  unfold allclose in Hc. unfold bind, lift.
  destruct (elementwise1 _ _ _) as [e|close]; [done|]. by rewrite Hc.
Qed.

(** For two models on one ascending axis the conversion is the identity and
    leaves the state as it is. *)
Lemma allclose_refl ws : allclose ws ws = true.
Proof.
  unfold allclose, elementwise1, bshape. rewrite Nat.eqb_refl.
  unfold bzip, stretch. rewrite Nat.eqb_refl.
  induction ws as [|w ws IH]; [done|]. cbn [zip_with forallb]. rewrite IH, andb_true_r.
  unfold id, Qltb. apply negb_true_iff. apply not_true_is_false. intros Hle.
  apply Qle_bool_iff in Hle. revert Hle. apply Qlt_not_le.
  assert (E : (w - w == 0)%Q) by ring. rewrite (Qabs_wd _ _ E). done.
Qed.

Lemma convert_same_axis st a sys s ws ta t i o :
  model st a s ws ta -> instance st sys = Some t -> axis st (omega t) = Some ws ->
  ascending ws = true ->
  _convertToFRD (VFRD sys) (omega s) i o st = (st, inr sys).
Proof.
  intros Ha Ht Hw Hasc. pose proof (model_axis _ _ _ _ _ Ha) as Haw.
  pose proof (sort_at_ascending _ _ _ Haw Hasc) as Est.
  rewrite (convert_fast st sys t (omega s) ws ws); rewrite ?Est; try done.
  rewrite sort_asc_ascending by done. apply allclose_refl.
Qed.

(** What is known of a state that extends the one reached by sorting [w]. *)
Lemma sorted_frame st st' w ws :
  axis st w = Some ws ->
  extends (sort_at w st) st' ->
  axis st' w = Some (sort_asc ws) /\
  (forall l t, tensor_at st l = Some t -> tensor_at st' l = Some t) /\
  (forall l o, instance st l = Some o -> instance st' l = Some o) /\
  (forall l c, l <> w -> heap st !! l = Some c -> heap st' !! l = Some c).
Proof.
  intros Hw He. repeat split.
  - eapply extends_axis; [done|]. by apply sort_at_axis.
  - intros l t Ht. eapply extends_tensor; [done|]. by rewrite sort_at_tensor.
  - intros l o Ho. eapply extends_instance; [done|]. by rewrite sort_at_instance.
  - intros l c Hne Hl. apply He. by rewrite sort_at_ne.
Qed.

(** The operators that start by converting their operand on [self.omega]. *)
Lemma operator_after_sort {A} (rest : FRD -> loc -> M A) self me other i o st ws :
  instance st self = Some me ->
  axis st (omega me) = Some ws ->
  match other with VFRD _ | VLti _ => True | _ => False end ->
  (forall r, stable (rest me r)) ->
  extends (sort_at (omega me) st)
    (bind (get_obj self)
       (fun me => bind (_convertToFRD other (omega me) (i me) (o me)) (rest me)) st).1.
Proof.
  intros Hme Hw Hother Hrest.
  rewrite (bind_ok _ _ _ _ _ (get_obj_ok _ _ _ Hme)).
  pose proof (convert_after_sort other (omega me) (i me) (o me) st ws Hw Hother) as Hc.
  unfold bind. destruct (_convertToFRD _ _ _ _ st) as [st1 [e|r]]; simpl in *; [done|].
  eapply extends_trans; [done|]. apply Hrest.
Qed.

Lemma mul_after_sort self me other st ws :
  instance st self = Some me ->
  axis st (omega me) = Some ws ->
  match other with VFRD _ | VLti _ => True | _ => False end ->
  extends (sort_at (omega me) st) (__mul__ self other st).1.
Proof.
  intros Hme Hw Hother.
  assert (E : is_number other = false) by by destruct other.
  unfold __mul__. rewrite E.
  apply (operator_after_sort _ self me other (fun _ => 1) (fun _ => 1) st ws); try done.
  intros r. repeat stable_step; auto using stable_init with stable.
Qed.

Lemma div_after_sort self me other st ws :
  instance st self = Some me ->
  axis st (omega me) = Some ws ->
  match other with VFRD _ | VLti _ => True | _ => False end ->
  extends (sort_at (omega me) st) (__div__ self other st).1.
Proof.
  intros Hme Hw Hother.
  assert (E : is_number other = false) by by destruct other.
  unfold __div__. rewrite E.
  apply (operator_after_sort _ self me other (fun _ => 1) (fun _ => 1) st ws); try done.
  intros r. repeat stable_step.
Qed.

Lemma feedback_after_sort self me other sign st ws :
  instance st self = Some me ->
  axis st (omega me) = Some ws ->
  match other with VFRD _ | VLti _ => True | _ => False end ->
  extends (sort_at (omega me) st) (feedback self other sign st).1.
Proof.
  intros Hme Hw Hother. unfold feedback.
  apply (operator_after_sort _ self me other (fun _ => 1) (fun _ => 1) st ws); try done.
  intros r. repeat stable_step; auto using stable_init with stable.
Qed.

Lemma add_after_sort self me other st ws :
  instance st self = Some me ->
  axis st (omega me) = Some ws ->
  match other with
  | VLti _ => True
  | VFRD r => exists o ows, instance st r = Some o /\ axis st (omega o) = Some ows /\
                            is_Some (bshape (length ows) (length ws))
  | _ => False
  end ->
  extends (sort_at (omega me) st) (__add__ self other st).1.
Proof.
  intros Hme Hw Hother. unfold __add__.
  rewrite (bind_ok _ _ _ _ _ (get_obj_ok _ _ _ Hme)).
  assert (Hrest : forall r, stable (
    o <- get_obj r ;;
    if negb (inputs me =? inputs o) then
      raise (ValueError "The first summand has %i input(s), but the second has %i.")
    else if negb (outputs me =? outputs o) then
      raise (ValueError "The first summand has %i output(s), but the second has %i.")
    else
      t1 <- get_tensor (fresp me) ;;
      t2 <- get_tensor (fresp o) ;;
      t <- lift (elementwise3 Cadd t1 t2) ;;
      ws <- get_vec (omega o) ;;
      __init__ (Args_data (OfTensor t) (vec ws)))%M).
  { intros r. repeat stable_step; auto using stable_init with stable. }
  assert (Hgo : forall st1, heap st1 = heap st ->
    extends (sort_at (omega me) st)
      (bind (_convertToFRD other (omega me) 1 1) (fun r =>
         o <- get_obj r ;;
         if negb (inputs me =? inputs o) then
           raise (ValueError "The first summand has %i input(s), but the second has %i.")
         else if negb (outputs me =? outputs o) then
           raise (ValueError "The first summand has %i output(s), but the second has %i.")
         else
           t1 <- get_tensor (fresp me) ;;
           t2 <- get_tensor (fresp o) ;;
           t <- lift (elementwise3 Cadd t1 t2) ;;
           ws <- get_vec (omega o) ;;
           __init__ (Args_data (OfTensor t) (vec ws)))%M st1).1).
  { intros st1 Hh.
    assert (Hw1 : axis st1 (omega me) = Some ws) by (unfold axis in *; by rewrite Hh).
    assert (Ho : match other with VFRD _ | VLti _ => True | _ => False end)
      by by destruct other.
    pose proof (convert_after_sort other (omega me) 1 1 st1 ws Hw1 Ho) as Hc.
    assert (Hs : extends (sort_at (omega me) st) (sort_at (omega me) st1)).
    { unfold sort_at. rewrite Hw, Hw1. simpl. rewrite Hh. by intros l c. }
    unfold bind. destruct (_convertToFRD _ _ _ _ st1) as [st2 [e|r]]; simpl in *.
    - by eapply extends_trans.
    - eapply extends_trans; [done|]. eapply extends_trans; [done|]. apply Hrest. }
  destruct other as [x|r|s|d|]; try done.
  - destruct Hother as (o & ows & Ho & Hows & [n Hn]).
    match goal with |- extends _ (bind ?pre _ _).1 =>
      assert (Hpre : exists st1, pre st = (st1, inr tt) /\ heap st1 = heap st) end.
    { rewrite (bind_ok _ _ _ _ _ (get_obj_ok _ _ _ Ho)).
      rewrite (bind_ok _ _ _ _ _ (get_vec_ok _ _ _ Hows)).
      rewrite (bind_ok _ _ _ _ _ (get_vec_ok _ _ _ Hw)).
      rewrite Hn. destruct (existsb _ _); eauto. }
    destruct Hpre as (st1 & Hpre & Hh).
    rewrite (bind_ok _ _ _ _ _ Hpre). by apply Hgo.
  - erewrite bind_ok by reflexivity. by apply Hgo.
Qed.

(** C9.  When [_convertToFRD] is given a frequency response model whose
    frequency axis matches the target axis element-wise within [epsw] (the
    target as the entry point has just sorted it, which for an ascending
    target is the target as it was) it returns that very instance: the result
    is the location it was given, the instance stored there is the same,
    nothing is allocated, every value of the heap other than the target axis
    is as before, and for an ascending target the whole state is as before. *)
Theorem convert_matching_axis_returns_instance st sys s target ws sws i o :
  instance st sys = Some s ->
  axis st target = Some ws ->
  axis (sort_at target st) (omega s) = Some sws ->
  allclose (sort_asc ws) sws = true ->
  exists st',
    _convertToFRD (VFRD sys) target i o st = (st', inr sys) /\
    instance st' sys = Some s /\
    length (heap st') = length (heap st) /\
    (forall l, l <> target -> heap st' !! l = heap st !! l) /\
    (ascending ws = true -> st' = st).
Proof.
  intros Hs Hw Hsw Hc. exists (sort_at target st). repeat split.
  - by eapply convert_fast.
  - by rewrite sort_at_instance.
  - apply sort_at_length.
  - intros l Hl. by apply sort_at_ne.
  - intros Ha. by eapply sort_at_ascending.
Qed.

(** C10.  For every call with a model or a generic system as candidate,
    [_convertToFRD] sorts the array it receives as target axis in place,
    whatever the outcome of the call (the candidate returned as it is, a new
    model, or an exception): afterwards the same location holds the ascending
    permutation of its former contents, every response tensor of the heap is
    as it was (none is reordered), and so is every other value.  The
    operators that reconcile grids pass their own axis, so [__mul__],
    [__div__] and [feedback] leave [self.omega] sorted in the same way, and
    so does [__add__] whenever its comparison of the two axes goes through
    (their lengths broadcast). *)
Theorem convert_sorts_target_in_place st sys target ws i o :
  axis st target = Some ws ->
  match sys with VFRD _ | VLti _ => True | _ => False end ->
  (let st' := (_convertToFRD sys target i o st).1 in
   axis st' target = Some (sort_asc ws) /\
   Sorted Qle (sort_asc ws) /\ Permutation (sort_asc ws) ws /\
   (forall l t, tensor_at st l = Some t -> tensor_at st' l = Some t) /\
   (forall l c, l <> target -> heap st !! l = Some c -> heap st' !! l = Some c)) /\
  (forall self me sign op,
     instance st self = Some me -> omega me = target ->
     op = __mul__ self \/ op = __div__ self \/ op = (fun other => feedback self other sign) ->
     let st' := (op sys st).1 in
     axis st' target = Some (sort_asc ws) /\
     (forall l t, tensor_at st l = Some t -> tensor_at st' l = Some t) /\
     (forall l c, l <> target -> heap st !! l = Some c -> heap st' !! l = Some c)) /\
  (forall self me,
     instance st self = Some me -> omega me = target ->
     match sys with
     | VFRD r => exists o ows, instance st r = Some o /\ axis st (omega o) = Some ows /\
                               is_Some (bshape (length ows) (length ws))
     | _ => True
     end ->
     let st' := (__add__ self sys st).1 in
     axis st' target = Some (sort_asc ws) /\
     (forall l t, tensor_at st l = Some t -> tensor_at st' l = Some t) /\
     (forall l c, l <> target -> heap st !! l = Some c -> heap st' !! l = Some c)).
Proof.
  intros Hw Hsys. split; [|split].
  - pose proof (convert_after_sort sys target i o st ws Hw Hsys) as He.
    destruct (sorted_frame _ _ _ _ Hw He) as (Ha & Ht & _ & Hf).
    auto using sort_asc_sorted, sort_asc_perm.
  - intros self me sign op Hme <- Hop.
    assert (He : extends (sort_at (omega me) st) (op sys st).1).
    { destruct Hop as [->| [->| ->]];
        eauto using mul_after_sort, div_after_sort, feedback_after_sort. }
    destruct (sorted_frame _ _ _ _ Hw He) as (Ha & Ht & _ & Hf). auto.
  - intros self me Hme <- Hother.
    assert (He : extends (sort_at (omega me) st) (__add__ self sys st).1).
    { eapply add_after_sort; [done..|]. by destruct sys. }
    destruct (sorted_frame _ _ _ _ Hw He) as (Ha & Ht & _ & Hf). auto.
Qed.

(** ** Construction from response data *)

Lemma regular_vector {A} (xs : list A) : regular (vector xs) = true.
Proof.
  unfold vector. simpl. apply andb_true_iff. split.
  - induction xs as [|x xs IH]; simpl; [done|]. done.
  - destruct xs as [|x xs]; simpl; [done|].
    induction xs as [|y xs IH]; simpl; [done|]. done.
Qed.

Lemma seq_shape_vector {A} (xs : list A) : seq_shape (vector xs) = [length xs].
Proof. unfold vector. simpl. rewrite length_map. by destruct xs. Qed.

Lemma leaves_vector {A} (xs : list A) : leaves (vector xs) = xs.
Proof. unfold vector. simpl. induction xs as [|x xs IH]; simpl; [done|]. by rewrite IH. Qed.

Lemma mapE_elem {A B} (f : A -> res B) l bs a :
  mapE f l = inr bs -> a ∈ l -> exists b, f a = inr b.
Proof.
  revert bs. induction l as [|x l IH]; intros bs Hm Ha; [by apply elem_of_nil in Ha|].
  simpl in Hm. destruct (f x) as [e|b] eqn:Ex; [done|]. simpl in Hm.
  destruct (mapE f l) as [e|bs'] eqn:El; [done|].
  apply elem_of_cons in Ha as [->|Ha]; eauto.
Qed.

(** A response that is not square (and has an input and an output) cannot be
    given its splines: the loops index [fresp[i, j, :]] with [i] ranging over
    the inputs and [j] over the outputs. *)
Lemma build_ifunc_not_square t ws p m n :
  t_shape t = (p, m, n) -> p <> m -> 0 < p -> 0 < m ->
  exists e, build_ifunc t ws = inl e.
Proof.
  intros Hsh Hne Hp Hm. destruct (build_ifunc t ws) as [e|f] eqn:Eb; [eauto|exfalso].
  unfold build_ifunc in Eb. rewrite Hsh in Eb.
  assert (Hcol : forall i j, i < m -> j < p -> exists col, column t i j = inr col).
  { intros i j Hi Hj.
    destruct (mapE_elem _ _ _ i Eb) as [row Hrow]; [apply elem_of_seq; lia|].
    destruct (mapE_elem _ _ _ j Hrow) as [f' Hf]; [apply elem_of_seq; lia|].
    destruct (column t i j); [done|eauto]. }
  destruct (decide (p < m)) as [Hlt|Hge].
  - destruct (Hcol p 0) as [col Hc]; [lia..|].
    unfold column in Hc. rewrite Hsh in Hc.
    by rewrite (proj2 (Nat.ltb_ge p p)) in Hc by lia.
  - destruct (Hcol 0 m) as [col Hc]; [lia..|].
    unfold column in Hc. rewrite Hsh in Hc.
    by rewrite (proj2 (Nat.ltb_ge m m)), andb_false_r in Hc by lia.
Qed.

Lemma mapE_inl {A B} (f : A -> res B) l e :
  mapE f l = inl e -> exists a, a ∈ l /\ f a = inl e.
Proof.
  induction l as [|x l IH]; simpl; [done|].
  destruct (f x) as [e'|b] eqn:Ex; simpl.
  - intros [= ->]. exists x. split; [by left|done].
  - destruct (mapE f l) as [e'|bs]; [|done]. simpl. intros [= ->].
    destruct IH as (a & Ha & Hf); [done|]. exists a. split; [by right|done].
Qed.

(** When the splines can be fitted, the only exception of the loops is that of
    the indexing. *)
Lemma build_ifunc_error t ws e :
  (forall x wt, exists f, splprep x wt ws 0%Q = inr f) ->
  build_ifunc t ws = inl e -> e = IndexError "index out of bounds".
Proof.
  intros Hspl. unfold build_ifunc. destruct (t_shape t) as [[s0 s1] n] eqn:Ht.
  intros (i & _ & Hi)%mapE_inl. apply mapE_inl in Hi as (j & _ & Hj).
  unfold column in Hj. rewrite Ht in Hj.
  destruct ((i <? s0) && (j <? s1)); [|by injection Hj as <-].
  destruct (t_items t !! i ≫= _) as [col|]; [|by injection Hj as <-].
  simpl in Hj. destruct (Hspl [map re col; map im col]
    (map (fun z => (1 / (absolute z + 0.001))%Q) col)) as [f Hf]. congruence.
Qed.

Lemma finish_init_not_square t ws p m n st :
  t_shape t = (p, m, n) -> p <> m -> 0 < p -> 0 < m ->
  exists e, finish_init (inr ws) (inr t) st = (st, inl e) /\
            ((forall x wt, exists f, splprep x wt ws 0%Q = inr f) ->
             e = IndexError "index out of bounds").
Proof.
  intros Hsh Hne Hp Hm.
  destruct (build_ifunc_not_square t ws p m n) as [e He]; try done.
  exists e. split; [|intros Hspl; by eapply build_ifunc_error].
  unfold finish_init. unfold bind at 1. simpl. unfold bind at 1. simpl.
  unfold bind at 1. unfold lift. by rewrite He.
Qed.

Lemma init_data_unfold d w st :
  np_array_like d = inr d ->
  __init__ (Args_data d w) st =
    if negb (length (shape_of d) =? 3) then (st, inl shape_error) else
    match last (nd_shape w) with
    | None => (st, inl (IndexError "tuple index out of range"))
    | Some n' =>
        if negb (bool_decide (last (shape_of d) = Some n')) || negb (length (nd_shape w) =? 1)
        then (st, inl shape_error)
        else finish_init (inr (nd_items w)) (inr (tensor_of d)) st
    end.
Proof.
  intros Hd. unfold __init__, bind, lift. rewrite Hd.
  destruct (negb (length (shape_of d) =? 3)); [done|].
  destruct (last (nd_shape w)); [|done].
  by destruct (negb _ || negb _).
Qed.

(** C3.  What [__init__] does with response data and a frequency vector.
    A 1-d response is not treated as SISO: the array reshaped to (1, 1, N) is
    dropped, the response stays 1-d and the constructor raises its shape
    error.  A response of shape (2, 3, 5) is rejected with any frequency
    vector, of length 5 included, because the spline loops index it with the
    roles of inputs and outputs exchanged; when the splines themselves can be
    fitted the exception is the index error of [fresp[2, 0, :]].  For a
    response that is not ragged the shape error is raised when it is not
    3-d, when its last dimension differs from that of the frequency vector,
    and when the frequency vector has two dimensions or more; a frequency
    vector without dimensions raises an index error instead. *)
Theorem init_from_data st :
  (forall xs w, __init__ (Args_data (OfSeq (vector xs)) w) st = (st, inl shape_error)) /\
  (forall t w, t_shape t = (2, 3, 5) ->
     exists e, __init__ (Args_data (OfTensor t) w) st = (st, inl e) /\
               (nd_shape w = [5] ->
                (forall x wt, exists f, splprep x wt (nd_items w) 0%Q = inr f) ->
                e = IndexError "index out of bounds")) /\
  (forall d w, np_array_like d = inr d ->
     (length (shape_of d) <> 3 ->
        __init__ (Args_data d w) st = (st, inl shape_error)) /\
     (forall n, length (shape_of d) = 3 -> last (nd_shape w) = Some n ->
        last (shape_of d) <> Some n \/ length (nd_shape w) <> 1 ->
        __init__ (Args_data d w) st = (st, inl shape_error)) /\
     (length (shape_of d) = 3 -> nd_shape w = [] ->
        __init__ (Args_data d w) st = (st, inl (IndexError "tuple index out of range")))).
Proof.
  split; [|split].
  - intros xs w. rewrite init_data_unfold.
    + cbn [shape_of]. by rewrite seq_shape_vector.
    + unfold np_array_like, np_array. by rewrite regular_vector.
  - intros t w Hsh. rewrite init_data_unfold by done. cbn [shape_of tensor_of].
    rewrite Hsh. cbn [length Nat.eqb negb last].
    destruct (nd_shape w) as [|n' [|n'' sh]] eqn:Hw.
    + eexists. split; [done|]. done.
    + cbn [last length Nat.eqb negb orb].
      destruct (bool_decide (Some 5 = Some n')) eqn:En; cbn [negb].
      * destruct (finish_init_not_square t (nd_items w) 2 3 5 st) as (e & He & Hidx);
          [done|lia..|]. exists e. split; [done|]. intros _. apply Hidx.
      * exists shape_error. split; [done|]. intros [= ->].
        by rewrite bool_decide_eq_true_2 in En.
    + destruct (last (n' :: n'' :: sh)) as [k|] eqn:Hl.
      * cbn [length Nat.eqb negb]. rewrite orb_true_r. eexists. split; [done|]. done.
      * eexists. split; [done|]. done.
  - intros d w Hd. split; [|split].
    + intros Hn. rewrite init_data_unfold by done.
      by rewrite (proj2 (Nat.eqb_neq _ _) Hn).
    + intros n H3 Hl Hor. rewrite init_data_unfold by done.
      rewrite H3, Hl. simpl. destruct Hor as [Hne|Hne].
      * by rewrite bool_decide_eq_false_2.
      * by rewrite (proj2 (Nat.eqb_neq _ _) Hne), orb_true_r.
    + intros H3 Hw0. rewrite init_data_unfold by done.
      by rewrite H3, Hw0.
Qed.

(** ** Exponentiation *)

Lemma init_unity st : __init__ unity_args st = (st, inl shape_error).
Proof. reflexivity. Qed.

Lemma pow_int_raises fuel self n st :
  (Z.abs_nat n <= fuel)%nat -> pow_int fuel self n st = (st, inl shape_error).
Proof.
  revert n st. induction fuel as [|fuel IH]; intros n st Hn.
  - assert (n = 0%Z) as -> by lia. apply init_unity.
  - simpl. destruct (n =? 0)%Z eqn:E0; [apply init_unity|].
    apply Z.eqb_neq in E0. destruct (0 <? n)%Z eqn:Epos.
    + apply Z.ltb_lt in Epos. apply bind_err, IH. lia.
    + apply bind_err, init_unity.
Qed.

(** The depth of the recursion never reaches the bound: with any fuel from
    the distance of the exponent to zero on, the result is the same. *)
Lemma pow_int_fuel fuel fuel' self n st :
  (Z.abs_nat n <= fuel)%nat -> (Z.abs_nat n <= fuel')%nat ->
  pow_int fuel self n st = pow_int fuel' self n st.
Proof.
  revert fuel' n st. induction fuel as [|fuel IH]; intros fuel' n st Hn Hn'.
  - assert (n = 0%Z) as -> by lia. by destruct fuel'.
  - destruct fuel' as [|fuel'].
    { assert (n = 0%Z) as -> by lia. done. }
    cbn [pow_int]. destruct (n =? 0)%Z eqn:E0; [done|].
    apply Z.eqb_neq in E0. destruct (0 <? n)%Z eqn:Epos.
    + apply Z.ltb_lt in Epos. unfold bind.
      rewrite (IH fuel' (n - 1)%Z st) by lia. done.
    + apply Z.ltb_ge in Epos. unfold bind.
      destruct (__init__ unity_args st) as [st1 [e|u]]; [done|]. cbv beta.
      destruct (__div__ u (VFRD self) st1) as [st2 [e|q]]; [done|]. cbv beta.
      rewrite (IH fuel' (n + 1)%Z st2) by lia. done.
Qed.

(** The recursion of the source: [self * (self**(other-1))] for a positive
    exponent, [(FRD([1],[1]) / self) * (self**(other+1))] for a negative one. *)
Lemma pow_unfold self n st :
  __pow__ self (VNum (PyInt n)) st =
    (if (n =? 0)%Z then __init__ unity_args
     else if (0 <? n)%Z then
       rhs <- __pow__ self (VNum (PyInt (n - 1))) ;;
       __mul__ self (VFRD rhs)
     else
       unity <- __init__ unity_args ;;
       lhs <- __div__ unity (VFRD self) ;;
       rhs <- __pow__ self (VNum (PyInt (n + 1))) ;;
       __mul__ lhs (VFRD rhs))%M st.
Proof.
  unfold __pow__. destruct (n =? 0)%Z eqn:E0.
  { apply Z.eqb_eq in E0 as ->. done. }
  apply Z.eqb_neq in E0.
  rewrite (pow_int_fuel (Z.abs_nat n) (S (Z.abs_nat n - 1))) by lia.
  cbn [pow_int]. rewrite (proj2 (Z.eqb_neq _ _) E0).
  destruct (0 <? n)%Z eqn:Epos.
  - apply Z.ltb_lt in Epos. unfold bind.
    rewrite (pow_int_fuel _ (Z.abs_nat (n - 1)) self (n - 1)) by lia. done.
  - apply Z.ltb_ge in Epos. unfold bind.
    destruct (__init__ unity_args st) as [st1 [e|u]]; [done|]. cbv beta.
    destruct (__div__ u (VFRD self) st1) as [st2 [e|q]]; [done|]. cbv beta.
    rewrite (pow_int_fuel _ (Z.abs_nat (n + 1)) self (n + 1)) by lia. done.
Qed.

(** C4.  What [m ** e] does.  An exponent whose type is not [int] raises
    "Exponent must be an integer".  For an [int] exponent the recursion is
    that of the specification ([pow_unfold]), but every branch ends in
    [FRD([1],[1])], whose 1-d response the constructor rejects: [m ** 0] does
    not return the unity response, and no power returns a model. *)
Theorem pow_never_returns_a_model self other st :
  __pow__ self other st =
    (st, inl match other with
             | VNum (PyInt _) => shape_error
             | _ => ValueError "Exponent must be an integer"
             end).
Proof.
  destruct other as [[n|n|x|z]|r|s|d|]; try done.
  unfold __pow__. by apply pow_int_raises.
Qed.

(** ** Multiplication and division *)

Lemma seq_shape_prealloc {A} (v : A) p m :
  seq_shape (prealloc v p m) =
    match p, m with
    | 0, _ => [0]
    | S _, 0 => [p; 0]
    | S _, S _ => [p; m; 1]
    end.
Proof.
  unfold prealloc. destruct p as [|p]; [done|]. destruct m as [|m]; simpl.
  - by rewrite length_map, length_seq.
  - by rewrite !length_map, !length_seq.
Qed.

(** [FRD(num, den)] at the end of [__mul__]: the preallocated lists are not a
    response and a frequency vector. *)
Lemma init_prealloc_raises p m st :
  exists e, __init__ (Args_data (OfSeq (prealloc C0 p m)) (of_seq (prealloc 1%Q p m))) st
            = (st, inl e).
Proof.
  destruct (np_array_like (OfSeq (prealloc C0 p m))) as [e|d] eqn:Ed.
  { exists e. unfold __init__, bind, lift. by rewrite Ed. }
  assert (d = OfSeq (prealloc C0 p m)) as ->.
  { unfold np_array_like, np_array in Ed. destruct (regular _); simpl in Ed; congruence. }
  exists shape_error. rewrite init_data_unfold by done.
  cbn [shape_of of_seq nd_shape]. rewrite !seq_shape_prealloc.
  destruct p as [|p]; [done|]. destruct m as [|m]; done.
Qed.

Lemma mul_loops_raise p m n st :
  0 < p -> 0 < m -> 0 < n ->
  for_ (seq 0 p) (fun _ => for_ (seq 0 m) (fun _ => for_ (seq 0 n) (fun _ =>
    raise (no_attribute "num")))) st = (st, @inl exn unit (no_attribute "num")).
Proof.
  intros Hp Hm Hn. destruct p as [|p]; [lia|]. destruct m as [|m]; [lia|].
  destruct n as [|n]; [lia|]. done.
Qed.

(** C1.  What [A * B] does.  After the conversion of [B] and the check of the
    sizes, the loops read [self.num], an attribute that an [FRD] instance
    does not have (the body is that of the transfer-function class): for two
    models on one axis with matching sizes the product raises an attribute
    error where the specification has the matrix product of the responses,
    and in no case does [__mul__] return a model. *)
Theorem mul_never_returns_a_model :
  (forall st self other, exists st' e, __mul__ self other st = (st', inl e)) /\
  (forall st a b ma mb ws ta tb,
     model st a ma ws ta -> model st b mb ws tb -> ascending ws = true ->
     inputs ma = outputs mb -> 0 < inputs ma -> 0 < outputs ma -> 0 < inputs mb ->
     __mul__ a (VFRD b) st = (st, inl (no_attribute "num"))).
Proof.
  split.
  - intros st self other. unfold __mul__. unfold bind at 1.
    destruct (get_obj self st) as [st1 [e|me]]; [eauto|].
    unfold bind at 1.
    match goal with |- context [?conv st1] =>
      match conv with (if _ then _ else _) =>
        destruct (conv st1) as [st2 [e|r]]; [eauto|] end end.
    unfold bind at 1. destruct (get_obj r st2) as [st3 [e|o]]; [eauto|].
    destruct (negb (inputs me =? outputs o)); [unfold raise; eauto|].
    unfold bind at 1.
    destruct (for_ _ _ st3) as [st4 [e|[]]]; [eauto|].
    destruct (init_prealloc_raises (outputs me) (inputs o) st4) as [e He]. eauto.
  - intros st a b ma mb ws ta tb Ha Hb Hasc Hio Hi Ho Hi'.
    pose proof (model_instance _ _ _ _ _ Ha) as Hma.
    pose proof (model_instance _ _ _ _ _ Hb) as Hmb.
    pose proof (model_axis _ _ _ _ _ Hb) as Hwb.
    unfold __mul__. rewrite (bind_ok _ _ _ _ _ (get_obj_ok _ _ _ Hma)). simpl.
    rewrite (bind_ok _ _ _ _ _ (convert_same_axis st a b ma ws ta mb 1 1 Ha Hmb Hwb Hasc)).
    rewrite (bind_ok _ _ _ _ _ (get_obj_ok _ _ _ Hmb)).
    rewrite (proj2 (Nat.eqb_eq _ _) Hio). simpl.
    apply bind_err. by apply mul_loops_raise.
Qed.

(** C5.  What [a / b] does.  When an operand has more than one input or
    output the division raises "implemented only for SISO systems".  For
    SISO operands it reads [self.num], which an [FRD] instance does not
    have, and raises an attribute error where the specification has the
    quotient of the responses; in no case does [__div__] return a model. *)
Theorem div_never_returns_a_model :
  (forall st self other, exists st' e, __div__ self other st = (st', inl e)) /\
  (forall st a b ma mb ws ta tb,
     model st a ma ws ta -> model st b mb ws tb -> ascending ws = true ->
     inputs ma <= 1 -> outputs ma <= 1 -> inputs mb <= 1 -> outputs mb <= 1 ->
     __div__ a (VFRD b) st = (st, inl (no_attribute "num"))) /\
  (forall st a b ma mb ws ta tb,
     model st a ma ws ta -> model st b mb ws tb -> ascending ws = true ->
     1 < inputs ma \/ 1 < outputs ma \/ 1 < inputs mb \/ 1 < outputs mb ->
     __div__ a (VFRD b) st =
       (st, inl (NotImplementedError "FRD.__div__ is currently implemented only for SISO systems."))).
Proof.
  split; [|split].
  - intros st self other. unfold __div__. unfold bind at 1.
    destruct (get_obj self st) as [st1 [e|me]]; [eauto|].
    unfold bind at 1.
    match goal with |- context [?conv st1] =>
      match conv with (if _ then _ else _) =>
        destruct (conv st1) as [st2 [e|r]]; [eauto|] end end.
    unfold bind at 1. destruct (get_obj r st2) as [st3 [e|o]]; [eauto|].
    destruct (_ || _); unfold raise; eauto.
  - intros st a b ma mb ws ta tb Ha Hb Hasc H1 H2 H3 H4.
    pose proof (model_instance _ _ _ _ _ Ha) as Hma.
    pose proof (model_instance _ _ _ _ _ Hb) as Hmb.
    pose proof (model_axis _ _ _ _ _ Hb) as Hwb.
    unfold __div__. rewrite (bind_ok _ _ _ _ _ (get_obj_ok _ _ _ Hma)). simpl.
    rewrite (bind_ok _ _ _ _ _ (convert_same_axis st a b ma ws ta mb 1 1 Ha Hmb Hwb Hasc)).
    rewrite (bind_ok _ _ _ _ _ (get_obj_ok _ _ _ Hmb)).
    rewrite !(proj2 (Nat.ltb_ge _ _)) by done. done.
  - intros st a b ma mb ws ta tb Ha Hb Hasc Hor.
    pose proof (model_instance _ _ _ _ _ Ha) as Hma.
    pose proof (model_instance _ _ _ _ _ Hb) as Hmb.
    pose proof (model_axis _ _ _ _ _ Hb) as Hwb.
    unfold __div__. rewrite (bind_ok _ _ _ _ _ (get_obj_ok _ _ _ Hma)). simpl.
    rewrite (bind_ok _ _ _ _ _ (convert_same_axis st a b ma ws ta mb 1 1 Ha Hmb Hwb Hasc)).
    rewrite (bind_ok _ _ _ _ _ (get_obj_ok _ _ _ Hmb)).
    assert ((1 <? inputs ma) || (1 <? outputs ma) || (1 <? inputs mb) || (1 <? outputs mb) = true)
      as ->; [|done].
    rewrite !orb_true_iff, !Nat.ltb_lt. tauto.
Qed.

End Properties.

(** ** Arrays *)

Section Arrays.
Context {A : Type}.
Implicit Types (items : list (list (list A))) (rows : list (list A)) (z : A).

Lemma stretch_same {X} n (l : list X) : length l = n -> stretch n l = l.
Proof. intros <-. unfold stretch. by rewrite Nat.eqb_refl. Qed.

Lemma zip_with_ext_Forall {X Y Z} (P : X -> Prop) (Q : Y -> Prop) (f g : X -> Y -> Z) l1 l2 :
  Forall P l1 -> Forall Q l2 -> (forall x y, P x -> Q y -> f x y = g x y) ->
  zip_with f l1 l2 = zip_with g l1 l2.
Proof.
  intros H1. revert l2. induction H1 as [|x l1 Hx H1 IH]; intros l2 H2 Hfg; [done|].
  destruct H2 as [|y l2 Hy H2]; [done|]. simpl. rewrite Hfg by done. f_equal. by apply IH.
Qed.

Lemma nth_insert_eq z k v (col : list A) : k < length col -> nth k (<[k:=v]> col) z = v.
Proof. intros Hk. by rewrite nth_lookup, list_lookup_insert_eq. Qed.

Lemma nth_insert_ne z k k' v (col : list A) : k <> k' -> nth k' (<[k:=v]> col) z = nth k' col z.
Proof. intros Hk. by rewrite !nth_lookup, list_lookup_insert_ne. Qed.

Lemma put_row_same z k n (row : list (list A)) (arow : list A) :
  k < n -> length row = length arow -> Forall (fun col => length col = n) row ->
  map (fun col => nth k col z) (zip_with (fun col v => <[k:=v]> col) row arow) = arow.
Proof.
  intros Hk Hlen Hrow. revert arow Hlen.
  induction Hrow as [|col row Hc Hrow IH]; intros [|v arow] Hlen; try done.
  simpl. rewrite nth_insert_eq by lia. f_equal. apply IH. simpl in Hlen. lia.
Qed.

Lemma put_row_other z k k' (row : list (list A)) (arow : list A) :
  k <> k' -> length row = length arow ->
  map (fun col => nth k' col z) (zip_with (fun col v => <[k:=v]> col) row arow)
  = map (fun col => nth k' col z) row.
Proof.
  intros Hk. revert arow. induction row as [|col row IH]; intros [|v arow] Hlen; try done.
  simpl. rewrite nth_insert_ne by done. f_equal. apply IH. simpl in Hlen. lia.
Qed.

Lemma put_row_wf k n (row : list (list A)) (arow : list A) :
  Forall (fun col => length col = n) row ->
  Forall (fun col => length col = n) (zip_with (fun col v => <[k:=v]> col) row arow).
Proof.
  intros Hrow. revert arow. induction Hrow as [|col row Hc Hrow IH]; intros [|v arow]; simpl;
    try by constructor.
  constructor; [by rewrite length_insert|apply IH].
Qed.

Lemma put_slice_wf k p m n items rows :
  items_wf p m n items -> rows_wf p m rows -> items_wf p m n (put_slice k items rows).
Proof.
  intros [Hp Hi] [Hp' Hr]. split.
  - unfold put_slice. rewrite length_zip_with. lia.
  - clear Hp Hp'. revert rows Hr. induction Hi as [|row items [Hm Hrow] Hi IH];
      intros rows Hr; [constructor|].
    destruct Hr as [|arow rows Ha Hr]; [constructor|]. simpl. constructor; [|by apply IH].
    split; [rewrite length_zip_with; lia|by apply put_row_wf].
Qed.

Lemma get_put_same z k p m n items rows :
  k < n -> items_wf p m n items -> rows_wf p m rows ->
  get_slice z k (put_slice k items rows) = rows.
Proof.
  intros Hk [Hp Hi] [Hp' Hr]. rewrite <- Hp' in Hp. clear Hp'. revert rows Hp Hr.
  induction Hi as [|row items [Hm Hrow] Hi IH]; intros [|arow rows] Hp Hr; try done.
  apply Forall_cons in Hr as [Ha Hr]. simpl. f_equal.
  - eapply put_row_same; [done| lia |done].
  - apply IH; [simpl in Hp; lia|done].
Qed.

Lemma get_put_other z k k' p m n items rows :
  k <> k' -> items_wf p m n items -> rows_wf p m rows ->
  get_slice z k' (put_slice k items rows) = get_slice z k' items.
Proof.
  intros Hk [Hp Hi] [Hp' Hr]. rewrite <- Hp' in Hp. clear Hp'. revert rows Hp Hr.
  induction Hi as [|row items [Hm Hrow] Hi IH]; intros [|arow rows] Hp Hr; try done.
  apply Forall_cons in Hr as [Ha Hr]. simpl. f_equal.
  - apply put_row_other; [done|lia].
  - apply IH; [simpl in Hp; lia|done].
Qed.

Lemma tensor_wf_items (t : tensor A) p m n :
  t_shape t = (p, m, n) -> tensor_wf t <-> items_wf p m n (t_items t).
Proof. intros Hsh. unfold tensor_wf. by rewrite Hsh. Qed.

Lemma matrix_wf_rows (a : matrix A) p m :
  m_shape a = (p, m) -> matrix_wf a <-> rows_wf p m (m_rows a).
Proof. intros Hsh. unfold matrix_wf. by rewrite Hsh. Qed.

(** [t[:, :, k] = a] for a value of the shape of the slice. *)
Lemma set_slice_exact (t : tensor A) k a p m n :
  t_shape t = (p, m, n) -> m_shape a = (p, m) -> matrix_wf a ->
  set_slice t k a = inr (Tensor (p, m, n) (put_slice k (t_items t) (m_rows a))).
Proof.
  intros Ht Ha Hwf. apply (matrix_wf_rows _ _ _ Ha) in Hwf as [Hp Hr].
  unfold set_slice. rewrite Ht, Ha, !Nat.eqb_refl. cbn [orb andb]. f_equal. f_equal.
  rewrite (stretch_same p (m_rows a)) by done. unfold put_slice.
  apply (zip_with_ext_Forall (fun _ => True) (fun arow => length arow = m)); [|done|].
  - by apply Forall_forall.
  - intros row arow _ Hl. by rewrite stretch_same.
Qed.

Lemma slice_items z (t : tensor A) k p m n :
  t_shape t = (p, m, n) -> k < n ->
  slice z t k = inr (Matrix (p, m) (get_slice z k (t_items t))).
Proof.
  intros Ht Hk. unfold slice. rewrite Ht. by rewrite (proj2 (Nat.ltb_lt _ _) Hk).
Qed.

Lemma empty3_wf z p m n : items_wf p m n (t_items (empty3 z (p, m, n))).
Proof.
  simpl. split; [by rewrite length_replicate|].
  apply Forall_replicate. split; [by rewrite length_replicate|].
  apply Forall_replicate. by rewrite length_replicate.
Qed.

Lemma column_ok (t : tensor A) p m n i j :
  t_shape t = (p, m, n) -> tensor_wf t -> i < p -> j < m ->
  exists col, column t i j = inr col /\ length col = n.
Proof.
  intros Ht Hwf Hi Hj. apply (tensor_wf_items _ _ _ _ Ht) in Hwf as [Hp Hrows].
  unfold column. rewrite Ht.
  rewrite (proj2 (Nat.ltb_lt _ _) Hi), (proj2 (Nat.ltb_lt _ _) Hj). simpl.
  destruct (lookup_lt_is_Some_2 (t_items t) i) as [row Hrow]; [lia|].
  rewrite Hrow. simpl.
  destruct (proj1 (Forall_lookup _ _) Hrows i row Hrow) as [Hm Hcols].
  destruct (lookup_lt_is_Some_2 row j) as [col Hcol]; [lia|].
  rewrite Hcol. exists col. split; [done|].
  by apply (proj1 (Forall_lookup _ _) Hcols j col).
Qed.

End Arrays.

(** ** Loops *)

Lemma foldE_from_inv {A St} (f : St -> nat * A -> res St) (P : nat -> St -> Prop) l j s s' :
  P j s ->
  (forall k a s1 s2, l !! k = Some a -> P (j + k) s1 -> f s1 (j + k, a) = inr s2 ->
                     P (S (j + k)) s2) ->
  foldE f s (imap (fun k a => (j + k, a)) l) = inr s' ->
  P (j + length l) s'.
Proof.
  revert j s. induction l as [|x l IH]; intros j s Hs Hstep; simpl.
  - intros [= <-]. by rewrite Nat.add_0_r.
  - destruct (f s (j + 0, x)) as [e|s1] eqn:E; [done|]. simpl.
    rewrite (imap_ext _ (fun k a => (S j + k, a))) by (intros; simpl; f_equal; lia).
    intros Hf. replace (j + S (length l)) with (S j + length l) by lia.
    apply (IH (S j) s1); [| |done].
    + replace (S j) with (S (j + 0)) by lia.
      eapply (Hstep 0); [done| |done]. by rewrite Nat.add_0_r.
    + intros k a s2 s3 Hk HP Hf'. replace (S j + k) with (j + S k) in * by lia.
      by eapply (Hstep (S k)).
Qed.

Lemma foldE_enumerate_inv {A St} (f : St -> nat * A -> res St) (P : nat -> St -> Prop) l s s' :
  P 0 s ->
  (forall k a s1 s2, l !! k = Some a -> P k s1 -> f s1 (k, a) = inr s2 -> P (S k) s2) ->
  foldE f s (enumerate l) = inr s' ->
  P (length l) s'.
Proof. intros Hs Hstep. by apply (foldE_from_inv f P l 0 s s'). Qed.

Lemma foldE_from_total {A St} (f : St -> nat * A -> res St) (P : nat -> St -> Prop) l j s :
  P j s ->
  (forall k a s1, l !! k = Some a -> P (j + k) s1 ->
                  exists s2, f s1 (j + k, a) = inr s2 /\ P (S (j + k)) s2) ->
  exists s', foldE f s (imap (fun k a => (j + k, a)) l) = inr s' /\ P (j + length l) s'.
Proof.
  revert j s. induction l as [|x l IH]; intros j s Hs Hstep; simpl.
  - exists s. by rewrite Nat.add_0_r.
  - destruct (Hstep 0 x s) as (s1 & E & Hs1); [done|by rewrite Nat.add_0_r|].
    rewrite E. simpl.
    rewrite (imap_ext _ (fun k a => (S j + k, a))) by (intros; simpl; f_equal; lia).
    replace (j + S (length l)) with (S j + length l) by lia.
    apply (IH (S j) s1); [by replace (S j) with (S (j + 0)) by lia|].
    intros k a s2 Hk Hs2. replace (S j + k) with (j + S k) in * by lia.
    by apply (Hstep (S k)).
Qed.

Lemma foldE_enumerate_total {A St} (f : St -> nat * A -> res St) (P : nat -> St -> Prop) l s :
  P 0 s ->
  (forall k a s1, l !! k = Some a -> P k s1 -> exists s2, f s1 (k, a) = inr s2 /\ P (S k) s2) ->
  exists s', foldE f s (enumerate l) = inr s' /\ P (length l) s'.
Proof. intros Hs Hstep. by apply (foldE_from_total f P l 0 s). Qed.

Lemma mapE_total {A B} (f : A -> res B) l :
  (forall a, a ∈ l -> exists b, f a = inr b) -> exists bs, mapE f l = inr bs.
Proof.
  induction l as [|x l IH]; intros Hf; simpl; [eauto|].
  destruct (Hf x) as [b ->]; [by left|]. simpl.
  destruct IH as [bs ->]; [intros; apply Hf; by right|]. simpl. eauto.
Qed.

Lemma mapE_length {A B} (f : A -> res B) l bs : mapE f l = inr bs -> length bs = length l.
Proof.
  revert bs. induction l as [|x l IH]; simpl; intros bs; [by intros [= <-]|].
  destruct (f x) as [e|b]; [done|]. simpl. destruct (mapE f l) as [e|bs']; [done|].
  simpl. intros [= <-]. simpl. f_equal. by apply IH.
Qed.

Lemma mapE_Forall {A B} (f : A -> res B) (P : B -> Prop) l bs :
  mapE f l = inr bs -> (forall a b, a ∈ l -> f a = inr b -> P b) -> Forall P bs.
Proof.
  revert bs. induction l as [|x l IH]; simpl; intros bs; [intros [= <-]; constructor|].
  destruct (f x) as [e|b] eqn:E; [done|]. simpl. destruct (mapE f l) as [e|bs']; [done|].
  simpl. intros [= <-] HP. constructor.
  - apply (HP x); [by left|done].
  - apply IH; [done|]. intros a b' Ha. apply HP. by right.
Qed.

(** ** Construction of a model from a tensor and an axis *)

Section Construction.
Context `{Numerics}.

Lemma build_ifunc_ok t ws p m n :
  t_shape t = (p, m, n) -> tensor_wf t ->
  m = p \/ m = 0 \/ p = 0 ->
  (forall x wt, exists f, splprep x wt ws 0%Q = inr f) ->
  exists f, build_ifunc t ws = inr f.
Proof.
  intros Ht Hwf Hsq Hspl. unfold build_ifunc. rewrite Ht.
  apply mapE_total. intros i Hi%elem_of_seq.
  apply mapE_total. intros j Hj%elem_of_seq.
  destruct (column_ok t p m n i j) as (col & -> & _); [done|done|lia|lia|].
  simpl. apply Hspl.
Qed.

Lemma build_ifunc_shape t ws p m n f :
  t_shape t = (p, m, n) -> build_ifunc t ws = inr f ->
  (m = p \/ m = 0 \/ p = 0) /\ length f = m /\ Forall (fun row => length row = p) f.
Proof.
  intros Ht Hf. split; [|split].
  - destruct (decide (p = m)) as [->|Hne]; [by left|].
    destruct (decide (p = 0)) as [->|Hp]; [by right; right|].
    destruct (decide (m = 0)) as [->|Hm]; [by right; left|].
    destruct (build_ifunc_not_square t ws p m n) as [e He]; [done|done|lia|lia|congruence].
  - unfold build_ifunc in Hf. rewrite Ht in Hf.
    apply mapE_length in Hf. by rewrite length_seq in Hf.
  - unfold build_ifunc in Hf. rewrite Ht in Hf.
    eapply mapE_Forall; [done|]. intros i row _ Hrow. simpl in Hrow.
    apply mapE_length in Hrow. by rewrite length_seq in Hrow.
Qed.

Lemma finish_init_fresh ws t st :
  finish_init (inr ws) (inr t) st =
    match build_ifunc t ws with
    | inr f => (constructed st ws t f, inr (S (S (length (heap st)))))
    | inl e => (st, inl e)
    end.
Proof.
  unfold finish_init, bind, ret, lift, alloc. simpl.
  destruct (build_ifunc t ws) as [e|f]; [done|]. simpl.
  destruct (t_shape t) as [[p m] n] eqn:Ht. simpl.
  unfold constructed. rewrite Ht. simpl.
  rewrite !length_app. simpl. rewrite <- !app_assoc. simpl.
  by rewrite !Nat.add_1_r.
Qed.

Lemma constructed_model st ws t f p m :
  t_shape t = (p, m, length ws) -> tensor_wf t -> build_ifunc t ws = inr f ->
  exists mr, model (constructed st ws t f) (S (S (length (heap st)))) mr ws t /\
             inputs mr = m /\ outputs mr = p /\
             extends st (constructed st ws t f).
Proof.
  intros Ht Hwf Hf. destruct (build_ifunc_shape _ _ _ _ _ _ Ht Hf) as (Hsq & Hlen & Hrows).
  eexists. split; [|split; [|split]]; [split|..]; simpl.
  - apply instance_lookup. simpl.
    rewrite lookup_app_r by lia. by replace (S (S _) - _) with 2 by lia.
  - apply axis_lookup. simpl.
    rewrite lookup_app_r by lia. by rewrite Nat.sub_diag.
  - apply tensor_at_lookup. simpl.
    rewrite lookup_app_r by lia. by replace (S _ - _) with 1 by lia.
  - done.
  - by rewrite Ht.
  - rewrite Ht. simpl. destruct Hsq as [?|[?|?]]; auto.
  - by rewrite Ht.
  - by rewrite Ht.
  - by rewrite Ht.
  - intros l c Hl. simpl. by apply lookup_app_l_Some.
Qed.

(** [FRD(t, ws)] for a 3-d array [t] and a 1-d array [ws]. *)
Lemma init_tensor_axis t ws st p m n :
  t_shape t = (p, m, n) ->
  __init__ (Args_data (OfTensor t) (vec ws)) st =
    if n =? length ws then finish_init (inr ws) (inr t) st else (st, inl shape_error).
Proof.
  intros Ht. rewrite init_data_unfold by done.
  cbn [shape_of tensor_of vec nd_shape nd_items]. rewrite Ht. simpl.
  destruct (decide (n = length ws)) as [->|Hne].
  - by rewrite bool_decide_eq_true_2, Nat.eqb_refl.
  - rewrite bool_decide_eq_false_2 by congruence.
    by rewrite (proj2 (Nat.eqb_neq _ _) Hne).
Qed.

(** [__init__] establishes [model]. *)
Lemma init_builds_model t ws st st' r :
  tensor_wf t ->
  __init__ (Args_data (OfTensor t) (vec ws)) st = (st', inr r) ->
  exists mr, model st' r mr ws t /\ extends st st'.
Proof.
  intros Hwf. destruct (t_shape t) as [[p m] n] eqn:Ht.
  rewrite (init_tensor_axis t ws st p m n Ht).
  destruct (n =? length ws) eqn:En; [|done]. apply Nat.eqb_eq in En as ->.
  rewrite finish_init_fresh. destruct (build_ifunc t ws) as [e|f] eqn:Ef; [done|].
  intros [= <- <-].
  destruct (constructed_model st ws t f p m Ht Hwf Ef) as (mr & Hm & _ & _ & He). eauto.
Qed.

(** The instance function: total on the models [__init__] builds. *)
Lemma evalfr_ok me w :
  inputs me = outputs me \/ inputs me = 0 \/ outputs me = 0 ->
  length (ifunc me) = inputs me ->
  Forall (fun row => length row = outputs me) (ifunc me) ->
  exists fr, evalfr me w = inr fr /\ m_shape fr = (outputs me, inputs me) /\ matrix_wf fr.
Proof.
  intros Hsq Hlen Hrows. unfold evalfr.
  match goal with |- context [bindE (mapE ?f ?l) _] =>
    destruct (mapE_total f l) as [rows Hr] end.
  { intros i Hi%elem_of_seq. apply mapE_total. intros j Hj%elem_of_seq.
    destruct (lookup_lt_is_Some_2 (ifunc me) i) as [row Hrow]; [lia|].
    rewrite Hrow. simpl.
    pose proof (proj1 (Forall_lookup _ _) Hrows i row Hrow) as Hl. simpl in Hl.
    destruct (lookup_lt_is_Some_2 row j) as [f Hf]; [lia|].
    rewrite Hf. eauto. }
  rewrite Hr. simpl. eexists. split; [done|]. split; [done|].
  unfold matrix_wf. simpl. split.
  - apply mapE_length in Hr. by rewrite length_seq in Hr.
  - eapply mapE_Forall; [done|]. intros i row _ Hrow. simpl in Hrow.
    apply mapE_length in Hrow. by rewrite length_seq in Hrow.
Qed.

End Construction.

(** ** Addition *)

Lemma bzip_same {X Y Z} n (f : X -> Y -> Z) l1 l2 :
  length l1 = n -> length l2 = n -> bzip n f l1 l2 = zip_with f l1 l2.
Proof. intros H1 H2. unfold bzip. by rewrite !stretch_same. Qed.

Lemma elementwise3_same {X Y Z} (f : X -> Y -> Z) (a : tensor X) (b : tensor Y) p m n :
  t_shape a = (p, m, n) -> t_shape b = (p, m, n) -> tensor_wf a -> tensor_wf b ->
  elementwise3 f a b =
    inr (Tensor (p, m, n) (zip_with (zip_with (zip_with f)) (t_items a) (t_items b))).
Proof.
  intros Ha Hb Hwa Hwb.
  apply (tensor_wf_items _ _ _ _ Ha) in Hwa as [Hpa Hra].
  apply (tensor_wf_items _ _ _ _ Hb) in Hwb as [Hpb Hrb].
  unfold elementwise3, bshape. rewrite Ha, Hb, !Nat.eqb_refl. do 2 f_equal.
  rewrite bzip_same by done.
  eapply zip_with_ext_Forall; [exact Hra|exact Hrb|].
  intros r1 r2 [Hm1 Hc1] [Hm2 Hc2]. rewrite bzip_same by done.
  eapply zip_with_ext_Forall; [exact Hc1|exact Hc2|].
  intros c1 c2 Hn1 Hn2. by rewrite bzip_same.
Qed.

Lemma zip3_wf {X Y Z} (f : X -> Y -> Z) p m n i1 i2 :
  items_wf p m n i1 -> items_wf p m n i2 ->
  items_wf p m n (zip_with (zip_with (zip_with f)) i1 i2).
Proof.
  intros [Hp1 H1] [Hp2 H2]. split; [rewrite length_zip_with; lia|].
  clear Hp1 Hp2. revert i2 H2.
  induction H1 as [|r1 i1 [Hm1 Hc1] H1 IH]; intros i2 H2; [constructor|].
  destruct H2 as [|r2 i2 [Hm2 Hc2] H2]; [constructor|]. simpl.
  constructor; [|by apply IH]. split; [rewrite length_zip_with; lia|].
  clear Hm1 Hm2. revert r2 Hc2.
  induction Hc1 as [|c1 r1 Hn1 Hc1 IHc]; intros r2 Hc2; [constructor|].
  destruct Hc2 as [|c2 r2 Hn2 Hc2]; [constructor|]. simpl.
  constructor; [rewrite length_zip_with; lia|by apply IHc].
Qed.

Lemma no_mismatch ws :
  existsb id (bzip (length ws) (fun a b => negb (Qeq_bool a b)) ws ws) = false.
Proof.
  rewrite bzip_same by done. induction ws as [|w ws IH]; [done|].
  cbn [zip_with existsb]. rewrite IH, orb_false_r. unfold id.
  apply negb_false_iff, Qeq_bool_iff. reflexivity.
Qed.

Section Addition.
Context `{Numerics}.

Lemma add_same_axis_unfold st a b ma mb ws ta tb :
  model st a ma ws ta -> model st b mb ws tb -> ascending ws = true ->
  __add__ a (VFRD b) st =
    if negb (inputs ma =? inputs mb) then
      (st, inl (ValueError "The first summand has %i input(s), but the second has %i."))
    else if negb (outputs ma =? outputs mb) then
      (st, inl (ValueError "The first summand has %i output(s), but the second has %i."))
    else finish_init (inr ws) (inr (tensor_add ta tb)) st.
Proof.
  intros Ha Hb Hasc.
  destruct Ha as [Hma Hwa Hta Hwfa Hsa Hsqa Hifa].
  pose proof Hb as [Hmb Hwb Htb Hwfb Hsb Hsqb Hifb].
  unfold __add__.
  rewrite (bind_ok _ _ _ _ _ (get_obj_ok _ _ _ Hma)).
  match goal with |- bind ?pre _ _ = _ =>
    assert (Hpre : pre st = (st, inr tt)) end.
  { rewrite (bind_ok _ _ _ _ _ (get_obj_ok _ _ _ Hmb)).
    rewrite (bind_ok _ _ _ _ _ (get_vec_ok _ _ _ Hwb)).
    rewrite (bind_ok _ _ _ _ _ (get_vec_ok _ _ _ Hwa)).
    unfold bshape. rewrite Nat.eqb_refl. by rewrite no_mismatch. }
  rewrite (bind_ok _ _ _ _ _ Hpre).
  assert (Hconv : _convertToFRD (VFRD b) (omega ma) 1 1 st = (st, inr b)).
  { by eapply (convert_same_axis st a b ma ws ta mb). }
  rewrite (bind_ok _ _ _ _ _ Hconv).
  rewrite (bind_ok _ _ _ _ _ (get_obj_ok _ _ _ Hmb)).
  destruct (inputs ma =? inputs mb) eqn:Ei; [|done].
  destruct (outputs ma =? outputs mb) eqn:Eo; [|done]. cbn [negb].
  apply Nat.eqb_eq in Ei, Eo.
  rewrite (bind_ok _ _ _ _ _ (get_tensor_ok _ _ _ Hta)).
  rewrite (bind_ok _ _ _ _ _ (get_tensor_ok _ _ _ Htb)).
  rewrite <- Ei, <- Eo in Hsb.
  rewrite (elementwise3_same Cadd ta tb _ _ _ Hsa Hsb Hwfa Hwfb).
  rewrite (bind_ok (lift (inr _)) _ st st _ eq_refl).
  rewrite (bind_ok _ _ _ _ _ (get_vec_ok _ _ _ Hwb)).
  rewrite (init_tensor_axis _ _ _ (outputs ma) (inputs ma) (length ws)) by done.
  rewrite Nat.eqb_refl. unfold tensor_add. by rewrite Hsa.
Qed.

(** C6.  For two models [a] and [b] on one (ascending) frequency axis,
    [a + b] raises the size error when the input counts differ, and when the
    output counts differ; when both agree, every result it returns is a new
    model on the same axis, with the sizes of the operands, whose response
    tensor is the element-wise sum of theirs, and it does return one whenever
    the splines can be fitted on the axis. *)
Theorem add_same_axis st a b ma mb ws ta tb :
  model st a ma ws ta -> model st b mb ws tb -> ascending ws = true ->
  (inputs ma <> inputs mb ->
     __add__ a (VFRD b) st =
       (st, inl (ValueError "The first summand has %i input(s), but the second has %i."))) /\
  (inputs ma = inputs mb -> outputs ma <> outputs mb ->
     __add__ a (VFRD b) st =
       (st, inl (ValueError "The first summand has %i output(s), but the second has %i."))) /\
  (inputs ma = inputs mb -> outputs ma = outputs mb ->
     (forall st' r, __add__ a (VFRD b) st = (st', inr r) ->
        exists mr, model st' r mr ws (tensor_add ta tb) /\
                   inputs mr = inputs ma /\ outputs mr = outputs ma /\
                   extends st st' /\ length (heap st) <= r) /\
     ((forall x wt, exists f, splprep x wt ws 0%Q = inr f) ->
        exists st' r, __add__ a (VFRD b) st = (st', inr r))).
Proof.
  intros Ha Hb Hasc. rewrite (add_same_axis_unfold st a b ma mb ws ta tb) by done.
  pose proof Ha as [Hma Hwa Hta Hwfa Hsa Hsqa Hifa].
  pose proof Hb as [Hmb Hwb Htb Hwfb Hsb Hsqb Hifb].
  split; [|split].
  - intros Hne. by rewrite (proj2 (Nat.eqb_neq _ _) Hne).
  - intros Hi Hne. by rewrite (proj2 (Nat.eqb_eq _ _) Hi), (proj2 (Nat.eqb_neq _ _) Hne).
  - intros Hi Ho. rewrite (proj2 (Nat.eqb_eq _ _) Hi), (proj2 (Nat.eqb_eq _ _) Ho). simpl.
    assert (Hs : t_shape (tensor_add ta tb) = (outputs ma, inputs ma, length ws)) by done.
    assert (Hwf : tensor_wf (tensor_add ta tb)).
    { apply (tensor_wf_items _ _ _ _ Hs). simpl. apply zip3_wf.
      - by apply (tensor_wf_items _ _ _ _ Hsa).
      - rewrite <- Hi, <- Ho in Hsb. by apply (tensor_wf_items _ _ _ _ Hsb). }
    rewrite finish_init_fresh. split.
    + intros st' r. destruct (build_ifunc _ ws) as [e|f] eqn:Ef; [done|].
      intros [= <- <-].
      destruct (constructed_model st ws _ f _ _ Hs Hwf Ef) as (mr & Hm & Hmi & Hmo & He).
      exists mr. split; [done|]. split; [done|]. split; [done|]. split; [done|lia].
    + intros Hspl.
      destruct (build_ifunc_ok (tensor_add ta tb) ws _ _ _ Hs Hwf) as [f ->]; [|done|eauto].
      destruct Hsqa as [?|[?|?]]; auto.
Qed.

End Addition.

(** ** Frequency sweep *)

Lemma mmap_rows_wf {X Y} (f : X -> Y) (a : matrix X) p m :
  m_shape a = (p, m) -> matrix_wf a -> rows_wf p m (map (map f) (m_rows a)).
Proof.
  intros Ha Hwf. apply (matrix_wf_rows _ _ _ Ha) in Hwf as [Hp Hr].
  split; [by rewrite length_map|]. apply Forall_map.
  eapply Forall_impl; [done|]. intros row Hl. simpl. by rewrite length_map.
Qed.

Section Sweep.
Context `{Numerics}.

(** C8.  [freqresp(frequencies)] sorts the caller's sequence in place: after
    the call the location it was given holds the ascending permutation of
    its former contents, and the same location is returned as the third
    component.  The magnitude and phase tensors have shape [outputs, inputs,
    N], and their slices at index [k] are the absolute values and the angles
    of the entries of [evalfr] at the [k]-th sorted frequency. *)
Theorem freqresp_sorts_and_evaluates st self me ws0 t target ws :
  model st self me ws0 t -> axis st target = Some ws ->
  exists mag phase,
    freqresp self target st = (sort_at target st, inr (mag, phase, target)) /\
    axis (sort_at target st) target = Some (sort_asc ws) /\
    Sorted Qle (sort_asc ws) /\ Permutation (sort_asc ws) ws /\
    t_shape mag = (outputs me, inputs me, length ws) /\
    t_shape phase = (outputs me, inputs me, length ws) /\
    forall k w, sort_asc ws !! k = Some w ->
      exists fr, evalfr me w = inr fr /\
                 slice 0%Q mag k = inr (mmap absolute fr) /\
                 slice 0%Q phase k = inr (mmap angle fr).
Proof.
  intros [Hme _ _ _ _ Hsq [Hlen Hrows]] Hw.
  set (p := outputs me). set (m := inputs me). set (n := length ws).
  set (sws := sort_asc ws).
  pose (P := fun (k : nat) (mp : tensor Q * tensor Q) =>
    t_shape mp.1 = (p, m, n) /\ items_wf p m n (t_items mp.1) /\
    t_shape mp.2 = (p, m, n) /\ items_wf p m n (t_items mp.2) /\
    forall k' w, k' < k -> sws !! k' = Some w ->
      exists fr, evalfr me w = inr fr /\
        get_slice 0%Q k' (t_items mp.1) = map (map absolute) (m_rows fr) /\
        get_slice 0%Q k' (t_items mp.2) = map (map angle) (m_rows fr)).
  destruct (foldE_enumerate_total
    (fun (mp : tensor Q * tensor Q) kw =>
       (fr <- evalfr me kw.2 ;;
        mag <- set_slice mp.1 kw.1 (mmap absolute fr) ;;
        phase <- set_slice mp.2 kw.1 (mmap angle fr) ;;
        inr (mag, phase))%E)
    P sws (empty3 0%Q (p, m, n), empty3 0%Q (p, m, n))) as (mp & Hfold & HP).
  { unfold P. simpl. repeat split; try apply (empty3_wf 0%Q p m n). intros; lia. }
  { intros k w [mag phase] Hk (Hs1 & Hw1 & Hs2 & Hw2 & Hprev). simpl in *.
    destruct (evalfr_ok me w Hsq Hlen Hrows) as (fr & Hfr & Hfs & Hfw).
    rewrite Hfr. simpl.
    assert (Hkn : k < n).
    { apply lookup_lt_Some in Hk. unfold sws in Hk. by rewrite sort_asc_length in Hk. }
    pose proof (mmap_rows_wf absolute fr p m Hfs Hfw) as Hra.
    pose proof (mmap_rows_wf angle fr p m Hfs Hfw) as Hrp.
    rewrite (set_slice_exact mag k (mmap absolute fr) p m n Hs1 Hfs)
      by (by apply (matrix_wf_rows (mmap absolute fr) p m Hfs)).
    simpl.
    rewrite (set_slice_exact phase k (mmap angle fr) p m n Hs2 Hfs)
      by (by apply (matrix_wf_rows (mmap angle fr) p m Hfs)).
    simpl. eexists. split; [done|]. unfold P. simpl.
    split; [done|]. split; [by apply put_slice_wf|].
    split; [done|]. split; [by apply put_slice_wf|].
    intros k' w' Hk' Hw'. destruct (decide (k' = k)) as [->|Hne].
    - assert (w' = w) as -> by congruence. exists fr. split; [done|].
      by rewrite !(get_put_same _ k p m n).
    - destruct (Hprev k' w') as (fr' & Hfr' & Hm' & Hp'); [lia|done|].
      exists fr'. split; [done|]. by rewrite !(get_put_other _ k k' p m n). }
  destruct HP as (Hs1 & Hw1 & Hs2 & Hw2 & Hall).
  exists mp.1, mp.2. split; [|split; [|split; [|split; [|split; [|split]]]]].
  - unfold freqresp.
    rewrite (bind_ok _ _ _ _ _ (get_obj_ok _ _ _ Hme)).
    rewrite (bind_ok _ _ _ _ _ (get_vec_ok _ _ _ Hw)).
    rewrite (bind_ok _ _ _ _ _ (sort_inplace_ok _ _ _ Hw)).
    rewrite (bind_ok _ _ _ _ _ (get_vec_ok _ _ _ (sort_at_axis _ _ _ Hw))).
    fold p m n sws. unfold bind, lift, ret. by rewrite Hfold.
  - by apply sort_at_axis.
  - apply sort_asc_sorted.
  - apply sort_asc_perm.
  - done.
  - done.
  - intros k w Hk.
    assert (Hkn : k < n).
    { pose proof (lookup_lt_Some _ _ _ Hk) as Hlt. unfold sws in Hlt.
      by rewrite sort_asc_length in Hlt. }
    destruct (Hall k w) as (fr & Hfr & Hm & Hp).
    { unfold sws. by rewrite sort_asc_length. }
    { done. }
    destruct (evalfr_ok me w Hsq Hlen Hrows) as (fr0 & Hfr0 & Hfs & Hfw).
    assert (fr0 = fr) as -> by congruence.
    exists fr. split; [done|].
    rewrite (slice_items _ mp.1 k p m n Hs1 Hkn), (slice_items _ mp.2 k p m n Hs2 Hkn).
    unfold mmap. by rewrite Hfs, Hm, Hp.
Qed.

End Sweep.

(** ** Feedback *)

Lemma eye_wf n : matrix_wf (eye n).
Proof.
  unfold matrix_wf, eye. simpl. split; [by rewrite length_map, length_seq|].
  apply Forall_map, Forall_forall. intros i _. simpl. by rewrite length_map, length_seq.
Qed.

Lemma matmul_inv (a b y : matrix C) r1 c1 r2 c2 :
  m_shape a = (r1, c1) -> m_shape b = (r2, c2) -> matmul a b = inr y ->
  c1 = r2 /\ m_shape y = (r1, c2) /\ (matrix_wf a -> matrix_wf y).
Proof.
  intros Ha Hb. unfold matmul. rewrite Ha, Hb.
  destruct (c1 =? r2) eqn:E; [|done]. apply Nat.eqb_eq in E. intros [= <-].
  split; [done|]. split; [done|]. intros Hwf.
  apply (matrix_wf_rows _ _ _ Ha) in Hwf as [Hr Hrows].
  unfold matrix_wf. simpl. split; [by rewrite length_map|].
  apply Forall_map, Forall_forall. intros row _. simpl. by rewrite length_map, length_seq.
Qed.

Lemma matmul_ok (a b : matrix C) r c1 c2 :
  m_shape a = (r, c1) -> m_shape b = (c1, c2) -> exists y, matmul a b = inr y.
Proof. intros Ha Hb. unfold matmul. rewrite Ha, Hb, Nat.eqb_refl. eauto. Qed.

Lemma get_slice_wf {X} (z : X) k p m n items :
  items_wf p m n items -> rows_wf p m (get_slice z k items).
Proof.
  intros [Hp Hrows]. split; [unfold get_slice; by rewrite length_map|].
  unfold get_slice. apply Forall_map. eapply Forall_impl; [done|].
  intros row [Hm _]. simpl. by rewrite length_map.
Qed.

Lemma slice_ok {X} (z : X) (t : tensor X) k p m n :
  t_shape t = (p, m, n) -> tensor_wf t -> k < n ->
  exists a, slice z t k = inr a /\ m_shape a = (p, m) /\ matrix_wf a /\
            m_rows a = get_slice z k (t_items t).
Proof.
  intros Ht Hwf Hk. rewrite (slice_items z t k p m n Ht Hk). eexists. split; [done|].
  split; [done|]. split; [|done].
  apply (matrix_wf_rows _ p m); [done|]. simpl.
  eapply get_slice_wf. by apply (tensor_wf_items _ _ _ _ Ht).
Qed.

Section Feedback.
Context `{Numerics}.

Lemma feedback_sample_inv m po p c y :
  solve_keeps_shape ->
  m_shape p = (po, m) -> m_shape c = (m, po) ->
  feedback_sample m p c = inr y ->
  m = po /\ closed_loop p c = inr y /\ m_shape y = (po, m) /\ matrix_wf y.
Proof.
  intros Hsolve Hp Hc. unfold feedback_sample, closed_loop.
  destruct (matmul p c) as [e|pc] eqn:Epc; [done|]. simpl.
  destruct (matmul_inv p c pc _ _ _ _ Hp Hc Epc) as (_ & Hpc & _).
  destruct (elementwise2 Cadd (eye m) pc) as [e|a] eqn:Ea; [done|]. simpl.
  destruct (linalg_solve a (eye m)) as [e|x] eqn:Ex; [done|]. simpl.
  destruct (Hsolve a (eye m) x (eye_wf m) Ex) as [Hx Hxwf]. simpl in Hx.
  intros Hy. destruct (matmul_inv x p y _ _ _ _ Hx Hp Hy) as (-> & Hys & Hywf).
  rewrite Hpc. simpl. rewrite Ea. simpl. rewrite Ex. simpl. auto.
Qed.

Lemma closed_loop_square m p c :
  m_shape p = (m, m) -> m_shape c = (m, m) -> closed_loop p c = feedback_sample m p c.
Proof.
  intros Hp Hc. unfold closed_loop, feedback_sample.
  destruct (matmul p c) as [e|pc] eqn:Epc; [done|]. simpl.
  destruct (matmul_inv p c pc _ _ _ _ Hp Hc Epc) as (_ & Hpc & _).
  by rewrite Hpc.
Qed.

Lemma filled_step po m n ta tb k w t t' :
  solve_keeps_shape ->
  t_shape ta = (po, m, n) -> tensor_wf ta ->
  t_shape tb = (m, po, n) -> tensor_wf tb ->
  k < n ->
  filled po m n ta tb k t ->
  feedback_loop m ta tb t (k, w) = inr t' ->
  filled po m n ta tb (S k) t'.
Proof.
  intros Hsolve Hsa Hwa Hsb Hwb Hk (Hst & Hwt & Hprev). unfold feedback_loop. simpl.
  destruct (slice_ok C0 ta k po m n Hsa Hwa Hk) as (p & Ep & Hps & Hpw & _).
  destruct (slice_ok C0 tb k m po n Hsb Hwb Hk) as (c & Ec & Hcs & Hcw & _).
  rewrite Ep, Ec. simpl.
  destruct (feedback_sample m p c) as [e|y] eqn:Ey; [done|]. simpl.
  destruct (feedback_sample_inv m po p c y Hsolve Hps Hcs Ey) as (-> & Hcl & Hys & Hyw).
  rewrite (set_slice_exact t k y po po n Hst Hys Hyw). intros [= <-].
  pose proof (proj1 (matrix_wf_rows y po po Hys) Hyw) as Hyr.
  split; [done|]. split; [by apply put_slice_wf|].
  intros k' Hk'. destruct (decide (k' = k)) as [->|Hne].
  - exists p, c, y. split; [done|]. split; [done|]. split; [done|].
    rewrite (slice_items C0 _ k po po n) by done. simpl.
    rewrite (get_put_same C0 k po po n) by done. destruct y. simpl in *. by rewrite Hys.
  - destruct (Hprev k') as (p' & c' & y' & Ep' & Ec' & Ecl' & Ey'); [lia|].
    exists p', c', y'. split; [done|]. split; [done|]. split; [done|].
    assert (Hk'n : k' < n) by lia.
    rewrite (slice_items C0 _ k' po po n) by done. simpl.
    rewrite (get_put_other C0 k k' po po n) by done.
    by rewrite (slice_items C0 t k' po po n Hst Hk'n) in Ey'.
Qed.

Lemma feedback_same_axis_unfold st a b ma mb ws ta tb sign :
  model st a ma ws ta -> model st b mb ws tb -> ascending ws = true ->
  feedback a (VFRD b) sign st =
    if negb (outputs ma =? inputs mb) || negb (inputs ma =? outputs mb) then
      (st, inl (ValueError "FRD.feedback, inputs/outputs mismatch"))
    else
      match foldE (feedback_loop (inputs ma) ta tb)
                  (empty3 C0 (outputs ma, inputs ma, length ws)) (enumerate ws) with
      | inl e => (st, inl e)
      | inr t => __init__ (Args_data (OfTensor t) (vec ws)) st
      end.
Proof.
  intros Ha Hb Hasc.
  pose proof Ha as [Hma Hwa Hta Hwfa Hsa Hsqa Hifa].
  pose proof Hb as [Hmb Hwb Htb Hwfb Hsb Hsqb Hifb].
  unfold feedback.
  rewrite (bind_ok _ _ _ _ _ (get_obj_ok _ _ _ Hma)).
  rewrite (bind_ok _ _ _ _ _ (convert_same_axis st a b ma ws ta mb 1 1 Ha Hmb Hwb Hasc)).
  rewrite (bind_ok _ _ _ _ _ (get_obj_ok _ _ _ Hmb)).
  destruct (negb (outputs ma =? inputs mb) || negb (inputs ma =? outputs mb)); [done|].
  rewrite (bind_ok _ _ _ _ _ (get_vec_ok _ _ _ Hwb)).
  rewrite (bind_ok _ _ _ _ _ (get_tensor_ok _ _ _ Hta)).
  rewrite (bind_ok _ _ _ _ _ (get_tensor_ok _ _ _ Htb)).
  unfold bind, lift. fold (feedback_loop (inputs ma) ta tb).
  by destruct (foldE _ _ _).
Qed.

(** C2.  For two models [P] and [C] on one (ascending) frequency axis,
    [P.feedback(C, sign)] gives the same result for every [sign]; it raises
    the mismatch error unless [P.outputs = C.inputs] and [P.inputs =
    C.outputs]; with matching sizes, every result it returns is a new model
    on the same axis whose response at each sample [k] is
    [(I + P_k C_k)^-1 P_k] computed by a linear solve; and it does return one
    for a square [P] whenever the solve succeeds at every sample and the
    splines can be fitted on the axis. *)
Theorem feedback_closed_loop st a b ma mb ws ta tb sign :
  solve_keeps_shape ->
  model st a ma ws ta -> model st b mb ws tb -> ascending ws = true ->
  (forall sign', feedback a (VFRD b) sign' st = feedback a (VFRD b) sign st) /\
  (outputs ma <> inputs mb \/ inputs ma <> outputs mb ->
     feedback a (VFRD b) sign st =
       (st, inl (ValueError "FRD.feedback, inputs/outputs mismatch"))) /\
  (outputs ma = inputs mb -> inputs ma = outputs mb ->
     (forall st' r, feedback a (VFRD b) sign st = (st', inr r) ->
        exists mr tr, model st' r mr ws tr /\
          inputs mr = inputs ma /\ outputs mr = outputs ma /\
          extends st st' /\ length (heap st) <= r /\
          forall k, k < length ws ->
            exists p c y, slice C0 ta k = inr p /\ slice C0 tb k = inr c /\
                          closed_loop p c = inr y /\ slice C0 tr k = inr y) /\
     (inputs ma = outputs ma ->
      (forall k p c, k < length ws -> slice C0 ta k = inr p -> slice C0 tb k = inr c ->
                     exists y, closed_loop p c = inr y) ->
      (forall x wt, exists f, splprep x wt ws 0%Q = inr f) ->
      exists st' r, feedback a (VFRD b) sign st = (st', inr r))).
Proof.
  intros Hsolve Ha Hb Hasc. split; [done|].
  rewrite (feedback_same_axis_unfold st a b ma mb ws ta tb sign) by done.
  pose proof Ha as [Hma Hwa Hta Hwfa Hsa Hsqa Hifa].
  pose proof Hb as [Hmb Hwb Htb Hwfb Hsb Hsqb Hifb].
  split.
  - intros [Hne|Hne]; rewrite (proj2 (Nat.eqb_neq _ _) Hne); simpl; [done|].
    by rewrite orb_true_r.
  - intros Ho Hi. rewrite (proj2 (Nat.eqb_eq _ _) Ho), (proj2 (Nat.eqb_eq _ _) Hi).
    cbn [negb orb].
    set (po := outputs ma) in *. set (m := inputs ma) in *. set (n := length ws) in *.
    rewrite <- Ho, <- Hi in Hsb. fold po m in Hsb.
    assert (H0 : filled po m n ta tb 0 (empty3 C0 (po, m, n))).
    { split; [done|]. split; [apply empty3_wf|]. intros; lia. }
    split.
    + intros st' r.
      destruct (foldE _ _ _) as [e|t] eqn:Efold; [done|].
      apply (foldE_enumerate_inv _ (filled po m n ta tb)) in Efold; [|done|].
      2:{ intros k w t1 t2 Hk Hf Hstep. eapply filled_step; try done.
          by apply lookup_lt_Some in Hk. }
      destruct Efold as (Hst & Hwt & Hall).
      rewrite (init_tensor_axis t ws st po m n Hst). fold n. rewrite Nat.eqb_refl.
      rewrite finish_init_fresh.
      destruct (build_ifunc t ws) as [e|f] eqn:Ef; [done|]. intros [= <- <-].
      assert (Hwf : tensor_wf t) by by apply (tensor_wf_items _ _ _ _ Hst).
      destruct (constructed_model st ws t f po m Hst Hwf Ef) as (mr & Hm & Hmi & Hmo & He).
      exists mr, t. split; [done|]. split; [done|]. split; [done|]. split; [done|].
      split; [lia|]. done.
    + intros Hsq Hsolved Hspl. fold po m in Hsq.
      destruct (foldE_enumerate_total (feedback_loop m ta tb) (filled po m n ta tb) ws
                  (empty3 C0 (po, m, n)) H0) as (t & -> & Hst & Hwt & _).
      { intros k w t1 Hk Hf. apply lookup_lt_Some in Hk. fold n in Hk.
        assert (exists t2, feedback_loop m ta tb t1 (k, w) = inr t2) as [t2 Ht2].
        { unfold feedback_loop. simpl.
          destruct (slice_ok C0 ta k po m n Hsa Hwfa Hk) as (p & Ep & Hps & Hpw & _).
          destruct (slice_ok C0 tb k m po n Hsb Hwfb Hk) as (c & Ec & Hcs & Hcw & _).
          rewrite Ep, Ec. simpl.
          destruct (Hsolved k p c Hk Ep Ec) as [y Hy].
          assert (Hps' : m_shape p = (m, m)) by by rewrite Hps, Hsq.
          assert (Hcs' : m_shape c = (m, m)) by by rewrite Hcs, Hsq.
          rewrite (closed_loop_square m p c Hps' Hcs') in Hy. rewrite Hy. simpl.
          destruct (feedback_sample_inv m po p c y Hsolve Hps Hcs Hy) as (_ & _ & Hys & Hyw).
          destruct Hf as (Hst1 & _).
          rewrite (set_slice_exact t1 k y po m n Hst1 Hys Hyw). eauto. }
        exists t2. split; [done|]. by eapply filled_step. }
      rewrite (init_tensor_axis t ws st po m n Hst). fold n. rewrite Nat.eqb_refl.
      rewrite finish_init_fresh.
      assert (Hwf : tensor_wf t) by by apply (tensor_wf_items _ _ _ _ Hst).
      destruct (build_ifunc_ok t ws po m n Hst Hwf) as [f ->]; [auto|done|eauto].
Qed.

End Feedback.

(** ** Concrete runs *)

Lemma two_models_first :
  exists me, @model two_models 2 me [1; 2; 3; 4]%Q (constant3 (Cplx 2 0) (1, 1, 4)) /\
             inputs me = 1 /\ outputs me = 1 /\ omega me = 0.
Proof.
  eexists. split; [split|]; try reflexivity.
  - split; [done|]. repeat constructor.
  - by left.
  - split; [done|]. repeat constructor.
  - done.
Qed.

Lemma two_models_second :
  exists me, @model two_models 5 me [1; 2; 3; 4]%Q (constant3 (Cplx 4 0) (1, 1, 4)) /\
             inputs me = 1 /\ outputs me = 1.
Proof.
  eexists. split; [split|]; try reflexivity.
  - split; [done|]. repeat constructor.
  - by left.
  - split; [done|]. repeat constructor.
  - done.
Qed.

Lemma hold_kernel_solve : @solve_keeps_shape hold_kernel.
Proof.
  intros a b x Hb. simpl. unfold solve1.
  destruct (m_rows a) as [|[|z []] []]; try done.
  destruct (_ && _); [done|]. intros [= <-]. split; [done|].
  unfold matrix_wf in *. simpl. destruct (m_shape b) as [r c].
  destruct Hb as [Hr Hrows]. split; [by rewrite length_map|].
  apply Forall_map. eapply Forall_impl; [done|]. intros row Hl. simpl. by rewrite length_map.
Qed.

Lemma mul_never_returns_a_model_witness :
  @__mul__ hold_kernel 2 (VFRD 5) two_models = (two_models, inl (no_attribute "num")).
Proof.
  destruct two_models_first as (ma & Ha & Hia & Hoa & _).
  destruct two_models_second as (mb & Hb & Hib & Hob).
  apply (proj2 (@mul_never_returns_a_model hold_kernel) two_models 2 5 ma mb _ _ _ Ha Hb);
    [reflexivity|lia..].
Defined.

Lemma div_never_returns_a_model_witness :
  @__div__ hold_kernel 2 (VFRD 5) two_models = (two_models, inl (no_attribute "num")).
Proof.
  destruct two_models_first as (ma & Ha & Hia & Hoa & _).
  destruct two_models_second as (mb & Hb & Hib & Hob).
  apply (proj1 (proj2 (@div_never_returns_a_model hold_kernel))
           two_models 2 5 ma mb _ _ _ Ha Hb); [reflexivity|lia..].
Defined.

Lemma init_from_data_witness :
  @__init__ hold_kernel
    (Args_data (OfSeq (vector [C1; C1; C1; C1])) (vec [1; 2; 3; 4]%Q)) empty_state
  = (empty_state, inl shape_error) /\
  exists e, @__init__ hold_kernel
    (Args_data (OfTensor (constant3 C1 (2, 3, 5))) (vec [1; 2; 3; 4; 5]%Q)) empty_state
  = (empty_state, inl e).
Proof.
  destruct (@init_from_data hold_kernel empty_state) as (H1 & H2 & _). split.
  - apply H1.
  - destruct (H2 (constant3 C1 (2, 3, 5)) (vec [1; 2; 3; 4; 5]%Q) eq_refl) as (e & He & _).
    by exists e.
Defined.

Lemma add_same_axis_witness :
  exists st' r mr,
    @__add__ hold_kernel 2 (VFRD 5) two_models = (st', inr r) /\
    model st' r mr [1; 2; 3; 4]%Q
      (tensor_add (constant3 (Cplx 2 0) (1, 1, 4)) (constant3 (Cplx 4 0) (1, 1, 4))).
Proof.
  destruct two_models_first as (ma & Ha & Hia & Hoa & _).
  destruct two_models_second as (mb & Hb & Hib & Hob).
  destruct (@add_same_axis hold_kernel two_models 2 5 ma mb _ _ _ Ha Hb eq_refl)
    as (_ & _ & Hadd).
  destruct Hadd as [Hres Hex]; [lia|lia|].
  destruct Hex as (st' & r & Hrun).
  { intros x wt. eexists. reflexivity. }
  destruct (Hres st' r Hrun) as (mr & Hm & _).
  by exists st', r, mr.
Defined.

Lemma feedback_closed_loop_witness :
  exists st' r, @feedback hold_kernel 2 (VFRD 5) (PyInt (-1)) two_models = (st', inr r).
Proof.
  destruct two_models_first as (ma & Ha & Hia & Hoa & _).
  destruct two_models_second as (mb & Hb & Hib & Hob).
  destruct (@feedback_closed_loop hold_kernel two_models 2 5 ma mb _ _ _ (PyInt (-1))
              hold_kernel_solve Ha Hb eq_refl) as (_ & _ & Hfb).
  destruct Hfb as [_ Hex]; [lia|lia|].
  apply Hex; [lia| |].
  - intros k p c Hk Hp Hc. simpl in Hk.
    destruct k as [|[|[|[|k]]]]; [| | | |lia]; vm_compute in Hp, Hc;
      injection Hp as <-; injection Hc as <-; eexists; vm_compute; reflexivity.
  - intros x wt. eexists. reflexivity.
Defined.

Lemma freqresp_sorts_and_evaluates_witness :
  exists mag phase,
    @freqresp hold_kernel 2 6 with_sweep = (sort_at 6 with_sweep, inr (mag, phase, 6)) /\
    axis with_sweep 6 = Some [3; 1; 2]%Q /\
    axis (sort_at 6 with_sweep) 6 = Some [1; 2; 3]%Q.
Proof.
  assert (Hm : exists me, @model with_sweep 2 me [1; 2; 3; 4]%Q (constant3 (Cplx 2 0) (1, 1, 4))).
  { eexists. split; try reflexivity.
    - split; [done|]. repeat constructor.
    - by left.
    - split; [done|]. repeat constructor. }
  destruct Hm as [me Hm].
  destruct (@freqresp_sorts_and_evaluates hold_kernel with_sweep 2 me _ _ 6 [3; 1; 2]%Q
              Hm eq_refl) as (mag & phase & Hrun & Hax & _).
  exists mag, phase. split; [exact Hrun|]. split; [reflexivity|exact Hax].
Defined.

Lemma convert_matching_axis_witness :
  exists st',
    @_convertToFRD hold_kernel (VFRD 5) 0 1 1 two_models = (st', inr 5) /\ st' = two_models.
Proof.
  destruct two_models_second as (mb & Hb & _).
  destruct (@convert_matching_axis_returns_instance hold_kernel two_models 5 mb 0
              [1; 2; 3; 4]%Q [1; 2; 3; 4]%Q 1 1) as (st' & Hrun & _ & _ & _ & Hsame).
  - apply Hb.
  - reflexivity.
  - rewrite (sort_at_ascending 0 two_models [1; 2; 3; 4]%Q) by reflexivity. apply Hb.
  - reflexivity.
  - exists st'. split; [exact Hrun|]. by apply Hsame.
Defined.

Lemma convert_sorts_target_witness :
  axis with_sweep 6 = Some [3; 1; 2]%Q /\
  axis (@_convertToFRD hold_kernel (VFRD 5) 6 1 1 with_sweep).1 6 = Some [1; 2; 3]%Q.
Proof.
  split; [reflexivity|].
  destruct (@convert_sorts_target_in_place hold_kernel with_sweep (VFRD 5) 6
              [3; 1; 2]%Q 1 1 eq_refl I) as [[Hax _] _].
  exact Hax.
Defined.

(** The runs of the specification's examples, with [hold_kernel]. *)

Example sum_of_two_models :
  (@__add__ hold_kernel 2 (VFRD 5) two_models).2 = inr 8 /\
  tensor_at (@__add__ hold_kernel 2 (VFRD 5) two_models).1 7
  = Some (constant3 (Cplx 6 0) (1, 1, 4)).
Proof. split; reflexivity. Qed.

Example product_of_two_models :
  (@__mul__ hold_kernel 2 (VFRD 5) two_models).2 = inl (no_attribute "num").
Proof. reflexivity. Qed.

Example quotient_of_two_models :
  (@__div__ hold_kernel 2 (VFRD 5) two_models).2 = inl (no_attribute "num").
Proof. reflexivity. Qed.

Example power_zero :
  (@__pow__ hold_kernel 2 (VNum (PyInt 0)) two_models).2 = inl shape_error.
Proof. reflexivity. Qed.

Example response_2x3x5 :
  (@__init__ hold_kernel (Args_data (OfTensor (constant3 C1 (2, 3, 5)))
                                    (vec [1; 2; 3; 4; 5]%Q)) empty_state).2
  = inl (IndexError "index out of bounds").
Proof. reflexivity. Qed.

Example response_2x3x5_axis_4 :
  (@__init__ hold_kernel (Args_data (OfTensor (constant3 C1 (2, 3, 5)))
                                    (vec [1; 2; 3; 4]%Q)) empty_state).2
  = inl shape_error.
Proof. reflexivity. Qed.

Example sweep_3_1_2 :
  (@freqresp hold_kernel 2 6 with_sweep).2
  = inr (constant3 2%Q (1, 1, 3), constant3 0%Q (1, 1, 3), 6) /\
  axis (@freqresp hold_kernel 2 6 with_sweep).1 6 = Some [1; 2; 3]%Q.
Proof. split; reflexivity. Qed.

(** The feedback of the two models: 2 / (1 + 2 * 4) at every sample. *)
Example feedback_of_two_models :
  match tensor_at (@feedback hold_kernel 2 (VFRD 5) (PyInt (-1)) two_models).1 7 with
  | Some t => forallb (forallb (forallb (fun z => Qeq_bool (re z) (2 # 9) && Qeq_bool (im z) 0)))
                      (t_items t)
  | None => false
  end = true.
Proof. reflexivity. Qed.

(** A target axis that is not ascending is compared after its sort: the
    candidate's axis [2, 1] equals the target's before the call, not after,
    and the candidate is not returned. *)
Example unsorted_target :
  let st := State [RealVec [2; 1]%Q; RealVec [2; 1]%Q; CplxTensor (constant3 C1 (1, 1, 2));
                   Instance_ {| omega := 1; fresp := 2; ifunc := [[([], [], 3)]];
                                inputs := 1; outputs := 1 |}] [] in
  allclose [2; 1]%Q [2; 1]%Q = true /\
  (@_convertToFRD hold_kernel (VFRD 3) 0 1 1 st).2
  = inl (ValueError "The truth value of an array with more than one element is ambiguous.") /\
  axis (@_convertToFRD hold_kernel (VFRD 3) 0 1 1 st).1 0 = Some [1; 2]%Q.
Proof. repeat split; reflexivity. Qed.

(** * Properties of the remaining code *)

(** ** What a construction leaves behind *)

Section Results.
Context `{Numerics}.

(** A construction that raises leaves the state as it was. *)
Lemma finish_init_error om fr st st' e : finish_init om fr st = (st', inl e) -> st' = st.
Proof.
  unfold finish_init, bind, get_vec, get_tensor, deref, ret, lift, alloc.
  destruct om as [l|ws], fr as [l'|t]; simpl;
    repeat (case_match; simpl in *; simplify_eq; try done); intros; by simplify_eq.
Qed.

Lemma init_error args st st' e : __init__ args st = (st', inl e) -> st' = st.
Proof.
  unfold __init__, bind, lift, raise, get_obj, deref.
  destruct args as [s w|d w|a|n]; simpl;
    repeat (case_match; simpl in *; simplify_eq; try done);
    eauto using finish_init_error; intros; by simplify_eq.
Qed.

(** [FRD(t, ws)] returns only after fitting the splines: the state has the
    new axis, tensor and instance at its end. *)
Lemma init_tensor_result t ws st st' r :
  __init__ (Args_data (OfTensor t) (vec ws)) st = (st', inr r) ->
  exists f, build_ifunc t ws = inr f /\ st' = constructed st ws t f /\
            r = S (S (length (heap st))) /\ (t_shape t).2 = length ws.
Proof.
  destruct (t_shape t) as [[p m] n] eqn:Ht.
  rewrite (init_tensor_axis t ws st p m n Ht).
  destruct (n =? length ws) eqn:En; [|done]. apply Nat.eqb_eq in En as ->.
  rewrite finish_init_fresh. destruct (build_ifunc t ws) as [e|f] eqn:Ef; [done|].
  intros [= <- <-]. by exists f.
Qed.

(** The construction from a well-formed tensor on an axis of its length. *)
Lemma finish_init_model st ws t p m :
  t_shape t = (p, m, length ws) -> tensor_wf t ->
  (forall st' r, finish_init (inr ws) (inr t) st = (st', inr r) ->
     exists mr, model st' r mr ws t /\ inputs mr = m /\ outputs mr = p /\
                extends st st' /\ r = S (S (length (heap st))) /\
                omega mr = length (heap st) /\ stdout st' = stdout st) /\
  (m = p \/ m = 0 \/ p = 0 -> fits ws ->
     exists st' r, finish_init (inr ws) (inr t) st = (st', inr r)).
Proof.
  intros Hs Hwf. rewrite finish_init_fresh. split.
  - intros st' r. destruct (build_ifunc t ws) as [e|f] eqn:Ef; [done|].
    intros [= <- <-].
    destruct (constructed_model st ws t f p m Hs Hwf Ef) as (mr & Hm & Hmi & Hmo & He).
    exists mr. do 5 (split; [done|]). split; [|done].
    pose proof (model_instance _ _ _ _ _ Hm) as Hi. apply instance_lookup in Hi.
    simpl in Hi. rewrite lookup_app_r in Hi by lia.
    replace (S (S _) - _) with 2 in Hi by lia. simpl in Hi. by injection Hi as <-.
  - intros Hsq Hfit.
    destruct (build_ifunc_ok t ws p m (length ws) Hs Hwf Hsq Hfit) as [f ->]. eauto.
Qed.

End Results.

(** ** Negation *)

Lemma tmap_wf {X Y} (f : X -> Y) (t : tensor X) : tensor_wf t -> tensor_wf (tmap f t).
Proof.
  unfold tensor_wf, tmap. simpl. destruct (t_shape t) as [[p m] n].
  intros [Hp Hall]. split; [by rewrite length_map|].
  apply Forall_map. eapply Forall_impl; [exact Hall|]. intros row [Hm Hc]. simpl.
  split; [by rewrite length_map|]. apply Forall_map. eapply Forall_impl; [exact Hc|].
  intros col Hn. simpl. by rewrite length_map.
Qed.

Lemma Copp_involutive z : Copp (Copp z) = z.
Proof.
  destruct z as [[a b] [c d]]. unfold Copp, Qopp. simpl. by rewrite !Z.opp_involutive.
Qed.

Lemma tensor_neg_involutive t : tensor_neg (tensor_neg t) = t.
Proof.
  destruct t as [sh items]. unfold tensor_neg, tmap. simpl. f_equal.
  rewrite <- (list_fmap_id items) at 2. rewrite <- list_fmap_compose.
  apply list_fmap_ext. intros _ row _. simpl.
  rewrite <- (list_fmap_id row) at 2. rewrite <- list_fmap_compose.
  apply list_fmap_ext. intros _ col _. simpl.
  rewrite <- (list_fmap_id col) at 2. rewrite <- list_fmap_compose.
  apply list_fmap_ext. intros _ z _. simpl. apply Copp_involutive.
Qed.

Lemma model_extends st st' r me ws t :
  model st r me ws t -> extends st st' -> model st' r me ws t.
Proof.
  intros [] He. split; eauto using extends_axis, extends_tensor, extends_instance.
Qed.

(** A location that holds a value lies inside the heap. *)
Lemma axis_bound st l ws : axis st l = Some ws -> l < length (heap st).
Proof. intros Hl%axis_lookup. by eapply lookup_lt_Some. Qed.

Lemma instance_bound st l o : instance st l = Some o -> l < length (heap st).
Proof. intros Hl%instance_lookup. by eapply lookup_lt_Some. Qed.

Section Negation.
Context `{Numerics}.

Lemma neg_unfold st a ma ws ta :
  model st a ma ws ta -> __neg__ a st = finish_init (inr ws) (inr (tensor_neg ta)) st.
Proof.
  intros [Hma Hwa Hta Hwfa Hsa _ _]. unfold __neg__.
  rewrite (bind_ok _ _ _ _ _ (get_obj_ok _ _ _ Hma)).
  rewrite (bind_ok _ _ _ _ _ (get_tensor_ok _ _ _ Hta)).
  rewrite (bind_ok _ _ _ _ _ (get_vec_ok _ _ _ Hwa)).
  rewrite (init_tensor_axis _ _ _ (outputs ma) (inputs ma) (length ws)) by done.
  by rewrite Nat.eqb_refl.
Qed.

Lemma neg_result st a ma ws ta st' r :
  model st a ma ws ta -> __neg__ a st = (st', inr r) ->
  exists mr, model st' r mr ws (tensor_neg ta) /\
             inputs mr = inputs ma /\ outputs mr = outputs ma /\
             extends st st' /\ r = S (S (length (heap st))) /\
             omega mr = length (heap st) /\ stdout st' = stdout st.
Proof.
  intros Ha Hrun. rewrite (neg_unfold st a ma ws ta Ha) in Hrun.
  destruct Ha as [Hma Hwa Hta Hwfa Hsa _ _].
  by apply (proj1 (finish_init_model st ws (tensor_neg ta) (outputs ma) (inputs ma)
                     Hsa (tmap_wf Copp ta Hwfa))).
Qed.

Lemma neg_runs st a ma ws ta :
  model st a ma ws ta -> fits ws -> exists st' r, __neg__ a st = (st', inr r).
Proof.
  intros Ha Hfit. rewrite (neg_unfold st a ma ws ta Ha).
  destruct Ha as [Hma Hwa Hta Hwfa Hsa Hsq _].
  apply (proj2 (finish_init_model st ws (tensor_neg ta) (outputs ma) (inputs ma)
                  Hsa (tmap_wf Copp ta Hwfa))); [|done].
  destruct Hsq as [?|[?|?]]; auto.
Qed.

(** X1.  [-a] for a model [a]: every result is a new model on the same
    frequencies, held in an array of its own, with the sizes of [a] and with
    every sample of the response negated; [a] itself is as it was.  A result
    is returned whenever the splines can be fitted on the axis. *)
Theorem neg_negates_every_sample st a ma ws ta :
  model st a ma ws ta ->
  (forall st' r, __neg__ a st = (st', inr r) ->
     exists mr, model st' r mr ws (tensor_neg ta) /\
                inputs mr = inputs ma /\ outputs mr = outputs ma /\
                model st' a ma ws ta /\ r <> a /\ omega mr <> omega ma) /\
  (fits ws -> exists st' r, __neg__ a st = (st', inr r)).
Proof.
  intros Ha. split.
  - intros st' r Hrun.
    destruct (neg_result st a ma ws ta st' r Ha Hrun) as (mr & Hm & Hi & Ho & He & Hr & Hw & _).
    exists mr. do 3 (split; [done|]). split; [by eapply model_extends|].
    pose proof (instance_bound _ _ _ (model_instance _ _ _ _ _ Ha)).
    pose proof (axis_bound _ _ _ (model_axis _ _ _ _ _ Ha)). lia.
  - by apply (neg_runs st a ma ws ta).
Qed.

(** X2.  Negating twice gives back the response: [-(-a)] is a model on the
    frequencies of [a] whose response tensor is that of [a], sample for
    sample. *)
Theorem neg_neg_restores st a ma ws ta st1 b st2 c :
  model st a ma ws ta ->
  __neg__ a st = (st1, inr b) -> __neg__ b st1 = (st2, inr c) ->
  exists mc, model st2 c mc ws ta /\ inputs mc = inputs ma /\ outputs mc = outputs ma.
Proof.
  intros Ha H1 H2.
  destruct (neg_result st a ma ws ta st1 b Ha H1) as (mb & Hb & Hi & Ho & _).
  destruct (neg_result st1 b mb ws _ st2 c Hb H2) as (mc & Hc & Hi' & Ho' & _).
  rewrite tensor_neg_involutive in Hc. exists mc. split; [done|]. split; congruence.
Qed.

End Negation.

(** ** Numbers as operands *)

Lemma constant3_wf {A} (z : A) p m n : tensor_wf (constant3 z (p, m, n)).
Proof.
  unfold tensor_wf. simpl. split; [by rewrite length_replicate|].
  apply Forall_replicate. split; [by rewrite length_replicate|].
  apply Forall_replicate. by rewrite length_replicate.
Qed.

Lemma zip3_const {X Y Z} (f : X -> Y -> Z) c p m n items :
  items_wf p m n items ->
  zip_with (zip_with (zip_with f)) items (replicate p (replicate m (replicate n c))) =
  map (map (map (fun z => f z c))) items.
Proof.
  intros [Hp Hall]. rewrite zip_with_replicate_r_eq by done.
  apply Forall_fmap_ext_1. eapply Forall_impl; [exact Hall|].
  intros row [Hm Hcols]. unfold flip. rewrite zip_with_replicate_r_eq by done.
  apply Forall_fmap_ext_1. eapply Forall_impl; [exact Hcols|].
  intros col Hn. simpl. by rewrite zip_with_replicate_r_eq.
Qed.

Lemma bind_cong {A B} (m m' : M A) (k : A -> M B) st :
  m st = m' st -> bind m k st = bind m' k st.
Proof. unfold bind. by intros ->. Qed.

Lemma bind_ext {A B} (m : M A) (k k' : A -> M B) st :
  (forall st1 a, m st = (st1, inr a) -> k a st1 = k' a st1) -> bind m k st = bind m k' st.
Proof. unfold bind. destruct (m st) as [st1 [e|a]]; [done|]. intros Hk. by apply Hk. Qed.

Section Scalars.
Context `{Numerics}.

Lemma convert_number_unfold st target ws x i o :
  axis st target = Some ws ->
  _convertToFRD (VNum x) target i o st =
    finish_init (inr ws) (inr (constant3 (complex_of x) (o, i, length ws))) st.
Proof.
  intros Hw. unfold _convertToFRD.
  rewrite (bind_ok _ _ _ _ _ (get_vec_ok _ _ _ Hw)).
  rewrite (init_tensor_axis _ _ _ o i (length ws)) by done.
  by rewrite Nat.eqb_refl.
Qed.

(** X3.  [_convertToFRD] of a number: every result is a new model whose
    response is the number at every frequency, for every output and input,
    with the sizes asked for, on a copy of the target axis; the target is
    neither sorted nor changed in any other way.  A result is returned for
    equal sizes whenever the splines can be fitted; for sizes that differ,
    as in the docstring's [_convertToFRD(1., inputs=3, outputs=2)], the call
    raises. *)
Theorem convert_number_constant st target ws x i o :
  axis st target = Some ws ->
  (forall st' r, _convertToFRD (VNum x) target i o st = (st', inr r) ->
     exists mr, model st' r mr ws (constant3 (complex_of x) (o, i, length ws)) /\
                inputs mr = i /\ outputs mr = o /\
                axis st' target = Some ws /\ omega mr <> target /\ extends st st') /\
  (i = o -> fits ws -> exists st' r, _convertToFRD (VNum x) target i o st = (st', inr r)) /\
  (i <> o -> 0 < i -> 0 < o ->
     exists e, _convertToFRD (VNum x) target i o st = (st, inl e)).
Proof.
  intros Hw. rewrite (convert_number_unfold st target ws x i o Hw).
  pose proof (finish_init_model st ws (constant3 (complex_of x) (o, i, length ws)) o i
                eq_refl (constant3_wf _ _ _ _)) as [Hres Hex].
  split; [|split].
  - intros st' r Hrun. destruct (Hres st' r Hrun) as (mr & Hm & Hi & Ho & He & _ & Hom & _).
    exists mr. do 3 (split; [done|]). split; [by eapply extends_axis|]. split; [|done].
    pose proof (axis_bound _ _ _ Hw). lia.
  - intros -> Hfit. apply Hex; auto.
  - intros Hne Hi Ho.
    destruct (finish_init_not_square (constant3 (complex_of x) (o, i, length ws)) ws
                o i (length ws) st) as (e & He & _); [done|lia|done|done|]. eauto.
Qed.

(** The sum of a SISO model and a number, step by step: the number becomes a
    constant model, then the sum of the two responses is constructed. *)
Lemma add_number_unfold st a ma ws ta x :
  model st a ma ws ta -> inputs ma = 1 -> outputs ma = 1 ->
  __add__ a (VNum x) st =
    (finish_init (inr ws) (inr (constant3 (complex_of x) (1, 1, length ws))) ;;;
     finish_init (inr ws) (inr (tensor_shift (complex_of x) ta)))%M st.
Proof.
  intros Ha Hi Ho. pose proof Ha as [Hma Hwa Hta Hwfa Hsa _ _].
  unfold __add__. rewrite (bind_ok _ _ _ _ _ (get_obj_ok _ _ _ Hma)).
  rewrite (bind_ok (ret tt) _ st st tt eq_refl).
  rewrite (bind_cong _ _ _ _ (convert_number_unfold st (omega ma) ws x 1 1 Hwa)).
  pose proof (finish_init_model st ws (constant3 (complex_of x) (1, 1, length ws)) 1 1
                eq_refl (constant3_wf _ _ _ _)) as [Hres _].
  apply bind_ext. intros st1 r1 E1.
  destruct (Hres st1 r1 E1) as (m1 & Hm1 & Hi1 & Ho1 & He & _).
  pose proof Hm1 as [Hmi1 Hw1 Ht1 _ _ _ _].
  rewrite (bind_ok _ _ _ _ _ (get_obj_ok _ _ _ Hmi1)).
  rewrite Hi, Ho, Hi1, Ho1. cbn [Nat.eqb negb].
  rewrite (bind_ok _ _ _ _ _ (get_tensor_ok _ _ _ (extends_tensor _ _ _ _ He Hta))).
  rewrite (bind_ok _ _ _ _ _ (get_tensor_ok _ _ _ Ht1)).
  rewrite Hi, Ho in Hsa.
  rewrite (elementwise3_same Cadd ta (constant3 (complex_of x) (1, 1, length ws))
             1 1 (length ws) Hsa eq_refl Hwfa (constant3_wf _ _ _ _)).
  rewrite (bind_ok (lift (inr _)) _ st1 st1 _ eq_refl).
  rewrite (bind_ok _ _ _ _ _ (get_vec_ok _ _ _ Hw1)).
  rewrite (init_tensor_axis _ _ _ 1 1 (length ws)) by done.
  rewrite Nat.eqb_refl. do 2 f_equal. unfold tensor_shift, tmap. rewrite Hsa. f_equal.
  cbn [t_items constant3]. apply (zip3_const Cadd _ 1 1 (length ws)).
  by apply (tensor_wf_items _ _ _ _ Hsa).
Qed.

Lemma add_number_result st a ma ws ta x st' r :
  model st a ma ws ta -> inputs ma = 1 -> outputs ma = 1 ->
  __add__ a (VNum x) st = (st', inr r) ->
  exists mr, model st' r mr ws (tensor_shift (complex_of x) ta) /\
             inputs mr = 1 /\ outputs mr = 1 /\ extends st st'.
Proof.
  intros Ha Hi Ho. rewrite (add_number_unfold st a ma ws ta x Ha Hi Ho).
  pose proof Ha as [Hma Hwa Hta Hwfa Hsa _ _]. rewrite Hi, Ho in Hsa.
  unfold bind. destruct (finish_init _ _ st) as [st1 [e|r1]] eqn:E1; [done|].
  destruct (proj1 (finish_init_model st ws (constant3 (complex_of x) (1, 1, length ws)) 1 1
                     eq_refl (constant3_wf _ _ _ _)) st1 r1 E1) as (m1 & _ & _ & _ & He1 & _).
  intros Hrun.
  destruct (proj1 (finish_init_model st1 ws (tensor_shift (complex_of x) ta) 1 1
                     Hsa (tmap_wf _ ta Hwfa)) st' r Hrun) as (mr & Hm & Hmi & Hmo & He & _).
  exists mr. do 3 (split; [done|]). by eapply extends_trans.
Qed.

Lemma add_number_runs st a ma ws ta x :
  model st a ma ws ta -> inputs ma = 1 -> outputs ma = 1 -> fits ws ->
  exists st' r, __add__ a (VNum x) st = (st', inr r).
Proof.
  intros Ha Hi Ho Hfit. rewrite (add_number_unfold st a ma ws ta x Ha Hi Ho).
  pose proof Ha as [Hma Hwa Hta Hwfa Hsa _ _]. rewrite Hi, Ho in Hsa.
  destruct (proj2 (finish_init_model st ws (constant3 (complex_of x) (1, 1, length ws)) 1 1
                     eq_refl (constant3_wf _ _ _ _))) as (st1 & r1 & E1); [auto|done|].
  rewrite (bind_ok _ _ _ _ _ E1).
  apply (proj2 (finish_init_model st1 ws (tensor_shift (complex_of x) ta) 1 1
                  Hsa (tmap_wf _ ta Hwfa))); auto.
Qed.

(** X4.  The sum of a SISO model and a number, in either order ([a + x] and
    [x + a]): every result is a new SISO model on the frequencies of [a]
    whose samples are those of [a] with the number added; [a] is as it was
    and its axis is not sorted.  A result is returned whenever the splines
    can be fitted on the axis. *)
Theorem add_number_siso st a ma ws ta x op :
  model st a ma ws ta -> inputs ma = 1 -> outputs ma = 1 ->
  op = __add__ \/ op = __radd__ ->
  (forall st' r, op a (VNum x) st = (st', inr r) ->
     exists mr, model st' r mr ws (tensor_shift (complex_of x) ta) /\
                inputs mr = 1 /\ outputs mr = 1 /\ model st' a ma ws ta) /\
  (fits ws -> exists st' r, op a (VNum x) st = (st', inr r)).
Proof.
  intros Ha Hi Ho Hop.
  assert (op = __add__) as -> by (by destruct Hop as [->| ->]).
  split.
  - intros st' r Hrun.
    destruct (add_number_result st a ma ws ta x st' r Ha Hi Ho Hrun)
      as (mr & Hm & Hmi & Hmo & He).
    exists mr. do 3 (split; [done|]). by eapply model_extends.
  - by apply (add_number_runs st a ma ws ta).
Qed.

(** X5.  A number cannot be added to a model with several inputs or outputs:
    [__add__] converts the number to a SISO model, whatever the sizes of
    [self], and then finds the sizes inconsistent.  The call never returns a
    model, and when the splines can be fitted the exception is the size
    error. *)
Theorem add_number_mimo_raises st a ma ws ta x :
  model st a ma ws ta -> inputs ma <> 1 \/ outputs ma <> 1 ->
  exists st' e, __add__ a (VNum x) st = (st', inl e) /\
    (fits ws ->
     e = if inputs ma =? 1
         then ValueError "The first summand has %i output(s), but the second has %i."
         else ValueError "The first summand has %i input(s), but the second has %i.").
Proof.
  intros Ha Hne. pose proof Ha as [Hma Hwa Hta Hwfa Hsa _ _].
  unfold __add__. rewrite (bind_ok _ _ _ _ _ (get_obj_ok _ _ _ Hma)).
  rewrite (bind_ok (ret tt) _ st st tt eq_refl).
  rewrite (bind_cong _ _ _ _ (convert_number_unfold st (omega ma) ws x 1 1 Hwa)).
  pose proof (finish_init_model st ws (constant3 (complex_of x) (1, 1, length ws)) 1 1
                eq_refl (constant3_wf _ _ _ _)) as [Hres Hex].
  unfold bind at 1.
  destruct (finish_init _ _ st) as [st1 [e|r1]] eqn:E1.
  - exists st1, e. split; [done|]. intros Hfit.
    destruct Hex as (st2 & r2 & E2); [auto|done|]. congruence.
  - destruct (Hres st1 r1 eq_refl) as (m1 & Hm1 & Hi1 & Ho1 & He & _).
    rewrite (bind_ok _ _ _ _ _ (get_obj_ok _ _ _ (model_instance _ _ _ _ _ Hm1))).
    rewrite Hi1, Ho1.
    destruct (inputs ma =? 1) eqn:Ei; cbn [negb].
    + apply Nat.eqb_eq in Ei. destruct Hne as [Hne|Hne]; [done|].
      rewrite (proj2 (Nat.eqb_neq _ _) Hne). cbn [negb]. eauto.
    + eauto.
Qed.

End Scalars.

(** ** Subtraction *)

Lemma bind_bind {A B D} (m : M A) (f : A -> M B) (g : B -> M D) st :
  bind (bind m f) g st = bind m (fun x => bind (f x) g) st.
Proof. unfold bind. by destruct (m st) as [st1 [e|a]]. Qed.

Lemma Forall_zip_with_map {X Y Z} (P : Z -> Prop) (f : X -> Y -> Z) (g : X -> Y) l :
  (forall x, P (f x (g x))) -> Forall P (zip_with f l (map g l)).
Proof. intros HP. induction l as [|x l IH]; simpl; by constructor. Qed.

Lemma sub_self_zero t : zero_response (tensor_add t (tensor_neg t)).
Proof.
  unfold zero_response, tensor_add, tensor_neg, tmap. simpl.
  apply Forall_zip_with_map. intros row.
  apply Forall_zip_with_map. intros col.
  apply Forall_zip_with_map. intros z. simpl. split; ring.
Qed.

Lemma tensor_add_wf ta tb p m n :
  t_shape ta = (p, m, n) -> t_shape tb = (p, m, n) -> tensor_wf ta -> tensor_wf tb ->
  tensor_wf (tensor_add ta tb).
Proof.
  intros Hsa Hsb Hwfa Hwfb.
  apply (tensor_wf_items (tensor_add ta tb) p m n Hsa). simpl. apply zip3_wf.
  - by apply (tensor_wf_items _ _ _ _ Hsa).
  - by apply (tensor_wf_items _ _ _ _ Hsb).
Qed.

Section Difference.
Context `{Numerics}.
Variable lti_neg : Lti -> M pyval.
Variable lti_add : Lti -> loc -> M pyval.

(** The difference of two models, step by step: the negative of the second
    is constructed, then the sum. *)
Lemma sub_models_unfold st a b ma mb ws ta tb :
  model st a ma ws ta -> model st b mb ws tb -> ascending ws = true ->
  inputs ma = inputs mb -> outputs ma = outputs mb ->
  __sub__ lti_neg a (VFRD b) st =
    (finish_init (inr ws) (inr (tensor_neg tb)) ;;;
     finish_init (inr ws) (inr (tensor_add ta (tensor_neg tb))))%M st.
Proof.
  intros Ha Hb Hasc Hi Ho. unfold __sub__, negative. rewrite bind_bind.
  rewrite (bind_cong _ _ _ _ (neg_unfold st b mb ws tb Hb)).
  apply bind_ext. intros st1 nb E1.
  pose proof Hb as [_ _ _ Hwfb Hsb _ _].
  destruct (proj1 (finish_init_model st ws (tensor_neg tb) (outputs mb) (inputs mb)
                     Hsb (tmap_wf Copp tb Hwfb)) st1 nb E1)
    as (mnb & Hnb & Hni & Hno & He & _).
  rewrite (bind_ok (ret (VFRD nb)) _ st1 st1 _ eq_refl).
  rewrite (add_same_axis_unfold st1 a nb ma mnb ws ta (tensor_neg tb));
    [|by eapply model_extends|done|done].
  by rewrite Hni, Hno, Hi, Ho, !Nat.eqb_refl.
Qed.

Lemma sub_models_result st a b ma mb ws ta tb st' r :
  model st a ma ws ta -> model st b mb ws tb -> ascending ws = true ->
  inputs ma = inputs mb -> outputs ma = outputs mb ->
  __sub__ lti_neg a (VFRD b) st = (st', inr r) ->
  exists mr, model st' r mr ws (tensor_add ta (tensor_neg tb)) /\
             inputs mr = inputs ma /\ outputs mr = outputs ma /\ extends st st'.
Proof.
  intros Ha Hb Hasc Hi Ho.
  rewrite (sub_models_unfold st a b ma mb ws ta tb Ha Hb Hasc Hi Ho).
  pose proof Ha as [_ _ _ Hwfa Hsa _ _]. pose proof Hb as [_ _ _ Hwfb Hsb _ _].
  unfold bind. destruct (finish_init _ _ st) as [st1 [e|nb]] eqn:E1; [done|].
  destruct (proj1 (finish_init_model st ws (tensor_neg tb) (outputs mb) (inputs mb)
                     Hsb (tmap_wf Copp tb Hwfb)) st1 nb E1) as (mnb & _ & _ & _ & He1 & _).
  intros Hrun.
  assert (Hs : t_shape (tensor_add ta (tensor_neg tb)) = (outputs ma, inputs ma, length ws))
    by done.
  rewrite <- Hi, <- Ho in Hsb.
  pose proof (tensor_add_wf ta (tensor_neg tb) _ _ _ Hsa Hsb Hwfa (tmap_wf Copp tb Hwfb))
    as Hwf.
  destruct (proj1 (finish_init_model st1 ws _ _ _ Hs Hwf) st' r Hrun)
    as (mr & Hm & Hmi & Hmo & He & _).
  exists mr. do 3 (split; [done|]). by eapply extends_trans.
Qed.

(** X6.  [a - b] for two models of equal sizes on one (ascending) frequency
    axis: every result is a new model on that axis whose response is the
    element-wise sum of the response of [a] and of the negated response of
    [b]; both operands are as they were.  A result is returned whenever the
    splines can be fitted on the axis. *)
Theorem sub_same_axis st a b ma mb ws ta tb :
  model st a ma ws ta -> model st b mb ws tb -> ascending ws = true ->
  inputs ma = inputs mb -> outputs ma = outputs mb ->
  (forall st' r, __sub__ lti_neg a (VFRD b) st = (st', inr r) ->
     exists mr, model st' r mr ws (tensor_add ta (tensor_neg tb)) /\
                inputs mr = inputs ma /\ outputs mr = outputs ma /\
                model st' a ma ws ta /\ model st' b mb ws tb) /\
  (fits ws -> exists st' r, __sub__ lti_neg a (VFRD b) st = (st', inr r)).
Proof.
  intros Ha Hb Hasc Hi Ho. split.
  - intros st' r Hrun.
    destruct (sub_models_result st a b ma mb ws ta tb st' r Ha Hb Hasc Hi Ho Hrun)
      as (mr & Hm & Hmi & Hmo & He).
    exists mr. do 3 (split; [done|]). split; by eapply model_extends.
  - intros Hfit. rewrite (sub_models_unfold st a b ma mb ws ta tb Ha Hb Hasc Hi Ho).
    pose proof Ha as [_ _ _ Hwfa Hsa Hsqa _]. pose proof Hb as [_ _ _ Hwfb Hsb Hsqb _].
    destruct (proj2 (finish_init_model st ws (tensor_neg tb) (outputs mb) (inputs mb)
                       Hsb (tmap_wf Copp tb Hwfb))) as (st1 & nb & E1); [|done|].
    { destruct Hsqb as [?|[?|?]]; auto. }
    rewrite (bind_ok _ _ _ _ _ E1).
    assert (Hs : t_shape (tensor_add ta (tensor_neg tb)) = (outputs ma, inputs ma, length ws))
      by done.
    rewrite <- Hi, <- Ho in Hsb.
    pose proof (tensor_add_wf ta (tensor_neg tb) _ _ _ Hsa Hsb Hwfa (tmap_wf Copp tb Hwfb))
      as Hwf.
    apply (proj2 (finish_init_model st1 ws _ _ _ Hs Hwf)); [|done].
    destruct Hsqa as [?|[?|?]]; auto.
Qed.

(** X7.  [a - a] is the zero response: whenever the difference of a model
    (on an ascending axis) with itself returns, the result is a model on the
    same frequencies of which every sample is zero. *)
Theorem sub_self_is_zero st a ma ws ta st' r :
  model st a ma ws ta -> ascending ws = true ->
  __sub__ lti_neg a (VFRD a) st = (st', inr r) ->
  exists mr t, model st' r mr ws t /\ zero_response t /\
               inputs mr = inputs ma /\ outputs mr = outputs ma.
Proof.
  intros Ha Hasc Hrun.
  destruct (sub_models_result st a a ma ma ws ta ta st' r Ha Ha Hasc eq_refl eq_refl Hrun)
    as (mr & Hm & Hmi & Hmo & _).
  exists mr, (tensor_add ta (tensor_neg ta)). split; [done|]. split; [apply sub_self_zero|done].
Qed.

(** X8.  [x - a] for a number [x] and a SISO model [a], which Python
    evaluates as [a.__rsub__(x)]: every result is a new SISO model on the
    frequencies of [a] whose samples are the number minus those of [a]; [a]
    is as it was.  A result is returned whenever the splines can be fitted
    on the axis. *)
Theorem rsub_number_siso st a ma ws ta x :
  model st a ma ws ta -> inputs ma = 1 -> outputs ma = 1 ->
  (forall st' v, __rsub__ lti_add a (VNum x) st = (st', inr v) ->
     exists r mr, v = VFRD r /\
       model st' r mr ws (tensor_shift (complex_of x) (tensor_neg ta)) /\
       inputs mr = 1 /\ outputs mr = 1 /\ model st' a ma ws ta) /\
  (fits ws -> exists st' v, __rsub__ lti_add a (VNum x) st = (st', inr v)).
Proof.
  intros Ha Hi Ho. unfold __rsub__, __radd__. split.
  - intros st' v. unfold bind at 1.
    destruct (__neg__ a st) as [st1 [e|na]] eqn:E1; [done|].
    destruct (neg_result st a ma ws ta st1 na Ha E1) as (mna & Hna & Hni & Hno & He1 & _).
    unfold bind at 1.
    destruct (__add__ na (VNum x) st1) as [st2 [e|r]] eqn:E2; [done|].
    intros [= <- <-].
    destruct (add_number_result st1 na mna ws _ x st2 r Hna) as (mr & Hm & Hmi & Hmo & He2);
      [congruence..|done|].
    exists r, mr. do 4 (split; [done|]).
    eapply model_extends; [done|]. by eapply extends_trans.
  - intros Hfit.
    destruct (neg_runs st a ma ws ta Ha Hfit) as (st1 & na & E1).
    destruct (neg_result st a ma ws ta st1 na Ha E1) as (mna & Hna & Hni & Hno & He1 & _).
    rewrite (bind_ok _ _ _ _ _ E1).
    destruct (add_number_runs st1 na mna ws _ x Hna) as (st2 & r & E2); [congruence..|done|].
    rewrite (bind_ok _ _ _ _ _ E2). by eexists _, _.
Qed.

End Difference.

(** ** Sampling a generic system *)

(** The loop [for k, w in enumerate(omega): fresp[:, :, k] = sys.evalfr(w)]
    for a system that evaluates to matrices of the shape of a slice. *)
Lemma sample_total (ev : Q -> res (matrix C)) p m ws :
  (forall w, w ∈ ws -> exists a, ev w = inr a /\ m_shape a = (p, m) /\ matrix_wf a) ->
  exists t, sample ev (p, m, length ws) ws = inr t /\
            t_shape t = (p, m, length ws) /\ tensor_wf t /\
            forall k w, ws !! k = Some w -> exists a, ev w = inr a /\ slice C0 t k = inr a.
Proof.
  intros Hev. set (n := length ws).
  pose (P := fun (k : nat) (t : tensor C) =>
    t_shape t = (p, m, n) /\ items_wf p m n (t_items t) /\
    forall k' w, k' < k -> ws !! k' = Some w ->
      exists a, ev w = inr a /\ m_shape a = (p, m) /\
                get_slice C0 k' (t_items t) = m_rows a).
  destruct (foldE_enumerate_total
    (fun t kw => (a <- ev kw.2 ;; set_slice t kw.1 a)%E) P ws (empty3 C0 (p, m, n)))
    as (t & Hfold & Ht & Hwf & Hall).
  { unfold P. split; [done|]. split; [apply (empty3_wf C0 p m n)|]. intros; lia. }
  { intros k w t Hk (Hs & Hwf & Hprev). simpl.
    destruct (Hev w) as (a & Ha & Has & Haw); [by eapply list_elem_of_lookup_2|].
    rewrite Ha. simpl. rewrite (set_slice_exact t k a p m n Hs Has Haw).
    eexists. split; [done|]. unfold P. simpl.
    pose proof (proj1 (matrix_wf_rows a p m Has) Haw) as Hrows.
    assert (Hkn : k < n) by (by eapply lookup_lt_Some).
    split; [done|]. split; [by apply put_slice_wf|].
    intros k' w' Hk' Hw'. destruct (decide (k' = k)) as [->|Hne].
    - assert (w' = w) as -> by congruence. exists a. split; [done|]. split; [done|].
      by rewrite (get_put_same _ k p m n).
    - destruct (Hprev k' w') as (a' & Ha' & Has' & Hg); [lia|done|].
      exists a'. split; [done|]. split; [done|]. by rewrite (get_put_other _ k k' p m n). }
  exists t. split; [done|]. split; [done|]. split; [by apply (tensor_wf_items _ _ _ _ Ht)|].
  intros k w Hk. assert (Hkn : k < n) by (by eapply lookup_lt_Some).
  destruct (Hall k w Hkn Hk) as (a & Ha & Has & Hg). exists a. split; [done|].
  rewrite (slice_items _ t k p m n Ht Hkn), Hg. destruct a as [sh rows]. simpl in *.
  by rewrite Has.
Qed.

Lemma evaluates_sorted s ws : evaluates s ws -> evaluates s (sort_asc ws).
Proof.
  intros Hev w Hw. apply Hev. by rewrite <- (sort_asc_perm ws).
Qed.

Section Systems.
Context `{Numerics}.

(** X9.  [FRD(sys, omega)] for a generic system: the frequencies are sorted
    (in an array of the model's own) and the system is evaluated at each of
    them.  Every result is a new model on the sorted frequencies, with the
    sizes of the system, whose response at the [k]-th frequency is what
    [sys.evalfr] returns there.  A result is returned for a system with as
    many inputs as outputs whenever the splines can be fitted; a system
    with differing, positive numbers of inputs and outputs is rejected. *)
Theorem init_samples_system st s w :
  evaluates s w ->
  (forall st' r, __init__ (Args_lti s w) st = (st', inr r) ->
     exists mr t, model st' r mr (sort_asc w) t /\
       inputs mr = lti_inputs s /\ outputs mr = lti_outputs s /\ extends st st' /\
       Sorted Qle (sort_asc w) /\ Permutation (sort_asc w) w /\
       forall k x, sort_asc w !! k = Some x ->
         exists a, lti_evalfr s x = inr a /\ slice C0 t k = inr a) /\
  (lti_inputs s = lti_outputs s -> fits (sort_asc w) ->
     exists st' r, __init__ (Args_lti s w) st = (st', inr r)) /\
  (lti_inputs s <> lti_outputs s -> 0 < lti_inputs s -> 0 < lti_outputs s ->
     exists e, __init__ (Args_lti s w) st = (st, inl e)).
Proof.
  intros Hev%evaluates_sorted.
  destruct (sample_total (lti_evalfr s) (lti_outputs s) (lti_inputs s) (sort_asc w) Hev)
    as (t & Hsample & Hs & Hwf & Hslices).
  cbn [__init__]. rewrite (bind_ok (lift _) _ st st t) by (unfold lift; by rewrite Hsample).
  pose proof (finish_init_model st (sort_asc w) t _ _ Hs Hwf) as [Hres Hex].
  split; [|split].
  - intros st' r Hrun. destruct (Hres st' r Hrun) as (mr & Hm & Hi & Ho & He & _).
    exists mr, t. do 4 (split; [done|]).
    split; [apply sort_asc_sorted|]. split; [apply sort_asc_perm|done].
  - intros Hsq Hfit. apply Hex; auto.
  - intros Hne Hi Ho.
    destruct (finish_init_not_square t (sort_asc w) _ _ _ st Hs) as (e & He & _);
      [lia|done|done|]. eauto.
Qed.

(** X10.  [_convertToFRD] of a generic system: the target axis is sorted in
    place and the system is evaluated at each of its frequencies.  Every
    result is a new model, on a copy of the sorted target, with the sizes of
    the system (the sizes asked for are not used), whose response at the
    [k]-th frequency is what [sys.evalfr] returns there.  A result is
    returned for a system with as many inputs as outputs whenever the
    splines can be fitted. *)
Theorem convert_samples_system st s target ws i o :
  axis st target = Some ws -> evaluates s ws ->
  (forall st' r, _convertToFRD (VLti s) target i o st = (st', inr r) ->
     exists mr t, model st' r mr (sort_asc ws) t /\
       inputs mr = lti_inputs s /\ outputs mr = lti_outputs s /\
       axis st' target = Some (sort_asc ws) /\ omega mr <> target /\
       forall k x, sort_asc ws !! k = Some x ->
         exists a, lti_evalfr s x = inr a /\ slice C0 t k = inr a) /\
  (lti_inputs s = lti_outputs s -> fits (sort_asc ws) ->
     exists st' r, _convertToFRD (VLti s) target i o st = (st', inr r)).
Proof.
  intros Hw Hev%evaluates_sorted.
  destruct (sample_total (lti_evalfr s) (lti_outputs s) (lti_inputs s) (sort_asc ws) Hev)
    as (t & Hsample & Hs & Hwf & Hslices).
  cbn [_convertToFRD].
  rewrite (bind_ok _ _ _ _ _ (sort_inplace_ok _ _ _ Hw)).
  rewrite (bind_ok _ _ _ _ _ (get_vec_ok _ _ _ (sort_at_axis _ _ _ Hw))).
  rewrite (bind_ok (lift _) _ (sort_at target st) (sort_at target st) t)
    by (unfold lift; by rewrite Hsample).
  rewrite (init_tensor_axis _ _ _ _ _ _ Hs), Nat.eqb_refl.
  pose proof (finish_init_model (sort_at target st) (sort_asc ws) t _ _ Hs Hwf) as [Hres Hex].
  split.
  - intros st' r Hrun. destruct (Hres st' r Hrun) as (mr & Hm & Hi & Ho & He & _ & Hom & _).
    exists mr, t. do 3 (split; [done|]).
    split; [eapply extends_axis; [done|]; by apply sort_at_axis|]. split; [|done].
    pose proof (axis_bound _ _ _ Hw). rewrite sort_at_length in Hom. lia.
  - intros Hsq Hfit. apply Hex; auto.
Qed.

End Systems.

(** ** Re-basing a model on another axis *)

Lemma bind_inr {A B} (m : M A) (k : A -> M B) st st' b :
  bind m k st = (st', inr b) -> exists st1 a, m st = (st1, inr a) /\ k a st1 = (st', inr b).
Proof. unfold bind. destruct (m st) as [st1 [e|a]]; [done|]. eauto. Qed.

Lemma lift_inr {A} (r : res A) st st' a : lift r st = (st', inr a) -> r = inr a /\ st' = st.
Proof. unfold lift. by intros [= -> ->]. Qed.

(** An array is true when it has one item, which is not zero. *)
Lemma array_truth_true l : array_truth l = inr true -> exists w, l = [w] /\ ~ (w == 0)%Q.
Proof.
  destruct l as [|w [|w' l]]; try done. simpl. intros [= Hw]. exists w. split; [done|].
  intros Hz%Qeq_bool_iff. by rewrite Hz in Hw.
Qed.

Lemma deref_inr {A} (read : state -> option A) st st' a :
  deref read st = (st', inr a) -> read st = Some a /\ st' = st.
Proof. unfold deref. destruct (read st); [|done]. by intros [= -> ->]. Qed.

Lemma get_vec_inr l st st' ws :
  get_vec l st = (st', inr ws) -> axis st l = Some ws /\ st' = st.
Proof. apply (deref_inr (fun st => axis st l)). Qed.

Lemma get_obj_inr l st st' o :
  get_obj l st = (st', inr o) -> instance st l = Some o /\ st' = st.
Proof. apply (deref_inr (fun st => instance st l)). Qed.

Lemma sort_inplace_inr l st st' u : sort_inplace l st = (st', inr u) -> st' = sort_at l st.
Proof. unfold sort_inplace. destruct (axis st l); [|done]. by intros [= <- _]. Qed.

Lemma Qltb_false x y : Qltb x y = false -> (y <= x)%Q.
Proof. unfold Qltb. intros Hb%negb_false_iff. by apply Qle_bool_iff. Qed.

Section Rebase.
Context `{Numerics}.

(** X11.  [_convertToFRD] does not re-sample a model.  Given a model, it
    returns either that model itself (the axes matched) or a model with a
    single frequency, which is not zero, and this only for a candidate whose
    own axis spans no more than twice [epsw] from its first to its last
    frequency.  The test [if not omega] on the array of the target
    frequencies inside the range of the candidate raises for two frequencies
    or more and takes a single zero for an empty range, and a frequency
    more than [epsw] inside the range of the candidate leads to
    [omega.insert] or [omega.append], which arrays do not have. *)
Theorem convert_rebase_single_point st sys target i o st' r :
  _convertToFRD (VFRD sys) target i o st = (st', inr r) ->
  r = sys \/
  exists mr w,
    instance st' r = Some mr /\ axis st' (omega mr) = Some [w] /\ ~ (w == 0)%Q /\
    forall s sws s0 sl,
      instance st sys = Some s -> axis (sort_at target st) (omega s) = Some sws ->
      head sws = Some s0 -> last sws = Some sl -> (sl - s0 <= 2 * epsw)%Q.
Proof.
  intros Hrun. cbn [_convertToFRD] in Hrun.
  apply bind_inr in Hrun as (st1 & [] & ->%sort_inplace_inr & Hrun).
  apply bind_inr in Hrun as (st2 & ws & [_ ->]%get_vec_inr & Hrun).
  apply bind_inr in Hrun as (st3 & s' & [Hs' ->]%get_obj_inr & Hrun).
  apply bind_inr in Hrun as (st4 & sws' & [Hsws' ->]%get_vec_inr & Hrun).
  apply bind_inr in Hrun as (st5 & close & _ & Hrun).
  destruct (forallb id close); [left; by injection Hrun|right].
  apply bind_inr in Hrun as (st6 & lo & _ & Hrun). cbv zeta in Hrun.
  apply bind_inr in Hrun as (st7 & hi & _ & Hrun). cbv zeta in Hrun.
  apply bind_inr in Hrun as (st8 & some & [Hsome _]%lift_inr & Hrun).
  destruct some; [|done]. cbn [negb] in Hrun.
  apply array_truth_true in Hsome as (w & Hom & Hw). rewrite Hom in Hrun.
  apply bind_inr in Hrun as (st9 & w0 & [Hw0 _]%lift_inr & Hrun).
  apply bind_inr in Hrun as (st10 & s0' & [Hs0 _]%lift_inr & Hrun).
  destruct (Qltb epsw (w0 - s0')) eqn:Hlow; [done|].
  apply bind_inr in Hrun as (st11 & sl' & [Hsl _]%lift_inr & Hrun).
  apply bind_inr in Hrun as (st12 & wl & [Hwl _]%lift_inr & Hrun).
  destruct (Qltb epsw (sl' - wl)) eqn:Hhigh; [done|].
  apply bind_inr in Hrun as (st13 & [] & _ & Hrun).
  apply bind_inr in Hrun as (st14 & t & _ & Hrun).
  apply init_tensor_result in Hrun as (f & _ & -> & -> & _).
  injection Hw0 as <-. injection Hwl as <-.
  eexists _, w. split; [|split; [|split; [done|]]].
  - apply instance_lookup. simpl. rewrite lookup_app_r by lia.
    by replace (S (S _) - _) with 2 by lia.
  - apply axis_lookup. simpl. rewrite lookup_app_r by lia. by rewrite Nat.sub_diag.
  - intros s sws s0 sl Hs Hsws Hhd Hlast.
    rewrite sort_at_instance, Hs in Hs'. injection Hs' as <-.
    rewrite Hsws in Hsws'. injection Hsws' as <-.
    unfold first_item in Hs0. destruct sws as [|x sws]; [done|].
    assert (s0' = s0) as -> by (simpl in Hhd; congruence).
    unfold last_item in Hsl. rewrite Hlast in Hsl.
    assert (sl' = sl) as -> by congruence.
    apply Qltb_false in Hlow, Hhigh.
    assert (E1 : (sl - s0 == (sl - w) + (w - s0))%Q) by ring.
    assert (E2 : (2 * epsw == epsw + epsw)%Q) by ring.
    rewrite E1, E2. by apply Qplus_le_compat.
Qed.

End Rebase.

(** ** Conversion of a constant matrix *)

Lemma get_vec_inv l st st' r : get_vec l st = (st', r) -> st' = st.
Proof. unfold get_vec, deref. destruct (axis st l); by intros [= <- _]. Qed.

Section Sequences.
Context `{Numerics}.

(** The body of the [try] statement of [_convertToFRD]. *)
Lemma convert_sequence_body st d target st1 e :
  (ws <- get_vec target ;;
   match (if regular d then seq_shape d else [length (children d)]) with
   | [outputs_; inputs_] =>
       let t := Tensor (outputs_, inputs_, length ws)
                  (map (fun row => map (fun x => replicate (length ws) (C_of_Q x))
                                       (leaves row))
                       (children d)) in
       __init__ (Args_data (OfTensor t) (vec ws))
   | _ => raise (ValueError "need more than 1 value to unpack")
   end)%M st = (st1, inl e) -> st1 = st.
Proof.
  unfold bind. destruct (get_vec target st) as [st0 [e0|ws]] eqn:Ev.
  - apply get_vec_inv in Ev as ->. by intros [= <- _].
  - apply get_vec_inv in Ev as ->.
    destruct (if regular d then _ else _) as [|p [|m [|? ?]]]; try by intros [= <- _].
    cbv zeta. apply init_error.
Qed.

(** X12.  [_convertToFRD] of a sequence raises nothing but its own
    [TypeError], and leaves the state as it was: every exception of the
    attempt to read the sequence as a constant matrix is caught by the bare
    [except].  This is the outcome for every sequence that is not
    2-dimensional and also for every matrix with differing numbers of rows
    and columns, which the constructor rejects. *)
Theorem convert_sequence_type_error st d target i o :
  let e := TypeError "Can't convert given type %s to FRD system." in
  (forall st' e', _convertToFRD (VSeq d) target i o st = (st', inl e') ->
     e' = e /\ st' = st) /\
  (length (seq_shape d) <> 2 -> _convertToFRD (VSeq d) target i o st = (st, inl e)) /\
  (forall p m, seq_shape d = [p; m] -> p <> m -> 0 < m ->
     _convertToFRD (VSeq d) target i o st = (st, inl e)).
Proof.
  intros e. cbn [_convertToFRD]. unfold try_except.
  match goal with |- context [match ?body st with _ => _ end] =>
    destruct (body st) as [st1 [e1|r]] eqn:Ebody end.
  - apply convert_sequence_body in Ebody as ->. unfold raise.
    split; [|done]. by intros st' e' [= <- <-].
  - split; [done|]. revert Ebody. unfold bind.
    destruct (get_vec target st) as [st0 [e0|ws]] eqn:Ev; [done|].
    apply get_vec_inv in Ev as ->. split.
    + intros Hlen. destruct (regular d).
      * destruct (seq_shape d) as [|p [|m [|? ?]]]; done.
      * done.
    + intros p m Hs Hne Hm.
      assert (Hp : 0 < p).
      { destruct d as [x|[|x xs]]; simpl in Hs; try done. injection Hs as <- _. lia. }
      destruct (regular d); [|done]. rewrite Hs in Ebody. cbv zeta in Ebody.
      erewrite (init_tensor_axis _ _ _ p m (length ws)) in Ebody by done.
      rewrite Nat.eqb_refl in Ebody.
      destruct (finish_init_not_square
                  (Tensor (p, m, length ws)
                     (map (fun row => map (fun x => replicate (length ws) (C_of_Q x))
                                          (leaves row)) (children d)))
                  ws p m (length ws) st eq_refl Hne Hp Hm) as (e2 & He2 & _).
      congruence.
Qed.

End Sequences.

(** ** Evaluation at the samples *)

Lemma mapE_lookup {A B} (f : A -> res B) l bs i a :
  mapE f l = inr bs -> l !! i = Some a -> exists b, bs !! i = Some b /\ f a = inr b.
Proof.
  revert bs i. induction l as [|x l IH]; intros bs i Hm Hi; [done|].
  simpl in Hm. destruct (f x) as [e|b] eqn:Ex; [done|]. simpl in Hm.
  destruct (mapE f l) as [e|bs'] eqn:El; [done|]. injection Hm as <-.
  destruct i as [|i]; simpl in *.
  - injection Hi as <-. eauto.
  - by apply IH.
Qed.

Lemma mapE_seq_inr {B} (F : nat -> res B) (l : list B) j :
  (forall i b, l !! i = Some b -> F (j + i) = inr b) -> mapE F (seq j (length l)) = inr l.
Proof.
  revert j. induction l as [|b l IH]; intros j HF; [done|]. simpl.
  rewrite <- (Nat.add_0_r j) at 1. rewrite (HF 0 b eq_refl). simpl.
  rewrite (IH (S j)); [done|]. intros i b' Hi.
  replace (S j + i) with (j + S i) by lia. by apply HF.
Qed.

Lemma C_eta z : Cplx (re z) (im z) = z.
Proof. by destruct z. Qed.

Section Evaluation.
Context `{Numerics}.

(** The spline stored for the output [i] and the input [j] of a square
    response is the one fitted to [fresp[i, j, :]]. *)
Lemma build_ifunc_lookup t ws p n f i j :
  t_shape t = (p, p, n) -> build_ifunc t ws = inr f -> i < p -> j < p ->
  exists col fij, t_items t !! i ≫= (.!! j) = Some col /\
    f !! i ≫= (.!! j) = Some fij /\
    splprep [map re col; map im col]
            (map (fun z => 1 / (absolute z + 0.001))%Q col) ws 0%Q = inr fij.
Proof.
  intros Ht Hf Hi Hj. unfold build_ifunc in Hf. rewrite Ht in Hf.
  destruct (mapE_lookup _ _ _ i i Hf) as (frow & Hfrow & Hrow); [by apply lookup_seq_lt|].
  destruct (mapE_lookup _ _ _ j j Hrow) as (fij & Hfij & Hcol); [by apply lookup_seq_lt|].
  unfold column in Hcol. rewrite Ht in Hcol.
  rewrite (proj2 (Nat.ltb_lt _ _) Hi), (proj2 (Nat.ltb_lt _ _) Hj) in Hcol. simpl in Hcol.
  destruct (t_items t !! i ≫= (.!! j)) as [col|] eqn:Ecol; [|done]. simpl in Hcol.
  exists col, fij. split; [done|]. split; [|done]. by rewrite Hfrow.
Qed.

(** X13.  A model evaluates at its own frequencies to its samples, when the
    spline routines interpolate: for a model constructed from a response
    tensor on a frequency axis, [evalfr] at the [k]-th frequency of the axis
    returns the [k]-th slice of the tensor.  The real and the imaginary parts
    of each entry go through the spline fitted to the samples of the same
    output and input. *)
Theorem evalfr_at_sample t ws st st' r :
  tensor_wf t -> interpolates ws ->
  __init__ (Args_data (OfTensor t) (vec ws)) st = (st', inr r) ->
  exists me, instance st' r = Some me /\
    forall k w, ws !! k = Some w -> evalfr me w = slice C0 t k.
Proof.
  intros Hwf Hint Hrun.
  apply init_tensor_result in Hrun as (f & Hf & -> & -> & Hn).
  destruct (t_shape t) as [[p m] n] eqn:Ht. simpl in Hn. subst n.
  destruct (build_ifunc_shape t ws p m _ f Ht Hf) as (Hsq & Hlen & Hrows).
  eexists. split.
  { apply instance_lookup. simpl. rewrite lookup_app_r by lia.
    by replace (S (S _) - _) with 2 by lia. }
  intros k w Hk. pose proof (lookup_lt_Some _ _ _ Hk) as Hkn.
  rewrite (slice_items C0 t k p m (length ws) Ht Hkn).
  apply (tensor_wf_items _ _ _ _ Ht) in Hwf as [Hp Hitems].
  unfold evalfr. cbn [outputs inputs ifunc]. rewrite Ht. cbn [fst snd].
  assert (Hlp : p = length (get_slice C0 k (t_items t))).
  { unfold get_slice. by rewrite length_map. }
  rewrite Hlp at 1. rewrite (mapE_seq_inr _ (get_slice C0 k (t_items t)) 0); [done|].
  intros i srow Hi. simpl. unfold get_slice in Hi.
  apply list_lookup_fmap_Some_1 in Hi as (row & -> & Hrow).
  destruct (proj1 (Forall_lookup _ _) Hitems i row Hrow) as [Hm Hcols].
  assert (Hlm : m = length (map (fun col => nth k col C0) row)) by (by rewrite length_map).
  rewrite Hlm at 1. apply mapE_seq_inr. intros j z Hj. simpl.
  apply list_lookup_fmap_Some_1 in Hj as (col & -> & Hcol).
  pose proof (lookup_lt_Some _ _ _ Hrow) as Hip.
  pose proof (lookup_lt_Some _ _ _ Hcol) as Hjm.
  assert (m = p) as -> by (destruct Hsq as [?|[?|?]]; lia).
  destruct (build_ifunc_lookup t ws p _ f i j Ht Hf) as (col' & fij & Hcol' & Hfij & Hspl);
    [lia..|].
  rewrite Hrow in Hcol'. simpl in Hcol'. rewrite Hcol in Hcol'. injection Hcol' as <-.
  rewrite Hfij.
  pose proof (proj1 (Forall_lookup _ _) Hcols j col Hcol) as Hcn. simpl in Hcn.
  destruct (lookup_lt_is_Some_2 col k) as [z Hz]; [lia|].
  rewrite (Hint _ _ _ fij k w (re z) (im z) Hspl Hk);
    [|by rewrite list_lookup_fmap, Hz..].
  simpl. rewrite C_eta. f_equal. by rewrite nth_lookup, Hz.
Qed.

End Evaluation.

(** ** Every model evaluates to its samples *)

Section Samples.
Context `{Numerics}.





End Samples.

(** ** A sweep repeated *)

Section Repeat.
Context `{Numerics}.

Lemma freqresp_unfold st self me target ws :
  instance st self = Some me -> axis st target = Some ws ->
  freqresp self target st =
    (sort_at target st,
     match foldE (fun (mp : tensor Q * tensor Q) kw =>
                    (fr <- evalfr me kw.2 ;;
                     mag <- set_slice mp.1 kw.1 (mmap absolute fr) ;;
                     phase <- set_slice mp.2 kw.1 (mmap angle fr) ;;
                     inr (mag, phase))%E)
                 (empty3 0%Q (outputs me, inputs me, length ws),
                  empty3 0%Q (outputs me, inputs me, length ws))
                 (enumerate (sort_asc ws)) with
     | inr mp => inr (mp.1, mp.2, target)
     | inl e => inl e
     end).
Proof.
  intros Hme Hw. unfold freqresp.
  rewrite (bind_ok _ _ _ _ _ (get_obj_ok _ _ _ Hme)).
  rewrite (bind_ok _ _ _ _ _ (get_vec_ok _ _ _ Hw)).
  rewrite (bind_ok _ _ _ _ _ (sort_inplace_ok _ _ _ Hw)).
  rewrite (bind_ok _ _ _ _ _ (get_vec_ok _ _ _ (sort_at_axis _ _ _ Hw))).
  unfold bind, lift, ret. by destruct (foldE _ _ _).
Qed.

(** X14.  A sweep can be repeated: calling [freqresp] again with the
    sequence that a first call has sorted returns the same magnitudes,
    phases and sequence (or raises the same exception), and leaves the state
    that the first call has reached as it is.  On a sequence that is
    ascending already the first call changes nothing either. *)
Theorem freqresp_again st self me target ws :
  instance st self = Some me -> axis st target = Some ws ->
  freqresp self target (freqresp self target st).1 = freqresp self target st /\
  (ascending ws = true -> (freqresp self target st).1 = st).
Proof.
  intros Hme Hw.
  rewrite (freqresp_unfold st self me target ws Hme Hw). cbn [fst]. split.
  - rewrite (freqresp_unfold (sort_at target st) self me target (sort_asc ws));
      [|by rewrite sort_at_instance|by apply sort_at_axis].
    rewrite sort_asc_idemp, sort_asc_length. f_equal.
    apply (sort_at_ascending _ _ (sort_asc ws)); [by apply sort_at_axis|].
    apply ascending_sorted, sort_asc_sorted.
  - intros Hasc. by apply (sort_at_ascending _ _ ws).
Qed.

End Repeat.

(** ** The copy constructor *)

Section Copy.
Context `{Numerics}.

Lemma init_copy_unfold st r me ws t :
  instance st r = Some me -> axis st (omega me) = Some ws ->
  tensor_at st (fresp me) = Some t ->
  __init__ (Args_one (VFRD r)) st =
    match build_ifunc t ws with
    | inr f =>
        (State (heap st ++ [Instance_ {| omega := omega me; fresp := fresp me; ifunc := f;
                                         inputs := (t_shape t).1.2;
                                         outputs := (t_shape t).1.1 |}])
               (stdout st),
         inr (length (heap st)))
    | inl e => (st, inl e)
    end.
Proof.
  intros Hme Hw Ht. cbn [__init__].
  rewrite (bind_ok _ _ _ _ _ (get_obj_ok _ _ _ Hme)). unfold finish_init.
  rewrite (bind_ok _ _ _ _ _ (get_vec_ok _ _ _ Hw)).
  rewrite (bind_ok _ _ _ _ _ (get_tensor_ok _ _ _ Ht)).
  unfold bind, lift, ret, alloc. destruct (build_ifunc t ws) as [e|f]; [done|].
  by destruct (t_shape t) as [[p m] n].
Qed.

(** X15.  The copy constructor [FRD(sys)] shares the arrays of [sys]: every
    result is one new instance, the only value added to the heap, whose
    [omega] and [fresp] are the very arrays of [sys] (so that a sort of the
    axis through either model is seen through both) and whose splines are
    fitted anew.  A result is returned whenever the splines can be fitted;
    an argument that is not an [FRD] raises a [TypeError]. *)
Theorem init_copy_shares_arrays st r me ws t :
  model st r me ws t ->
  (forall st' r', __init__ (Args_one (VFRD r)) st = (st', inr r') ->
     exists me', heap st' = (heap st ++ [Instance_ me'])%list /\ r' = length (heap st) /\
       omega me' = omega me /\ fresp me' = fresp me /\ model st' r' me' ws t) /\
  (fits ws -> exists st' r', __init__ (Args_one (VFRD r)) st = (st', inr r')) /\
  (forall a, match a with VFRD _ => False | _ => True end ->
     __init__ (Args_one a) st =
       (st, inl (TypeError
          "The one-argument constructor can only take in an FRD object.  Received %s."))).
Proof.
  intros [Hme Hw Ht Hwf Hs Hsq Hif]. split; [|split].
  - intros st' r'. rewrite (init_copy_unfold st r me ws t Hme Hw Ht).
    destruct (build_ifunc t ws) as [e|f] eqn:Ef; [done|]. intros [= <- <-].
    destruct (build_ifunc_shape t ws _ _ _ f Hs Ef) as (Hsq' & Hlen & Hrows).
    eexists. split; [done|]. split; [done|]. split; [done|]. split; [done|].
    rewrite Hs. split; simpl.
    + apply instance_lookup. simpl. rewrite lookup_app_r by lia. by rewrite Nat.sub_diag.
    + apply axis_lookup. simpl. apply lookup_app_l_Some. by apply axis_lookup.
    + apply tensor_at_lookup. simpl. apply lookup_app_l_Some. by apply tensor_at_lookup.
    + done.
    + done.
    + done.
    + done.
  - intros Hfit. rewrite (init_copy_unfold st r me ws t Hme Hw Ht).
    destruct (build_ifunc_ok t ws _ _ _ Hs Hwf) as [f ->]; [|done|eauto].
    destruct Hsq as [?|[?|?]]; auto.
  - intros a Ha. by destruct a.
Qed.

End Copy.

(** ** What no method does *)

Lemma evolves_refl st : evolves st st.
Proof. intros l [ws|t|o] Hl; auto. Qed.

Lemma evolves_trans st1 st2 st3 : evolves st1 st2 -> evolves st2 st3 -> evolves st1 st3.
Proof.
  intros H12 H23 l c Hl. specialize (H12 l c Hl). destruct c as [ws|t|o].
  - destruct H12 as [H2|H2]; specialize (H23 l _ H2); simpl in H23; [done|].
    rewrite sort_asc_idemp in H23. right. by destruct H23.
  - apply (H23 l _ H12).
  - apply (H23 l _ H12).
Qed.

Lemma extends_evolves st st' : extends st st' -> evolves st st'.
Proof. intros He l [ws|t|o] Hl; auto. Qed.

Lemma sort_at_evolves w st : evolves st (sort_at w st).
Proof.
  intros l c Hl. unfold sort_at. destruct (axis st w) as [ws|] eqn:Hw.
  - apply axis_lookup in Hw. simpl. destruct (decide (l = w)) as [->|Hne].
    + assert (c = RealVec ws) as -> by congruence. right.
      apply list_lookup_insert_eq. by eapply lookup_lt_Some.
    + rewrite list_lookup_insert_ne by done. destruct c; auto.
  - destruct c; auto.
Qed.

Lemma tame_stable {A} (m : M A) : stable m -> tame m.
Proof. intros Hm st. apply extends_evolves, Hm. Qed.

Lemma tame_bind {A B} (m : M A) (k : A -> M B) :
  tame m -> (forall a, tame (k a)) -> tame (bind m k).
Proof.
  intros Hm Hk st. unfold bind. specialize (Hm st).
  destruct (m st) as [st' [e|a]]; simpl in *; [done|].
  eapply evolves_trans; [done|]. apply Hk.
Qed.

Lemma tame_try {A} (m h : M A) : tame m -> tame h -> tame (try_except m h).
Proof.
  intros Hm Hh st. unfold try_except. specialize (Hm st).
  destruct (m st) as [st' [e|a]]; simpl in *; [|done].
  eapply evolves_trans; [done|]. apply Hh.
Qed.

Lemma tame_sort l : tame (sort_inplace l).
Proof.
  intros st. unfold sort_inplace. destruct (axis st l) eqn:Hl; simpl.
  - apply sort_at_evolves.
  - apply evolves_refl.
Qed.

Ltac tame_step :=
  match goal with
  | |- tame (bind _ _) => apply tame_bind; [|intros ?]
  | |- tame (try_except _ _) => apply tame_try
  | |- tame (sort_inplace _) => apply tame_sort
  | |- tame (match ?x with _ => _ end) => destruct x
  | |- tame (if ?b then _ else _) => destruct b
  | |- _ => solve [apply tame_stable; repeat stable_step]
  end.

Section Frame.
Context `{Numerics}.

Lemma tame_init args : tame (__init__ args).
Proof. apply tame_stable, stable_init. Qed.

Lemma tame_convert sys w i o : tame (_convertToFRD sys w i o).
Proof.
  unfold _convertToFRD. repeat first [apply tame_init | tame_step].
Qed.

Lemma tame_neg self : tame (__neg__ self).
Proof. unfold __neg__. repeat first [apply tame_init | tame_step]. Qed.

Lemma tame_add self other : tame (__add__ self other).
Proof.
  unfold __add__. repeat first [apply tame_init | apply tame_convert | tame_step].
Qed.

Lemma tame_mul self other : tame (__mul__ self other).
Proof.
  unfold __mul__. repeat first [apply tame_init | apply tame_convert | tame_step].
Qed.

Lemma tame_div self other : tame (__div__ self other).
Proof.
  unfold __div__. repeat first [apply tame_init | apply tame_convert | tame_step].
Qed.

Lemma tame_rdiv self other : tame (__rdiv__ self other).
Proof.
  unfold __rdiv__. repeat first [apply tame_div | apply tame_convert | tame_step].
Qed.

Lemma tame_pow_int fuel self n : tame (pow_int fuel self n).
Proof.
  revert self n. induction fuel as [|fuel IH]; intros self n; cbn [pow_int];
    repeat first [apply tame_init | apply tame_mul | apply tame_div | apply IH | tame_step].
Qed.

Lemma tame_pow self other : tame (__pow__ self other).
Proof. unfold __pow__. repeat first [apply tame_pow_int | tame_step]. Qed.

Lemma tame_freqresp self w : tame (freqresp self w).
Proof. unfold freqresp. repeat tame_step. Qed.

Lemma tame_feedback self other sign : tame (feedback self other sign).
Proof.
  unfold feedback. repeat first [apply tame_init | apply tame_convert | tame_step].
Qed.

End Frame.

(** What [evolves] says of the values of each kind. *)
Lemma evolves_values st st' :
  evolves st st' ->
  (forall l t, tensor_at st l = Some t -> tensor_at st' l = Some t) /\
  (forall l o, instance st l = Some o -> instance st' l = Some o) /\
  (forall l ws, axis st l = Some ws ->
     axis st' l = Some ws \/ axis st' l = Some (sort_asc ws)) /\
  length (heap st) <= length (heap st').
Proof.
  intros He. split; [|split; [|split]].
  - intros l t Ht%tensor_at_lookup. apply tensor_at_lookup. apply (He l _ Ht).
  - intros l o Ho%instance_lookup. apply instance_lookup. apply (He l _ Ho).
  - intros l ws Hw%axis_lookup. destruct (He l _ Hw) as [Hl|Hl]; [left|right];
      by apply axis_lookup.
  - destruct (decide (length (heap st) <= length (heap st'))) as [|Hgt]; [done|]. exfalso.
    destruct (lookup_lt_is_Some_2 (heap st) (length (heap st'))) as [c Hc]; [lia|].
    specialize (He _ _ Hc).
    assert (Hin : is_Some (heap st' !! length (heap st'))).
    { destruct c; [destruct He|..]; eauto. }
    apply lookup_lt_is_Some in Hin. lia.
Qed.

Section Invariant.
Context `{Numerics}.
Variable lti_neg : Lti -> M pyval.
Variable lti_add : Lti -> loc -> M pyval.
Hypothesis lti_neg_tame : forall s, tame (lti_neg s).
Hypothesis lti_add_tame : forall s r, tame (lti_add s r).

(** X16.  No method changes a response tensor or an instance, and none
    frees a value: whatever the arguments and the outcome, after a call of
    the constructor, of [_convertToFRD] or of any operator or method of the
    class, every response tensor and every instance of the heap is where it
    was and as it was, and every frequency array is where it was, with its
    former contents or with these contents sorted.  (The other system
    classes, whose negation and sum the subtractions may call, are assumed
    to respect the same discipline.) *)
Theorem methods_keep_heap_values :
  (forall args, tame (__init__ args)) /\
  (forall sys w i o, tame (_convertToFRD sys w i o)) /\
  forall self other,
    tame (__neg__ self) /\ tame (__add__ self other) /\ tame (__radd__ self other) /\
    tame (__sub__ lti_neg self other) /\ tame (__rsub__ lti_add self other) /\
    tame (__mul__ self other) /\ tame (__rmul__ self other) /\
    tame (__div__ self other) /\ tame (__rdiv__ self other) /\
    tame (__pow__ self other) /\
    (forall w, tame (freqresp self w)) /\
    (forall sign, tame (feedback self other sign)).
Proof.
  split; [apply tame_init|]. split; [apply tame_convert|]. intros self other.
  split; [apply tame_neg|]. split; [apply tame_add|]. split; [apply tame_add|].
  split.
  { unfold __sub__, negative.
    repeat first [apply tame_add | apply tame_neg | apply lti_neg_tame | tame_step]. }
  split.
  { unfold __rsub__, __radd__.
    repeat first [apply tame_add | apply tame_neg | apply lti_add_tame | tame_step]. }
  split; [apply tame_mul|]. split; [apply tame_mul|].
  split; [apply tame_div|]. split; [apply tame_rdiv|]. split; [apply tame_pow|].
  split; [intros w; apply tame_freqresp|intros sign; apply tame_feedback].
Qed.

End Invariant.

(** ** The reflected product and quotient *)

Section Reflected.
Context `{Numerics}.

Lemma mul_raises st self other : exists st' e, __mul__ self other st = (st', inl e).
Proof.
  unfold __mul__. unfold bind at 1.
  destruct (get_obj self st) as [st1 [e|me]]; [eauto|].
  unfold bind at 1.
  match goal with |- context [?conv st1] =>
    match conv with (if _ then _ else _) =>
      destruct (conv st1) as [st2 [e|r]]; [eauto|] end end.
  unfold bind at 1. destruct (get_obj r st2) as [st3 [e|o]]; [eauto|].
  destruct (negb (inputs me =? outputs o)); [unfold raise; eauto|].
  unfold bind at 1.
  destruct (for_ _ _ st3) as [st4 [e|[]]]; [eauto|].
  destruct (init_prealloc_raises (outputs me) (inputs o) st4) as [e He]. eauto.
Qed.

Lemma div_raises st self other : exists st' e, __div__ self other st = (st', inl e).
Proof.
  unfold __div__. unfold bind at 1.
  destruct (get_obj self st) as [st1 [e|me]]; [eauto|].
  unfold bind at 1.
  match goal with |- context [?conv st1] =>
    match conv with (if _ then _ else _) =>
      destruct (conv st1) as [st2 [e|r]]; [eauto|] end end.
  unfold bind at 1. destruct (get_obj r st2) as [st3 [e|o]]; [eauto|].
  destruct (_ || _); unfold raise; eauto.
Qed.

(** X17.  A number times a model and a number over a model never return a
    model.  [x * a] is [a * x], whose loops read [self.num]; [x / a]
    converts [x] and divides it by [a] with [__div__], which reads
    [self.num] as well.  For a number and a model with inputs and outputs,
    and splines that can be fitted, the product raises the attribute error;
    so does the quotient for a SISO model on an ascending axis. *)
Theorem reflected_operators_raise :
  (forall st self other, exists st' e, __rmul__ self other st = (st', inl e)) /\
  (forall st self other, exists st' e, __rdiv__ self other st = (st', inl e)) /\
  (forall st a ma ws ta x,
     model st a ma ws ta -> fits ws -> 0 < inputs ma -> 0 < outputs ma ->
     exists st', __rmul__ a (VNum x) st = (st', inl (no_attribute "num"))) /\
  (forall st a ma ws ta x,
     model st a ma ws ta -> fits ws -> inputs ma = 1 -> outputs ma = 1 ->
     ascending ws = true ->
     exists st', __rdiv__ a (VNum x) st = (st', inl (no_attribute "num"))).
Proof.
  split; [|split; [|split]].
  - intros st self other. apply mul_raises.
  - intros st self other. unfold __rdiv__. unfold bind at 1.
    destruct (get_obj self st) as [st1 [e|me]]; [eauto|].
    unfold bind at 1.
    match goal with |- context [?conv st1] =>
      match conv with (if _ then _ else _) =>
        destruct (conv st1) as [st2 [e|r]]; [eauto|] end end.
    unfold bind at 1. destruct (get_obj r st2) as [st3 [e|o]]; [eauto|].
    destruct (_ || _); [unfold raise; eauto|]. apply div_raises.
  - intros st a ma ws ta x Ha Hfit Hi Ho. pose proof Ha as [Hma Hwa _ _ _ _ _].
    unfold __rmul__, __mul__. rewrite (bind_ok _ _ _ _ _ (get_obj_ok _ _ _ Hma)).
    cbn [is_number].
    rewrite (bind_cong _ _ _ _
               (convert_number_unfold st (omega ma) ws x (inputs ma) (inputs ma) Hwa)).
    pose proof (finish_init_model st ws
                  (constant3 (complex_of x) (inputs ma, inputs ma, length ws)) _ _
                  eq_refl (constant3_wf _ _ _ _)) as [Hres Hex].
    destruct Hex as (st1 & r1 & E1); [auto|done|].
    destruct (Hres st1 r1 E1) as (m1 & Hm1 & Hi1 & Ho1 & _).
    rewrite (bind_ok _ _ _ _ _ E1).
    rewrite (bind_ok _ _ _ _ _ (get_obj_ok _ _ _ (model_instance _ _ _ _ _ Hm1))).
    rewrite Ho1, Nat.eqb_refl. cbn [negb]. exists st1.
    apply bind_err. apply mul_loops_raise; lia.
  - intros st a ma ws ta x Ha Hfit Hi Ho Hasc. pose proof Ha as [Hma Hwa _ _ _ _ _].
    unfold __rdiv__. rewrite (bind_ok _ _ _ _ _ (get_obj_ok _ _ _ Hma)).
    cbn [is_number].
    rewrite (bind_cong _ _ _ _
               (convert_number_unfold st (omega ma) ws x (inputs ma) (inputs ma) Hwa)).
    pose proof (finish_init_model st ws
                  (constant3 (complex_of x) (inputs ma, inputs ma, length ws)) _ _
                  eq_refl (constant3_wf _ _ _ _)) as [Hres Hex].
    destruct Hex as (st1 & r1 & E1); [auto|done|].
    destruct (Hres st1 r1 E1) as (m1 & Hm1 & Hi1 & Ho1 & He & _).
    rewrite (bind_ok _ _ _ _ _ E1).
    pose proof (model_instance _ _ _ _ _ Hm1) as Hmi1.
    rewrite (bind_ok _ _ _ _ _ (get_obj_ok _ _ _ Hmi1)).
    rewrite Hi, Ho, Hi1, Ho1, Hi. cbn [Nat.ltb Nat.leb orb]. exists st1.
    unfold __div__. rewrite (bind_ok _ _ _ _ _ (get_obj_ok _ _ _ Hmi1)).
    cbn [is_number].
    rewrite (bind_ok _ _ _ _ _
               (convert_same_axis st1 r1 a m1 ws _ ma 1 1 Hm1
                  (extends_instance _ _ _ _ He Hma) (extends_axis _ _ _ _ He Hwa) Hasc)).
    rewrite (bind_ok _ _ _ _ _ (get_obj_ok _ _ _ (extends_instance _ _ _ _ He Hma))).
    by rewrite Hi, Ho, Hi1, Ho1, Hi.
Qed.

End Reflected.

(** ** Addition on axes that agree within the tolerance *)

Section Tolerance.
Context `{Numerics}.

Lemma add_close_axes_unfold st a b ma mb wsa wsb ta tb :
  model st a ma wsa ta -> model st b mb wsb tb ->
  ascending wsa = true -> length wsa = length wsb -> allclose wsa wsb = true ->
  inputs ma = inputs mb -> outputs ma = outputs mb ->
  __add__ a (VFRD b) st =
    finish_init (inr wsb) (inr (tensor_add ta tb))
      (if mismatch wsb wsa
       then State (heap st) (stdout st ++ [frequency_warning])
       else st).
Proof.
  intros Ha Hb Hasc Hlen Hclose Hi Ho.
  set (st1 := if mismatch wsb wsa
              then State (heap st) (stdout st ++ [frequency_warning]) else st).
  assert (He : extends st st1) by (unfold st1; destruct (mismatch _ _); by intros l c).
  pose proof (model_extends _ _ _ _ _ _ Ha He) as [Hma Hwa Hta Hwfa Hsa _ _].
  pose proof (model_extends _ _ _ _ _ _ Hb He) as [Hmb Hwb Htb Hwfb Hsb _ _].
  unfold __add__.
  rewrite (bind_ok _ _ _ _ _ (get_obj_ok _ _ _ (model_instance _ _ _ _ _ Ha))).
  match goal with |- bind ?pre _ _ = _ =>
    assert (Hpre : pre st = (st1, inr tt)) end.
  { rewrite (bind_ok _ _ _ _ _ (get_obj_ok _ _ _ (model_instance _ _ _ _ _ Hb))).
    rewrite (bind_ok _ _ _ _ _ (get_vec_ok _ _ _ (model_axis _ _ _ _ _ Hb))).
    rewrite (bind_ok _ _ _ _ _ (get_vec_ok _ _ _ (model_axis _ _ _ _ _ Ha))).
    unfold bshape. rewrite <- Hlen, Nat.eqb_refl. rewrite bzip_same by done.
    unfold st1, mismatch. by destruct (existsb _ _). }
  rewrite (bind_ok _ _ _ _ _ Hpre).
  assert (Hconv : _convertToFRD (VFRD b) (omega ma) 1 1 st1 = (st1, inr b)).
  { pose proof (sort_at_ascending _ _ _ Hwa Hasc) as Est.
    rewrite (convert_fast st1 b mb (omega ma) wsa wsb); rewrite ?Est; try done.
    by rewrite sort_asc_ascending. }
  rewrite (bind_ok _ _ _ _ _ Hconv).
  rewrite (bind_ok _ _ _ _ _ (get_obj_ok _ _ _ Hmb)).
  rewrite Hi, Ho, !Nat.eqb_refl. cbn [negb].
  rewrite (bind_ok _ _ _ _ _ (get_tensor_ok _ _ _ Hta)).
  rewrite (bind_ok _ _ _ _ _ (get_tensor_ok _ _ _ Htb)).
  rewrite <- Hi, <- Ho, <- Hlen in Hsb.
  rewrite (elementwise3_same Cadd ta tb _ _ _ Hsa Hsb Hwfa Hwfb).
  rewrite (bind_ok (lift (inr _)) _ st1 st1 _ eq_refl).
  rewrite (bind_ok _ _ _ _ _ (get_vec_ok _ _ _ Hwb)).
  rewrite (init_tensor_axis _ _ _ (outputs ma) (inputs ma) (length wsa)) by done.
  rewrite Hlen, Nat.eqb_refl. unfold tensor_add. by rewrite Hsa, Hlen.
Qed.

(** X18.  [a + b] for two models of equal sizes whose axes have one length
    and agree within [epsw], the first being ascending: every result is a
    new model whose response is the element-wise sum of the two responses
    and whose frequencies are those of [b], the second operand.  The warning
    about truncation and interpolation is printed exactly when some
    frequency of [b] differs from that of [a], although nothing is
    truncated or interpolated.  A result is returned whenever the splines
    can be fitted on the axis of [b]. *)
Theorem add_close_axes st a b ma mb wsa wsb ta tb :
  model st a ma wsa ta -> model st b mb wsb tb ->
  ascending wsa = true -> length wsa = length wsb -> allclose wsa wsb = true ->
  inputs ma = inputs mb -> outputs ma = outputs mb ->
  (forall st' r, __add__ a (VFRD b) st = (st', inr r) ->
     exists mr, model st' r mr wsb (tensor_add ta tb) /\
       stdout st' =
         (stdout st ++ if mismatch wsb wsa then [frequency_warning] else [])%list) /\
  (fits wsb -> exists st' r, __add__ a (VFRD b) st = (st', inr r)).
Proof.
  intros Ha Hb Hasc Hlen Hclose Hi Ho.
  rewrite (add_close_axes_unfold st a b ma mb wsa wsb ta tb Ha Hb Hasc Hlen Hclose Hi Ho).
  pose proof Ha as [_ _ _ Hwfa Hsa Hsq _]. pose proof Hb as [_ _ _ Hwfb Hsb _ _].
  assert (Hs : t_shape (tensor_add ta tb) = (outputs ma, inputs ma, length wsb))
    by (unfold tensor_add; simpl; by rewrite Hsa, Hlen).
  assert (Hwf : tensor_wf (tensor_add ta tb)).
  { apply (tensor_wf_items _ _ _ _ Hs). simpl. apply zip3_wf.
    - rewrite Hlen in Hsa. by apply (tensor_wf_items _ _ _ _ Hsa).
    - rewrite <- Hi, <- Ho in Hsb. by apply (tensor_wf_items _ _ _ _ Hsb). }
  match goal with |- context [finish_init _ _ ?s] => set (st1 := s) end.
  pose proof (finish_init_model st1 wsb _ _ _ Hs Hwf) as [Hres Hex]. split.
  - intros st' r Hrun. destruct (Hres st' r Hrun) as (mr & Hm & _ & _ & _ & _ & _ & Hout).
    exists mr. split; [done|]. rewrite Hout. unfold st1.
    destruct (mismatch wsb wsa); simpl; [done|by rewrite app_nil_r].
  - intros Hfit. apply Hex; [|done]. destruct Hsq as [?|[?|?]]; auto.
Qed.

End Tolerance.

(** ** The listing *)

Lemma mapM_pure {A B} (f : A -> M B) (g : A -> B) l st :
  (forall a, a ∈ l -> f a st = (st, inr (g a))) -> mapM f l st = (st, inr (map g l)).
Proof.
  induction l as [|a l IH]; intros Hf; [done|]. cbn [mapM map].
  rewrite (bind_ok _ _ _ _ _ (Hf a ltac:(by left))).
  rewrite (bind_ok _ _ _ _ _ (IH ltac:(intros; apply Hf; by right))). done.
Qed.

Section Listing.
Context `{Numerics}.
Variable format_row : Q -> Q -> Q -> string.

(** [freqresp] returns for every model, on every sequence. *)
Lemma freqresp_total st self me ws0 t target ws :
  model st self me ws0 t -> axis st target = Some ws ->
  exists mag phase, freqresp self target st = (sort_at target st, inr (mag, phase, target)).
Proof.
  intros [Hme _ _ _ _ Hsq [Hlen Hrows]] Hw.
  rewrite (freqresp_unfold st self me target ws Hme Hw).
  set (p := outputs me). set (m := inputs me). set (n := length ws).
  pose (P := fun (k : nat) (mp : tensor Q * tensor Q) =>
    t_shape mp.1 = (p, m, n) /\ items_wf p m n (t_items mp.1) /\
    t_shape mp.2 = (p, m, n) /\ items_wf p m n (t_items mp.2)).
  destruct (foldE_enumerate_total
    (fun (mp : tensor Q * tensor Q) kw =>
       (fr <- evalfr me kw.2 ;;
        mag <- set_slice mp.1 kw.1 (mmap absolute fr) ;;
        phase <- set_slice mp.2 kw.1 (mmap angle fr) ;;
        inr (mag, phase))%E)
    P (sort_asc ws) (empty3 0%Q (p, m, n), empty3 0%Q (p, m, n))) as (mp & Hfold & _).
  { unfold P. simpl. repeat split; apply (empty3_wf 0%Q p m n). }
  { intros k w [mag phase] Hk (Hs1 & Hw1 & Hs2 & Hw2). simpl in *.
    destruct (evalfr_ok me w Hsq Hlen Hrows) as (fr & Hfr & Hfs & Hfw).
    rewrite Hfr. simpl.
    pose proof (mmap_rows_wf absolute fr p m Hfs Hfw) as Hra.
    pose proof (mmap_rows_wf angle fr p m Hfs Hfw) as Hrp.
    rewrite (set_slice_exact mag k (mmap absolute fr) p m n Hs1 Hfs)
      by (by apply (matrix_wf_rows (mmap absolute fr) p m Hfs)).
    simpl.
    rewrite (set_slice_exact phase k (mmap angle fr) p m n Hs2 Hfs)
      by (by apply (matrix_wf_rows (mmap angle fr) p m Hfs)).
    simpl. eexists. split; [done|]. unfold P. simpl.
    split; [done|]. split; [by apply put_slice_wf|].
    split; [done|]. by apply put_slice_wf. }
  rewrite Hfold. by exists mp.1, mp.2.
Qed.

(** X19.  Listing a model sorts its frequency axis in place.  [str(m)]
    returns for every model, and leaves the state as a sort of [m.omega]
    leaves it: the axis holds its frequencies in ascending order, the
    response tensor is not reordered.  For a SISO model the listing is the
    heading, the two title lines and one row for each sample, which shows
    the [k]-th frequency of the sorted axis beside the real and imaginary
    parts of the [k]-th sample as stored. *)
Theorem str_sorts_own_axis st self me ws t :
  model st self me ws t ->
  exists s,
    __str__ format_row self st = (sort_at (omega me) st, inr s) /\
    axis (sort_at (omega me) st) (omega me) = Some (sort_asc ws) /\
    tensor_at (sort_at (omega me) st) (fresp me) = Some t /\
    (inputs me = 1 -> outputs me = 1 ->
       exists col, column t 0 0 = inr col /\
         s = String.concat newline
               (["frequency response data ";
                 "Freq [rad/s]  Magnitude    Phase";
                 "------------  -----------  -----------"] ++
                zip_with (fun (mp : Q * Q) w => format_row w mp.1 mp.2)
                         (zip (map re col) (map im col)) (sort_asc ws))%list).
Proof.
  intros Hm. pose proof Hm as [Hme Hw Ht Hwf Hs Hsq _].
  destruct (freqresp_total st self me ws t (omega me) ws Hm Hw) as (mag & phase & Hfr).
  set (st1 := sort_at (omega me) st) in *.
  assert (Hw1 : axis st1 (omega me) = Some (sort_asc ws)) by (by apply sort_at_axis).
  assert (Ht1 : tensor_at st1 (fresp me) = Some t) by (unfold st1; by rewrite sort_at_tensor).
  set (block := fun (i j : nat) (col : list C) =>
    ((if (1 <? inputs me) || (1 <? outputs me)
      then [("Input " ++ pretty (i + 1) ++ " to output " ++ pretty (j + 1) ++ ":")%string]
      else []) ++
     ["Freq [rad/s]  Magnitude    Phase"; "------------  -----------  -----------"] ++
     zip_with (fun (mp : Q * Q) w => format_row w mp.1 mp.2)
              (zip (map re col) (map im col)) (sort_asc ws))%list).
  set (colof := fun i j => match column t i j with inr col => col | inl _ => [] end).
  assert (Hblocks : forall i, i ∈ seq 0 (inputs me) ->
    mapM (fun j =>
      (t <- get_tensor (fresp me) ;;
       col <- lift (column t i j) ;;
       ws <- get_vec (omega me) ;;
       ret ((if (1 <? inputs me) || (1 <? outputs me)
             then [("Input " ++ pretty (i + 1) ++ " to output " ++ pretty (j + 1) ++ ":")%string]
             else []) ++
            ["Freq [rad/s]  Magnitude    Phase";
             "------------  -----------  -----------"] ++
            zip_with (fun (mp : Q * Q) w => format_row w mp.1 mp.2)
                     (zip (map re col) (map im col)) ws)%list)%M)
      (seq 0 (outputs me)) st1
    = (st1, inr (map (fun j => block i j (colof i j)) (seq 0 (outputs me))))).
  { intros i Hi%elem_of_seq. apply mapM_pure. intros j Hj%elem_of_seq.
    rewrite (bind_ok _ _ _ _ _ (get_tensor_ok _ _ _ Ht1)).
    destruct (column_ok t _ _ _ i j Hs Hwf) as (col & Hcol & _);
      [destruct Hsq as [?|[?|?]]; lia..|].
    rewrite (bind_ok (lift _) _ st1 st1 col) by (unfold lift; by rewrite Hcol).
    rewrite (bind_ok _ _ _ _ _ (get_vec_ok _ _ _ Hw1)).
    unfold ret, block, colof. by rewrite Hcol. }
  eexists. split; [|split; [done|split; [done|]]].
  - unfold __str__. rewrite (bind_ok _ _ _ _ _ (get_obj_ok _ _ _ Hme)). cbv zeta.
    rewrite (bind_ok _ _ _ _ _ Hfr). cbn [snd].
    rewrite (bind_ok _ _ _ _ _
               (mapM_pure _ (fun i => map (fun j => block i j (colof i j))
                                         (seq 0 (outputs me))) _ _ Hblocks)).
    reflexivity.
  - intros Hi Ho. rewrite Hi, Ho in Hs.
    destruct (column_ok t _ _ _ 0 0 Hs Hwf) as (col & Hcol & _); [lia..|].
    exists col. split; [done|]. rewrite Hi, Ho. cbn [seq map concat].
    unfold block, colof. rewrite Hcol, Hi, Ho. cbn [Nat.ltb Nat.leb orb app concat].
    by rewrite app_nil_r.
Qed.

End Listing.

(** ** A constant matrix as a model *)

Lemma seq_shape_nil_leaf {A} (y : pyseq A) : seq_shape y = [] -> exists a, y = Leaf a.
Proof. destruct y as [a|ys]; [eauto|done]. Qed.

Lemma leaves_of_leaves {A} (ys : list (pyseq A)) :
  Forall (fun y => seq_shape y = []) ys -> length (flat_map leaves ys) = length ys.
Proof.
  induction 1 as [|y ys Hy Hys IH]; [done|]. simpl.
  apply seq_shape_nil_leaf in Hy as [a ->]. simpl. by rewrite IH.
Qed.

Lemma regular_row {A} (y : pyseq A) m :
  regular y = true -> seq_shape y = [m] -> length (leaves y) = m.
Proof.
  destruct y as [a|ys]; [done|]. cbn [regular seq_shape leaves].
  intros [_ Hsame]%andb_true_iff Hs. injection Hs as <- Hfirst.
  apply leaves_of_leaves. destruct ys as [|x ys']; [constructor|].
  constructor; [done|]. apply Forall_forall. intros y Hy.
  apply list_elem_of_In in Hy. apply (proj1 (forallb_forall _ _) Hsame) in Hy.
  apply bool_decide_eq_true in Hy. congruence.
Qed.

Lemma regular_matrix {A} (d : pyseq A) p m :
  regular d = true -> seq_shape d = [p; m] ->
  length (children d) = p /\ Forall (fun row => length (leaves row) = m) (children d).
Proof.
  destruct d as [a|xs]; [done|]. cbn [regular seq_shape children].
  intros [Hreg Hsame]%andb_true_iff Hs. injection Hs as Hp Hfirst.
  split; [done|]. destruct xs as [|x xs']; [done|].
  apply Forall_forall. intros y Hy. apply regular_row.
  - apply (proj1 (forallb_forall _ _) Hreg). by apply list_elem_of_In.
  - apply elem_of_cons in Hy as [->|Hy]; [done|].
    apply list_elem_of_In in Hy. apply (proj1 (forallb_forall _ _) Hsame) in Hy.
    apply bool_decide_eq_true in Hy. congruence.
Qed.

(** The tensor that repeats a matrix along the frequencies. *)
Lemma matrix_tensor_wf (d : pyseq Q) p m n :
  regular d = true -> seq_shape d = [p; m] ->
  items_wf p m n (map (fun row => map (fun x => replicate n (C_of_Q x)) (leaves row))
                      (children d)).
Proof.
  intros Hreg Hs. destruct (regular_matrix d p m Hreg Hs) as [Hp Hrows].
  split; [by rewrite length_map|]. apply Forall_map.
  eapply Forall_impl; [exact Hrows|]. intros row Hm. simpl.
  split; [by rewrite length_map|]. apply Forall_map, Forall_forall.
  intros x _. simpl. by rewrite length_replicate.
Qed.

Section Matrices.
Context `{Numerics}.

(** X20.  [_convertToFRD] of a constant matrix, given as a sequence of
    rows: every result is a new model on a copy of the target axis (which is
    not sorted), with one output for each row and one input for each column,
    whose response from input [b] to output [a] is the entry [d[a][b]] at
    every frequency.  A result is returned for every square matrix whenever
    the splines can be fitted. *)
Theorem convert_sequence_constant st d target ws i o :
  axis st target = Some ws ->
  (forall st' r, _convertToFRD (VSeq d) target i o st = (st', inr r) ->
     exists mr t p m, seq_shape d = [p; m] /\ model st' r mr ws t /\
       outputs mr = p /\ inputs mr = m /\ axis st' target = Some ws /\
       forall a b row x, children d !! a = Some row -> leaves row !! b = Some x ->
         column t a b = inr (replicate (length ws) (C_of_Q x))) /\
  (forall p, regular d = true -> seq_shape d = [p; p] -> fits ws ->
     exists st' r, _convertToFRD (VSeq d) target i o st = (st', inr r)).
Proof.
  intros Hw. cbn [_convertToFRD]. unfold try_except.
  rewrite (bind_ok _ _ _ _ _ (get_vec_ok _ _ _ Hw)). split.
  - intros st' r. destruct (regular d) eqn:Hreg; [|done].
    destruct (seq_shape d) as [|p [|m [|? ?]]] eqn:Hs; try done. cbv zeta.
    set (t := Tensor (p, m, length ws) _).
    assert (Hwf : tensor_wf t).
    { apply (tensor_wf_items t p m (length ws) eq_refl). by apply matrix_tensor_wf. }
    destruct (__init__ _ st) as [st1 [e|r1]] eqn:Erun; [done|]. intros [= <- <-].
    destruct (init_builds_model t ws st st1 r1 Hwf Erun) as (mr & Hm & He).
    pose proof (model_shape _ _ _ _ _ Hm) as Hsh. cbn [t t_shape] in Hsh.
    injection Hsh as Ho Hi.
    exists mr, t, p, m. do 4 (split; [done|]).
    split; [by eapply extends_axis|].
    intros a b row x Ha Hb. unfold column. cbn [t t_shape t_items].
    destruct (regular_matrix d _ _ Hreg Hs) as [Hp Hrows].
    pose proof (lookup_lt_Some _ _ _ Ha) as Hap.
    pose proof (lookup_lt_Some _ _ _ Hb) as Hbm.
    rewrite (proj1 (Forall_lookup _ _) Hrows a row Ha) in Hbm.
    rewrite (proj2 (Nat.ltb_lt _ _)), (proj2 (Nat.ltb_lt _ _)) by lia.
    rewrite list_lookup_fmap, Ha. simpl. by rewrite list_lookup_fmap, Hb.
  - intros p Hreg Hs Hfit. rewrite Hreg, Hs. cbv zeta.
    set (t := Tensor (p, p, length ws) _).
    assert (Hwf : tensor_wf t).
    { apply (tensor_wf_items t p p (length ws) eq_refl). by apply matrix_tensor_wf. }
    rewrite (init_tensor_axis t ws st p p (length ws) eq_refl), Nat.eqb_refl.
    destruct (proj2 (finish_init_model st ws t p p eq_refl Hwf)) as (st' & r & ->);
      [auto|done|]. eauto.
Qed.

End Matrices.

(** ** Size checks and axes that differ *)

Section Mismatch.
Context `{Numerics}.

(** X21.  The size checks of the product and of the reflected quotient, for
    two models on one (ascending) frequency axis: [a * b] raises its size
    error when the number of inputs of [a] differs from the number of
    outputs of [b], and [a.__rdiv__(b)] raises [NotImplementedError] when
    either model has more than one input or output.  Both leave the state
    as it was. *)
Theorem mul_rdiv_size_errors st a b ma mb ws ta tb :
  model st a ma ws ta -> model st b mb ws tb -> ascending ws = true ->
  (inputs ma <> outputs mb ->
     __mul__ a (VFRD b) st =
       (st, inl (ValueError
          "C = A * B: A has %i column(s) (input(s)), but B has %i row(s) (output(s))."))) /\
  (1 < inputs ma \/ 1 < outputs ma \/ 1 < inputs mb \/ 1 < outputs mb ->
     __rdiv__ a (VFRD b) st =
       (st, inl (NotImplementedError
          "FRD.__rdiv__ is currently implemented only for SISO systems."))).
Proof.
  intros Ha Hb Hasc.
  pose proof (model_instance _ _ _ _ _ Ha) as Hma.
  pose proof (model_instance _ _ _ _ _ Hb) as Hmb.
  pose proof (model_axis _ _ _ _ _ Hb) as Hwb.
  split.
  - intros Hne. unfold __mul__. rewrite (bind_ok _ _ _ _ _ (get_obj_ok _ _ _ Hma)).
    cbn [is_number].
    rewrite (bind_ok _ _ _ _ _ (convert_same_axis st a b ma ws ta mb 1 1 Ha Hmb Hwb Hasc)).
    rewrite (bind_ok _ _ _ _ _ (get_obj_ok _ _ _ Hmb)).
    by rewrite (proj2 (Nat.eqb_neq _ _) Hne).
  - intros Hor. unfold __rdiv__. rewrite (bind_ok _ _ _ _ _ (get_obj_ok _ _ _ Hma)).
    cbn [is_number].
    rewrite (bind_ok _ _ _ _ _ (convert_same_axis st a b ma ws ta mb 1 1 Ha Hmb Hwb Hasc)).
    rewrite (bind_ok _ _ _ _ _ (get_obj_ok _ _ _ Hmb)).
    assert ((1 <? inputs ma) || (1 <? outputs ma) || (1 <? inputs mb) || (1 <? outputs mb) = true)
      as ->; [|done].
    rewrite !orb_true_iff, !Nat.ltb_lt. tauto.
Qed.

(** X22.  What [_convertToFRD] raises for a model whose axis does not match
    the target (sorted by the call): [ValueError] in each of these cases,
    with the target left sorted.  When the lengths of the two axes differ
    and neither is 1, the comparison of the axes cannot be broadcast.  When
    no frequency of the target lies inside the range of the candidate, the
    ranges "do not overlap".  When two or more do, the case in which a
    re-sampled model is wanted, the test [if not omega] has no truth value
    for the array. *)
Theorem convert_differing_axes_raise st sys s target ws sws i o :
  instance st sys = Some s -> axis st target = Some ws ->
  axis (sort_at target st) (omega s) = Some sws ->
  (bshape (length ws) (length sws) = None ->
     _convertToFRD (VFRD sys) target i o st = (sort_at target st, inl broadcast_error)) /\
  (allclose (sort_asc ws) sws = false -> is_Some (bshape (length ws) (length sws)) ->
   sws <> [] ->
     (in_range sws (sort_asc ws) = [] ->
        _convertToFRD (VFRD sys) target i o st =
          (sort_at target st, inl (ValueError "Frequency ranges of FRD do not overlap"))) /\
     (2 <= length (in_range sws (sort_asc ws)) ->
        _convertToFRD (VFRD sys) target i o st =
          (sort_at target st,
           inl (ValueError
             "The truth value of an array with more than one element is ambiguous.")))).
Proof.
  intros Hs Hw Hsw.
  assert (Hpre : forall K,
    (sort_inplace target ;;;
     ws <- get_vec target ;;
     s <- get_obj sys ;;
     sws <- get_vec (omega s) ;;
     K ws s sws)%M st = K (sort_asc ws) s sws (sort_at target st) :> state * res loc).
  { intros K. rewrite (bind_ok _ _ _ _ _ (sort_inplace_ok _ _ _ Hw)).
    rewrite (bind_ok _ _ _ _ _ (get_vec_ok _ _ _ (sort_at_axis _ _ _ Hw))).
    rewrite <- (sort_at_instance target) in Hs.
    rewrite (bind_ok _ _ _ _ _ (get_obj_ok _ _ _ Hs)).
    by rewrite (bind_ok _ _ _ _ _ (get_vec_ok _ _ _ Hsw)). }
  cbn [_convertToFRD].
  rewrite (Hpre (fun ws s sws => bind (lift (elementwise1 _ ws sws)) _)). clear Hpre.
  split.
  - intros Hb. apply bind_err. unfold lift, elementwise1. by rewrite sort_asc_length, Hb.
  - intros Hclose [n Hn] Hne. unfold allclose in Hclose.
    destruct (elementwise1 _ _ _) as [e|close] eqn:Eclose.
    { unfold elementwise1 in Eclose. by rewrite sort_asc_length, Hn in Eclose. }
    rewrite (bind_ok (lift _) _ (sort_at target st) (sort_at target st) close) by done.
    rewrite Hclose. unfold in_range.
    destruct sws as [|s0 sws']; [done|]. cbn [py_min py_max].
    rewrite (bind_ok (lift (inr _)) _ (sort_at target st) (sort_at target st) _ eq_refl).
    cbv zeta.
    rewrite (bind_ok (lift (inr _)) _ (sort_at target st) (sort_at target st) _ eq_refl).
    cbv zeta. split.
    + intros ->. by rewrite (bind_ok (lift _) _ (sort_at target st) (sort_at target st) false).
    + intros Hlen. apply bind_err.
      destruct (List.filter _ _) as [|w1 [|w2 l]]; simpl in Hlen; [lia|lia|done].
Qed.

End Mismatch.

(** ** Construction from a square response *)

Section Square.
Context `{Numerics}.

(** X23.  [FRD(d, w)] for a response [d] of shape (p, p, N) and a frequency
    vector of length N: every result is a new model with [p] inputs and [p]
    outputs whose axis and response tensor are new arrays holding the data
    as given, the frequencies in the order given (they are not sorted), and
    which [evalfr] evaluates at every frequency to a p x p matrix.  A result
    is returned whenever the splines can be fitted on the axis. *)
Theorem init_square_data st t ws p :
  tensor_wf t -> t_shape t = (p, p, length ws) ->
  (forall st' r, __init__ (Args_data (OfTensor t) (vec ws)) st = (st', inr r) ->
     exists mr, model st' r mr ws t /\ inputs mr = p /\ outputs mr = p /\
       extends st st' /\ length (heap st) <= omega mr /\ length (heap st) <= fresp mr /\
       forall w, exists fr, evalfr mr w = inr fr /\ m_shape fr = (p, p) /\ matrix_wf fr) /\
  (fits ws -> exists st' r, __init__ (Args_data (OfTensor t) (vec ws)) st = (st', inr r)).
Proof.
  intros Hwf Hs. rewrite (init_tensor_axis t ws st p p (length ws) Hs), Nat.eqb_refl.
  split.
  - intros st' r. rewrite finish_init_fresh.
    destruct (build_ifunc t ws) as [e|f] eqn:Ef; [done|]. intros [= <- <-].
    destruct (constructed_model st ws t f p p Hs Hwf Ef) as (mr & Hm & Hi & Ho & He).
    assert (Hev : forall w, exists fr,
              evalfr mr w = inr fr /\ m_shape fr = (p, p) /\ matrix_wf fr).
    { intros w. destruct (model_ifunc _ _ _ _ _ Hm) as [Hlen Hrows].
      destruct (evalfr_ok _ w (model_square _ _ _ _ _ Hm) Hlen Hrows)
        as (fr & Hfr & Hsh & Hfw).
      exists fr. split; [done|]. split; [|done]. by rewrite Hsh, Hi, Ho. }
    exists mr. do 4 (split; [done|]).
    pose proof (model_instance _ _ _ _ _ Hm) as Hin. apply instance_lookup in Hin.
    simpl in Hin. rewrite lookup_app_r in Hin by lia.
    replace (S (S _) - _) with 2 in Hin by lia. simpl in Hin.
    assert (Hom : omega mr = length (heap st)) by (by injection Hin as <-).
    assert (Hfr : fresp mr = S (length (heap st))) by (by injection Hin as <-).
    split; [lia|]. split; [lia|done].
  - intros Hfit. apply (proj2 (finish_init_model st ws t p p Hs Hwf)); auto.
Qed.

(** X24.  [a + sys] for a model [a] on an ascending axis and a generic
    system of the same sizes: the system is evaluated at the frequencies of
    [a], and every result is a new model on these frequencies whose response
    is the element-wise sum of the response of [a] and of the values of the
    system.  A result is returned whenever the splines can be fitted on the
    axis. *)
Theorem add_generic_system st a ma ws ta s :
  model st a ma ws ta -> ascending ws = true -> evaluates s ws ->
  lti_inputs s = inputs ma -> lti_outputs s = outputs ma ->
  (forall st' r, __add__ a (VLti s) st = (st', inr r) ->
     exists mr t1, model st' r mr ws (tensor_add ta t1) /\ model st' a ma ws ta /\
       forall k x, ws !! k = Some x ->
         exists y, lti_evalfr s x = inr y /\ slice C0 t1 k = inr y) /\
  (fits ws -> exists st' r, __add__ a (VLti s) st = (st', inr r)).
Proof.
  intros Ha Hasc Hev Hi Ho. pose proof Ha as [Hma Hwa Hta Hwfa Hsa Hsq _].
  destruct (sample_total (lti_evalfr s) (lti_outputs s) (lti_inputs s) ws Hev)
    as (t1 & Hsample & Hs1 & Hwf1 & Hslices).
  rewrite Hi, Ho in Hs1.
  assert (Hs : t_shape (tensor_add ta t1) = (outputs ma, inputs ma, length ws)) by done.
  assert (Hwf : tensor_wf (tensor_add ta t1)).
  { apply (tensor_wf_items _ _ _ _ Hs). simpl. apply zip3_wf.
    - by apply (tensor_wf_items _ _ _ _ Hsa).
    - by apply (tensor_wf_items _ _ _ _ Hs1). }
  assert (Hunfold : __add__ a (VLti s) st =
    (finish_init (inr ws) (inr t1) ;;;
     finish_init (inr ws) (inr (tensor_add ta t1)))%M st).
  { unfold __add__. rewrite (bind_ok _ _ _ _ _ (get_obj_ok _ _ _ Hma)).
    rewrite (bind_ok (ret tt) _ st st tt eq_refl).
    assert (Hconv : _convertToFRD (VLti s) (omega ma) 1 1 st
                    = finish_init (inr ws) (inr t1) st).
    { cbn [_convertToFRD].
      rewrite (bind_ok _ _ _ _ _ (sort_inplace_ok _ _ _ Hwa)).
      rewrite (sort_at_ascending _ _ _ Hwa Hasc).
      rewrite (bind_ok _ _ _ _ _ (get_vec_ok _ _ _ Hwa)).
      rewrite (bind_ok (lift _) _ st st t1) by (unfold lift; by rewrite Hsample).
      by rewrite (init_tensor_axis _ _ _ _ _ _ Hs1), Nat.eqb_refl. }
    rewrite (bind_cong _ _ _ _ Hconv). apply bind_ext. intros st1 r1 E1.
    destruct (proj1 (finish_init_model st ws t1 _ _ Hs1 Hwf1) st1 r1 E1)
      as (m1 & Hm1 & Hi1 & Ho1 & He & _).
    pose proof Hm1 as [Hmi1 Hw1 Ht1 _ _ _ _].
    rewrite (bind_ok _ _ _ _ _ (get_obj_ok _ _ _ Hmi1)).
    rewrite Hi1, Ho1, !Nat.eqb_refl. cbn [negb].
    rewrite (bind_ok _ _ _ _ _ (get_tensor_ok _ _ _ (extends_tensor _ _ _ _ He Hta))).
    rewrite (bind_ok _ _ _ _ _ (get_tensor_ok _ _ _ Ht1)).
    rewrite (elementwise3_same Cadd ta t1 _ _ _ Hsa Hs1 Hwfa Hwf1).
    rewrite (bind_ok (lift (inr _)) _ st1 st1 _ eq_refl).
    rewrite (bind_ok _ _ _ _ _ (get_vec_ok _ _ _ Hw1)).
    rewrite (init_tensor_axis _ _ _ (outputs ma) (inputs ma) (length ws)) by done.
    rewrite Nat.eqb_refl. unfold tensor_add. by rewrite Hsa. }
  rewrite Hunfold. split.
  - intros st' r. unfold bind.
    destruct (finish_init _ _ st) as [st1 [e|r1]] eqn:E1; [done|].
    destruct (proj1 (finish_init_model st ws t1 _ _ Hs1 Hwf1) st1 r1 E1)
      as (m1 & _ & _ & _ & He1 & _).
    intros Hrun.
    destruct (proj1 (finish_init_model st1 ws _ _ _ Hs Hwf) st' r Hrun)
      as (mr & Hm & _ & _ & He & _).
    exists mr, t1. split; [done|]. split; [|done].
    eapply model_extends; [done|]. by eapply extends_trans.
  - intros Hfit.
    destruct (proj2 (finish_init_model st ws t1 _ _ Hs1 Hwf1)) as (st1 & r1 & E1);
      [destruct Hsq as [?|[?|?]]; auto|done|].
    rewrite (bind_ok _ _ _ _ _ E1).
    apply (proj2 (finish_init_model st1 ws _ _ _ Hs Hwf)); [|done].
    destruct Hsq as [?|[?|?]]; auto.
Qed.

End Square.

(** ** Feedback through a constant gain *)

Lemma map_replicate {X Y} (f : X -> Y) q x : map f (replicate q x) = replicate q (f x).
Proof. induction q as [|q IH]; simpl; congruence. Qed.

Lemma slice_constant3 (c : C) p m n k :
  k < n -> slice C0 (constant3 c (p, m, n)) k = inr (Matrix (p, m) (replicate p (replicate m c))).
Proof.
  intros Hk. rewrite (slice_items C0 (constant3 c (p, m, n)) k p m n eq_refl Hk).
  do 2 f_equal. unfold get_slice. cbn [constant3 t_items]. rewrite !map_replicate.
  by rewrite nth_lookup, lookup_replicate_2.
Qed.

Section Gain.
Context `{Numerics}.

(** X25.  [P.feedback(x)] for a SISO model [P] on an ascending axis and a
    number [x]: every result is a new SISO model on the frequencies of [P]
    whose response at each sample [k] is [(1 + P_k x)^-1 P_k], computed by a
    linear solve, whatever the [sign], which the loop does not read; [P] is
    as it was. *)
Theorem feedback_number_siso st a ma ws ta x sign st' r :
  solve_keeps_shape ->
  model st a ma ws ta -> ascending ws = true -> inputs ma = 1 -> outputs ma = 1 ->
  feedback a (VNum x) sign st = (st', inr r) ->
  exists mr tr, model st' r mr ws tr /\ inputs mr = 1 /\ outputs mr = 1 /\
    model st' a ma ws ta /\
    forall k, k < length ws ->
      exists p y, slice C0 ta k = inr p /\
        closed_loop p (Matrix (1, 1) [[complex_of x]]) = inr y /\ slice C0 tr k = inr y.
Proof.
  intros Hsolve Ha Hasc Hi Ho. pose proof Ha as [Hma Hwa Hta Hwfa Hsa _ _].
  rewrite Hi, Ho in Hsa. set (n := length ws) in *.
  set (tc := constant3 (complex_of x) (1, 1, n)).
  pose proof (finish_init_model st ws tc 1 1 eq_refl (constant3_wf _ _ _ _)) as [Hres _].
  assert (Hred : forall st1 r1, finish_init (inr ws) (inr tc) st = (st1, inr r1) ->
            feedback a (VNum x) sign st = feedback a (VFRD r1) sign st1).
  { intros st1 r1 E1. destruct (Hres st1 r1 E1) as (m1 & Hm1 & _ & _ & He & _).
    pose proof (model_extends _ _ _ _ _ _ Ha He) as Ha1.
    unfold feedback. rewrite (bind_ok _ _ _ _ _ (get_obj_ok _ _ _ Hma)).
    rewrite (bind_ok _ _ _ _ _ (get_obj_ok _ _ _ (model_instance _ _ _ _ _ Ha1))).
    rewrite (bind_cong _ _ _ _ (convert_number_unfold st (omega ma) ws x 1 1 Hwa)).
    rewrite (bind_ok _ _ _ _ _ E1).
    by rewrite (bind_ok _ _ _ _ _
                  (convert_same_axis st1 a r1 ma ws ta m1 1 1 Ha1
                     (model_instance _ _ _ _ _ Hm1) (model_axis _ _ _ _ _ Hm1) Hasc)). }
  destruct (finish_init (inr ws) (inr tc) st) as [st1 [e|r1]] eqn:E1.
  { unfold feedback. rewrite (bind_ok _ _ _ _ _ (get_obj_ok _ _ _ Hma)).
    rewrite (bind_cong _ _ _ _ (convert_number_unfold st (omega ma) ws x 1 1 Hwa)).
    fold n tc. by rewrite (bind_err _ _ _ _ _ E1). }
  rewrite (Hred st1 r1 eq_refl). clear Hred.
  destruct (Hres st1 r1 eq_refl) as (m1 & Hm1 & Hi1 & Ho1 & He & _).
  pose proof (model_extends _ _ _ _ _ _ Ha He) as Ha1.
  rewrite (feedback_same_axis_unfold st1 a r1 ma m1 ws ta tc sign Ha1 Hm1 Hasc).
  rewrite Hi, Ho, Hi1, Ho1. cbn [Nat.eqb negb orb].
  destruct (foldE _ _ _) as [e|t] eqn:Efold; [done|].
  apply (foldE_enumerate_inv _ (filled 1 1 n ta tc)) in Efold.
  2:{ split; [done|]. split; [apply empty3_wf|]. intros; lia. }
  2:{ intros k w t1 t2 Hk Hf Hstep.
      eapply (filled_step 1 1 n ta tc); try done; [apply constant3_wf|].
      by apply lookup_lt_Some in Hk. }
  destruct Efold as (Hst & Hwt & Hall). intros Hrun.
  assert (Hwf : tensor_wf t) by (by apply (tensor_wf_items _ _ _ _ Hst)).
  rewrite (init_tensor_axis t ws st1 1 1 n Hst) in Hrun. fold n in Hrun.
  rewrite Nat.eqb_refl in Hrun.
  destruct (proj1 (finish_init_model st1 ws t 1 1 Hst Hwf) st' r Hrun)
    as (mr & Hm & Hmi & Hmo & He' & _).
  exists mr, t. do 3 (split; [done|]). split; [by eapply model_extends|].
  intros k Hk. destruct (Hall k Hk) as (p & c & y & Hp & Hc & Hcl & Hy).
  unfold tc in Hc. rewrite (slice_constant3 _ 1 1 n k Hk) in Hc. injection Hc as <-.
  by exists p, y.
Qed.

End Gain.

(** ** Concrete runs of the remaining code *)

Lemma hold_kernel_fits : @fits hold_kernel [1; 2; 3; 4]%Q.
Proof. intros x wt. eexists. reflexivity. Qed.

Lemma hold_kernel_interpolates : @interpolates hold_kernel [1; 2; 3; 4]%Q.
Proof.
  intros xs ys wt f k w x y Hf Hw Hx Hy. injection Hf as <-.
  destruct k as [|[|[|[|k]]]]; simpl in Hw; [| | | |done]; injection Hw as <-;
    destruct xs as [|x0 [|x1 [|x2 [|x3 xs]]]]; simpl in Hx; try done;
    destruct ys as [|y0 [|y1 [|y2 [|y3 ys]]]]; simpl in Hy; try done;
    injection Hx as <-; injection Hy as <-; reflexivity.
Qed.

Lemma ramp_evaluates ws : evaluates ramp ws.
Proof.
  intros w _. eexists. split; [reflexivity|]. split; [reflexivity|].
  split; [done|]. repeat constructor.
Qed.



Lemma square_model_at_2 :
  exists me, @model square_model 2 me [1; 2; 3; 4]%Q (constant3 C1 (2, 2, 4)) /\
             inputs me = 2 /\ outputs me = 2.
Proof.
  eexists. split; [split|]; try reflexivity.
  - split; [done|]. repeat constructor.
  - by left.
  - split; [done|]. repeat constructor.
  - done.
Qed.

Lemma close_models_first :
  exists me, @model close_models 2 me [1; 2; 3; 4]%Q (constant3 (Cplx 2 0) (1, 1, 4)) /\
             inputs me = 1 /\ outputs me = 1.
Proof.
  eexists. split; [split|]; try reflexivity.
  - split; [done|]. repeat constructor.
  - by left.
  - split; [done|]. repeat constructor.
  - done.
Qed.

Lemma close_models_second :
  exists me, @model close_models 5 me [1; 2; 3; 4.000000001]%Q
                    (constant3 (Cplx 4 0) (1, 1, 4)) /\
             inputs me = 1 /\ outputs me = 1.
Proof.
  eexists. split; [split|]; try reflexivity.
  - split; [done|]. repeat constructor.
  - by left.
  - split; [done|]. repeat constructor.
  - done.
Qed.

Lemma neg_negates_every_sample_witness :
  exists st' r mr,
    @__neg__ hold_kernel 2 two_models = (st', inr r) /\
    model st' r mr [1; 2; 3; 4]%Q (tensor_neg (constant3 (Cplx 2 0) (1, 1, 4))).
Proof.
  destruct two_models_first as (ma & Ha & _).
  destruct (@neg_negates_every_sample hold_kernel two_models 2 ma _ _ Ha) as [Hres Hex].
  destruct (Hex hold_kernel_fits) as (st' & r & Hrun).
  destruct (Hres st' r Hrun) as (mr & Hm & _). by exists st', r, mr.
Defined.

Lemma neg_neg_restores_witness :
  exists mc,
    model (@__neg__ hold_kernel 8 (@__neg__ hold_kernel 2 two_models).1).1 11 mc
          [1; 2; 3; 4]%Q (constant3 (Cplx 2 0) (1, 1, 4)).
Proof.
  destruct two_models_first as (ma & Ha & _).
  destruct (@neg_neg_restores hold_kernel two_models 2 ma _ _
              (@__neg__ hold_kernel 2 two_models).1 8
              (@__neg__ hold_kernel 8 (@__neg__ hold_kernel 2 two_models).1).1 11
              Ha eq_refl eq_refl) as (mc & Hm & _).
  by exists mc.
Defined.

Lemma convert_number_constant_witness :
  exists st' r mr,
    @_convertToFRD hold_kernel (VNum (PyInt 3)) 0 1 1 two_models = (st', inr r) /\
    model st' r mr [1; 2; 3; 4]%Q (constant3 (Cplx 3 0) (1, 1, 4)) /\
    axis st' 0 = Some [1; 2; 3; 4]%Q.
Proof.
  destruct (@convert_number_constant hold_kernel two_models 0 [1; 2; 3; 4]%Q (PyInt 3) 1 1
              eq_refl) as (Hres & Hex & _).
  destruct (Hex eq_refl hold_kernel_fits) as (st' & r & Hrun).
  destruct (Hres st' r Hrun) as (mr & Hm & _ & _ & Hax & _). by exists st', r, mr.
Defined.

Lemma add_number_siso_witness :
  exists st' r mr,
    @__radd__ hold_kernel 2 (VNum (PyFloat 0.5)) two_models = (st', inr r) /\
    model st' r mr [1; 2; 3; 4]%Q
          (tensor_shift (Cplx 0.5 0) (constant3 (Cplx 2 0) (1, 1, 4))).
Proof.
  destruct two_models_first as (ma & Ha & Hi & Ho & _).
  destruct (@add_number_siso hold_kernel two_models 2 ma _ _ (PyFloat 0.5)
              (@__radd__ hold_kernel) Ha Hi Ho (or_intror eq_refl)) as [Hres Hex].
  destruct (Hex hold_kernel_fits) as (st' & r & Hrun).
  destruct (Hres st' r Hrun) as (mr & Hm & _). by exists st', r, mr.
Defined.

Lemma add_number_mimo_raises_witness :
  exists st',
    @__add__ hold_kernel 2 (VNum (PyInt 1)) square_model =
      (st', inl (ValueError "The first summand has %i input(s), but the second has %i.")).
Proof.
  destruct square_model_at_2 as (me & Hm & Hi & Ho).
  destruct (@add_number_mimo_raises hold_kernel square_model 2 me _ _ (PyInt 1) Hm)
    as (st' & e & Hrun & He).
  { left. lia. }
  exists st'. rewrite Hrun, (He hold_kernel_fits), Hi. reflexivity.
Defined.

Lemma sub_same_axis_witness :
  exists st' r mr,
    @__sub__ hold_kernel no_lti_neg 2 (VFRD 5) two_models = (st', inr r) /\
    model st' r mr [1; 2; 3; 4]%Q
          (tensor_add (constant3 (Cplx 2 0) (1, 1, 4))
                      (tensor_neg (constant3 (Cplx 4 0) (1, 1, 4)))).
Proof.
  destruct two_models_first as (ma & Ha & Hia & Hoa & _).
  destruct two_models_second as (mb & Hb & Hib & Hob).
  destruct (@sub_same_axis hold_kernel no_lti_neg two_models 2 5 ma mb _ _ _ Ha Hb eq_refl)
    as [Hres Hex]; [lia..|].
  destruct (Hex hold_kernel_fits) as (st' & r & Hrun).
  destruct (Hres st' r Hrun) as (mr & Hm & _). by exists st', r, mr.
Defined.

Lemma sub_self_is_zero_witness :
  exists mr t,
    model (@__sub__ hold_kernel no_lti_neg 2 (VFRD 2) two_models).1 11 mr [1; 2; 3; 4]%Q t /\
    zero_response t.
Proof.
  destruct two_models_first as (ma & Ha & _).
  destruct (@sub_self_is_zero hold_kernel no_lti_neg two_models 2 ma _ _
              (@__sub__ hold_kernel no_lti_neg 2 (VFRD 2) two_models).1 11
              Ha eq_refl eq_refl) as (mr & t & Hm & Hz & _).
  by exists mr, t.
Defined.

Lemma rsub_number_siso_witness :
  exists st' r mr,
    @__rsub__ hold_kernel no_lti_add 2 (VNum (PyInt 3)) two_models = (st', inr (VFRD r)) /\
    model st' r mr [1; 2; 3; 4]%Q
          (tensor_shift (Cplx 3 0) (tensor_neg (constant3 (Cplx 2 0) (1, 1, 4)))).
Proof.
  destruct two_models_first as (ma & Ha & Hi & Ho & _).
  destruct (@rsub_number_siso hold_kernel no_lti_add two_models 2 ma _ _ (PyInt 3) Ha Hi Ho)
    as [Hres Hex].
  destruct (Hex hold_kernel_fits) as (st' & v & Hrun).
  destruct (Hres st' v Hrun) as (r & mr & -> & Hm & _). by exists st', r, mr.
Defined.

Lemma init_samples_system_witness :
  exists st' r mr t,
    @__init__ hold_kernel (Args_lti ramp [4; 2; 1; 3]%Q) empty_state = (st', inr r) /\
    model st' r mr [1; 2; 3; 4]%Q t /\
    slice C0 t 3 = inr (Matrix (1, 1) [[Cplx 4 0]]).
Proof.
  destruct (@init_samples_system hold_kernel empty_state ramp [4; 2; 1; 3]%Q
              (ramp_evaluates _)) as (Hres & Hex & _).
  destruct (Hex eq_refl hold_kernel_fits) as (st' & r & Hrun).
  destruct (Hres st' r Hrun) as (mr & t & Hm & _ & _ & _ & _ & _ & Hsl).
  destruct (Hsl 3 4%Q eq_refl) as (a & Ha & Hs). injection Ha as <-.
  by exists st', r, mr, t.
Defined.

Lemma convert_samples_system_witness :
  exists st' r mr t,
    @_convertToFRD hold_kernel (VLti ramp) 6 1 1 with_sweep4 = (st', inr r) /\
    model st' r mr [1; 2; 3; 4]%Q t /\
    axis st' 6 = Some [1; 2; 3; 4]%Q /\
    slice C0 t 0 = inr (Matrix (1, 1) [[Cplx 1 0]]).
Proof.
  destruct (@convert_samples_system hold_kernel with_sweep4 ramp 6 [4; 2; 1; 3]%Q 1 1
              eq_refl (ramp_evaluates _)) as (Hres & Hex).
  destruct (Hex eq_refl hold_kernel_fits) as (st' & r & Hrun).
  destruct (Hres st' r Hrun) as (mr & t & Hm & _ & _ & Hax & _ & Hsl).
  destruct (Hsl 0 1%Q eq_refl) as (a & Ha & Hs). injection Ha as <-.
  by exists st', r, mr, t.
Defined.

Lemma convert_rebase_single_point_witness :
  @_convertToFRD hold_kernel (VFRD 5) 0 1 1 two_models = (two_models, inr 5) /\
  (5 = 5 \/
   exists mr w, instance two_models 5 = Some mr /\ axis two_models (omega mr) = Some [w]).
Proof.
  split; [reflexivity|].
  destruct (@convert_rebase_single_point hold_kernel two_models 5 0 1 1 two_models 5 eq_refl)
    as [Hsame|(mr & w & Hmr & Hw & _)]; [by left|right; by exists mr, w].
Defined.

Lemma evalfr_at_sample_witness :
  exists me,
    instance two_models 2 = Some me /\
    @evalfr hold_kernel me 3%Q = inr (Matrix (1, 1) [[Cplx 2 0]]).
Proof.
  destruct (@evalfr_at_sample hold_kernel (constant3 (Cplx 2 0) (1, 1, 4))
              [1; 2; 3; 4]%Q empty_state
              (@__init__ hold_kernel (Args_data (OfTensor (constant3 (Cplx 2 0) (1, 1, 4)))
                                                (vec [1; 2; 3; 4]%Q)) empty_state).1 2
              (constant3_wf _ _ _ _) hold_kernel_interpolates eq_refl) as (me & Hme & Hev).
  exists me. split.
  - apply instance_lookup. apply instance_lookup in Hme. exact Hme.
  - exact (Hev 2 3%Q eq_refl).
Defined.

Lemma freqresp_again_witness :
  @freqresp hold_kernel 2 6 (@freqresp hold_kernel 2 6 with_sweep).1
  = @freqresp hold_kernel 2 6 with_sweep /\
  axis (@freqresp hold_kernel 2 6 with_sweep).1 6 = Some [1; 2; 3]%Q.
Proof.
  split; [|reflexivity].
  apply (proj1 (@freqresp_again hold_kernel with_sweep 2 _ 6 [3; 1; 2]%Q eq_refl eq_refl)).
Defined.

Lemma init_copy_shares_arrays_witness :
  exists st' r' me' ma,
    @__init__ hold_kernel (Args_one (VFRD 2)) two_models = (st', inr r') /\
    instance st' r' = Some me' /\ instance two_models 2 = Some ma /\
    omega me' = omega ma /\ fresp me' = fresp ma.
Proof.
  destruct two_models_first as (ma & Ha & _).
  destruct (@init_copy_shares_arrays hold_kernel two_models 2 ma _ _ Ha) as (Hres & Hex & _).
  destruct (Hex hold_kernel_fits) as (st' & r' & Hrun).
  destruct (Hres st' r' Hrun) as (me' & _ & _ & Ho & Hf & Hm).
  exists st', r', me', ma. split; [done|]. split; [apply Hm|]. split; [apply Ha|]. by split.
Defined.

Lemma methods_keep_heap_values_witness :
  evolves two_models (@__sub__ hold_kernel no_lti_neg 2 (VFRD 5) two_models).1 /\
  evolves with_sweep4 (@_convertToFRD hold_kernel (VLti ramp) 6 1 1 with_sweep4).1.
Proof.
  destruct (@methods_keep_heap_values hold_kernel no_lti_neg no_lti_add)
    as (_ & Hconv & Hall).
  - intros s. apply tame_stable, stable_raise.
  - intros s r. apply tame_stable, stable_raise.
  - destruct (Hall 2 (VFRD 5)) as (_ & _ & _ & Hsub & _). split; [apply Hsub|apply Hconv].
Defined.

Lemma add_close_axes_witness :
  exists st' r mr,
    @__add__ hold_kernel 2 (VFRD 5) close_models = (st', inr r) /\
    model st' r mr [1; 2; 3; 4.000000001]%Q
          (tensor_add (constant3 (Cplx 2 0) (1, 1, 4)) (constant3 (Cplx 4 0) (1, 1, 4))) /\
    stdout st' = [frequency_warning].
Proof.
  destruct close_models_first as (ma & Ha & Hia & Hoa).
  destruct close_models_second as (mb & Hb & Hib & Hob).
  destruct (@add_close_axes hold_kernel close_models 2 5 ma mb _ _ _ _ Ha Hb
              eq_refl eq_refl eq_refl) as [Hres Hex]; [lia..|].
  destruct Hex as (st' & r & Hrun). { intros x wt. eexists. reflexivity. }
  destruct (Hres st' r Hrun) as (mr & Hm & Hout). by exists st', r, mr.
Defined.

Lemma unsorted_model_at_2 :
  exists me, @model unsorted_model 2 me [2; 1; 4; 3]%Q
               (Tensor (1, 1, 4) [[[Cplx 1 0; Cplx 2 0; Cplx 3 0; Cplx 4 0]]]) /\
             inputs me = 1 /\ outputs me = 1 /\ omega me = 0 /\ fresp me = 1.
Proof.
  eexists. split; [split|]; try reflexivity.
  - split; [done|]. repeat constructor.
  - by left.
  - split; [done|]. repeat constructor.
  - done.
Qed.

Lemma str_sorts_own_axis_witness :
  axis unsorted_model 0 = Some [2; 1; 4; 3]%Q /\
  exists st' s,
    @__str__ hold_kernel plain_row 2 unsorted_model = (st', inr s) /\
    axis st' 0 = Some [1; 2; 3; 4]%Q /\
    tensor_at st' 1 = Some (Tensor (1, 1, 4) [[[Cplx 1 0; Cplx 2 0; Cplx 3 0; Cplx 4 0]]]).
Proof.
  split; [reflexivity|].
  destruct unsorted_model_at_2 as (me & Hm & _ & _ & Hom & Hfr).
  destruct (@str_sorts_own_axis hold_kernel plain_row unsorted_model 2 me _ _ Hm)
    as (s & Hrun & Hax & Ht & _).
  rewrite Hom in *. rewrite Hfr in *. by eexists _, s.
Defined.

Lemma convert_sequence_constant_witness :
  exists st' r mr t,
    @_convertToFRD hold_kernel
      (VSeq (Node [Node [Leaf 1%Q; Leaf 2%Q]; Node [Leaf 3%Q; Leaf 4%Q]])) 0 1 1 two_models
    = (st', inr r) /\
    model st' r mr [1; 2; 3; 4]%Q t /\ outputs mr = 2 /\ inputs mr = 2 /\
    column t 1 0 = inr (replicate 4 (Cplx 3 0)).
Proof.
  destruct (@convert_sequence_constant hold_kernel two_models
              (Node [Node [Leaf 1%Q; Leaf 2%Q]; Node [Leaf 3%Q; Leaf 4%Q]]) 0
              [1; 2; 3; 4]%Q 1 1 eq_refl) as [Hres Hex].
  destruct (Hex 2 eq_refl eq_refl hold_kernel_fits) as (st' & r & Hrun).
  destruct (Hres st' r Hrun) as (mr & t & p & m & Hs & Hm & Ho & Hi & _ & Hcol).
  injection Hs as <- <-.
  exists st', r, mr, t. do 4 (split; [done|]).
  exact (Hcol 1 0 (Node [Leaf 3%Q; Leaf 4%Q]) 3%Q eq_refl eq_refl).
Defined.

Lemma mul_rdiv_size_errors_witness :
  @__rdiv__ hold_kernel 2 (VFRD 2) square_model =
    (square_model,
     inl (NotImplementedError "FRD.__rdiv__ is currently implemented only for SISO systems.")).
Proof.
  destruct square_model_at_2 as (me & Hm & Hi & Ho).
  apply (proj2 (@mul_rdiv_size_errors hold_kernel square_model 2 2 me me _ _ _ Hm Hm eq_refl)).
  left. lia.
Defined.

Lemma convert_differing_axes_raise_witness :
  in_range [1; 2; 3; 5]%Q [1; 2; 3; 4]%Q = [1; 2; 3; 4]%Q /\
  @_convertToFRD hold_kernel (VFRD 5) 0 1 1 differing_models =
    (differing_models,
     inl (ValueError "The truth value of an array with more than one element is ambiguous.")).
Proof.
  split; [reflexivity|].
  refine (proj2 (proj2 (@convert_differing_axes_raise hold_kernel differing_models 5 _ 0
            [1; 2; 3; 4]%Q [1; 2; 3; 5]%Q 1 1 eq_refl eq_refl eq_refl)
          eq_refl _ _) _).
  - by eexists.
  - done.
  - simpl. lia.
Defined.

Lemma init_square_data_witness :
  exists st' r mr,
    @__init__ hold_kernel
      (Args_data (OfTensor (constant3 C1 (2, 2, 4))) (vec [2; 1; 4; 3]%Q)) empty_state
    = (st', inr r) /\
    model st' r mr [2; 1; 4; 3]%Q (constant3 C1 (2, 2, 4)) /\
    inputs mr = 2 /\ outputs mr = 2.
Proof.
  destruct (@init_square_data hold_kernel empty_state (constant3 C1 (2, 2, 4))
              [2; 1; 4; 3]%Q 2 (constant3_wf _ _ _ _) eq_refl) as [Hres Hex].
  destruct Hex as (st' & r & Hrun). { intros x wt. eexists. reflexivity. }
  destruct (Hres st' r Hrun) as (mr & Hm & Hi & Ho & _). by exists st', r, mr.
Defined.

Lemma add_generic_system_witness :
  exists st' r mr t1,
    @__add__ hold_kernel 2 (VLti ramp) two_models = (st', inr r) /\
    model st' r mr [1; 2; 3; 4]%Q (tensor_add (constant3 (Cplx 2 0) (1, 1, 4)) t1) /\
    slice C0 t1 2 = inr (Matrix (1, 1) [[Cplx 3 0]]).
Proof.
  destruct two_models_first as (ma & Ha & Hi & Ho & _).
  destruct (@add_generic_system hold_kernel two_models 2 ma _ _ ramp Ha eq_refl
              (ramp_evaluates _)) as [Hres Hex]; [by rewrite Hi|by rewrite Ho|].
  destruct (Hex hold_kernel_fits) as (st' & r & Hrun).
  destruct (Hres st' r Hrun) as (mr & t1 & Hm & _ & Hsl).
  destruct (Hsl 2 3%Q eq_refl) as (y & Hy & Hs). injection Hy as <-.
  by exists st', r, mr, t1.
Defined.

Lemma feedback_number_siso_witness :
  exists mr tr y,
    model (@feedback hold_kernel 2 (VNum (PyInt 1)) (PyInt (-1)) two_models).1 11 mr
          [1; 2; 3; 4]%Q tr /\
    @closed_loop hold_kernel (Matrix (1, 1) [[Cplx 2 0]]) (Matrix (1, 1) [[Cplx 1 0]])
      = inr y /\
    slice C0 tr 0 = inr y.
Proof.
  destruct two_models_first as (ma & Ha & Hi & Ho & _).
  destruct (@feedback_number_siso hold_kernel two_models 2 ma _ _ (PyInt 1) (PyInt (-1))
              (@feedback hold_kernel 2 (VNum (PyInt 1)) (PyInt (-1)) two_models).1 11
              hold_kernel_solve Ha eq_refl Hi Ho eq_refl) as (mr & tr & Hm & _ & _ & _ & Hall).
  destruct (Hall 0) as (p & y & Hp & Hcl & Hy); [simpl; lia|].
  injection Hp as <-. by exists mr, tr, y.
Defined.

(** Runs of the remaining code, with [hold_kernel]. *)

(** The model was given the sample 1 at the frequency 2 and the sample 2 at
    the frequency 1; its listing shows the sorted frequencies beside the
    samples in the order given. *)
Example listing_of_unsorted_model :
  (@__str__ hold_kernel plain_row 2 unsorted_model).2
  = inr (String.concat newline
           ["frequency response data ";
            "Freq [rad/s]  Magnitude    Phase";
            "------------  -----------  -----------";
            "1 1"; "2 2"; "3 3"; "4 4"]).
Proof. reflexivity. Qed.

(** The example of the docstring, [_convertToFRD(1., inputs=3, outputs=2)]. *)
Example convert_one_3_inputs_2_outputs :
  (@_convertToFRD hold_kernel (VNum (PyFloat 1)) 0 3 2 two_models).2
  = inl (IndexError "index out of bounds").
Proof. reflexivity. Qed.

(** A matrix with two rows and three columns is not converted. *)
Example convert_matrix_2x3 :
  (@_convertToFRD hold_kernel
     (VSeq (Node [Node [Leaf 1%Q; Leaf 2%Q; Leaf 3%Q]; Node [Leaf 4%Q; Leaf 5%Q; Leaf 6%Q]]))
     0 1 1 two_models).2
  = inl (TypeError "Can't convert given type %s to FRD system.").
Proof. reflexivity. Qed.

(** [3 - a] for the first of the two models: 3 - 2 at every sample. *)
Example three_minus_model :
  match tensor_at (@__rsub__ hold_kernel no_lti_add 2 (VNum (PyInt 3)) two_models).1 13 with
  | Some t => forallb (forallb (forallb (fun z => Qeq_bool (re z) 1 && Qeq_bool (im z) 0)))
                      (t_items t)
  | None => false
  end = true.
Proof. reflexivity. Qed.

(** [2 * a] and [1 / a] for the first of the two models. *)
Example number_times_model :
  (@__rmul__ hold_kernel 2 (VNum (PyInt 2)) two_models).2 = inl (no_attribute "num").
Proof. reflexivity. Qed.

Example number_over_model :
  (@__rdiv__ hold_kernel 2 (VNum (PyInt 1)) two_models).2 = inl (no_attribute "num").
Proof. reflexivity. Qed.
